(** * Codex wake-up tasks: recurrence calculator, cron evaluator, history log,
      fan-out executor, schedule normalisation and legacy storage migration.

    A shallow embedding of the pure core of
    [src/pages/CodexWakeupTasksPage.tsx] and of the cache helpers of
    [src/stores/createInstanceStore.ts], followed by the properties that the
    specification states about them.

    Modelling conventions.
    - A JavaScript number is modelled on its integer values: [jsnum] is
      [option Z], [None] standing for [NaN].  Fractions and infinities are
      outside the model.
    - A [Date] is its time value: milliseconds of local wall-clock time since
      the epoch, [None] standing for an invalid date.  The local time zone has
      no daylight-saving transitions (the specification leaves them out of
      scope), so local time is a plain linear scale.
    - Strings are [string]s of 8-bit characters; the white space of [trim],
      [\s] and the numeric conversions is the ASCII white space.
    - [localStorage] is a finite map from keys to values. *)

From Stdlib Require Import ZArith Ascii String List Bool Lia DecimalString.
From stdpp Require Import base option list sorting gmap strings.

Open Scope Z_scope.

(** ** JavaScript primitives *)

Module JS.

(** *** Numbers *)

Definition jsnum := option Z.

Definition NaN : jsnum := None.

(** [a + b], [a - b] on numbers: [NaN] is absorbing. *)
Definition add (a b : jsnum) : jsnum :=
  match a, b with Some x, Some y => Some (x + y) | _, _ => None end.

Definition sub (a b : jsnum) : jsnum :=
  match a, b with Some x, Some y => Some (x - y) | _, _ => None end.

(** [a <= b]: false as soon as one side is [NaN]. *)
Definition le (a b : jsnum) : bool :=
  match a, b with Some x, Some y => x <=? y | _, _ => false end.

(** [x || d] on numbers: [0] and [NaN] are falsy. *)
Definition orDefault (x : jsnum) (d : Z) : Z :=
  match x with
  | Some v => if v =? 0 then d else v
  | None => d
  end.

(** [Math.ceil(a / b)] for integers [a] and [b <> 0]. *)
Definition ceilDiv (a b : Z) : Z := - ((- a) / b).

(** [ToLength] as used by [Array.from({ length })]: [NaN] and negative
    lengths give the empty array. *)
Definition toLength (n : jsnum) : nat :=
  match n with Some v => Z.to_nat v | None => 0%nat end.

(** [Array.from({ length: n }, (_, i) => f i)]. *)
Definition arrayFrom {A} (n : jsnum) (f : Z -> A) : list A :=
  map (fun i : nat => f (Z.of_nat i)) (seq 0 (toLength n)).

(** *** Characters and strings *)

Definition isWhite (a : ascii) : bool :=
  let n := nat_of_ascii a in
  ((9 <=? n) && (n <=? 13))%nat || (n =? 32)%nat.

Definition isDigit (a : ascii) : bool :=
  let n := nat_of_ascii a in ((48 <=? n) && (n <=? 57))%nat.

Definition digitVal (a : ascii) : Z := Z.of_nat (nat_of_ascii a) - 48.

Definition isEmpty (s : string) : bool :=
  match s with EmptyString => true | String _ _ => false end.

(** [s.includes(c)] for a one-character needle. *)
Fixpoint includes (c : ascii) (s : string) : bool :=
  match s with
  | EmptyString => false
  | String a s' => if Ascii.eqb a c then true else includes c s'
  end.

(** [s.split(c)] for a one-character separator: always at least one piece. *)
Fixpoint split (c : ascii) (s : string) : list string :=
  match s with
  | EmptyString => [EmptyString]
  | String a s' =>
      if Ascii.eqb a c then EmptyString :: split c s'
      else match split c s' with
           | piece :: rest => String a piece :: rest
           | [] => [String a EmptyString]
           end
  end.

Fixpoint trimStart (s : string) : string :=
  match s with
  | EmptyString => EmptyString
  | String a s' => if isWhite a then trimStart s' else s
  end.

Fixpoint trimEnd (s : string) : string :=
  match s with
  | EmptyString => EmptyString
  | String a s' =>
      let r := trimEnd s' in
      if isWhite a && isEmpty r then EmptyString else String a r
  end.

Definition trim (s : string) : string := trimEnd (trimStart s).

(** [s.split(/\s+/)]: a maximal run of white space is one separator.
    [inRun] tells that the previous character belonged to a separator. *)
Fixpoint splitWhiteFrom (inRun : bool) (s : string) : list string :=
  match s with
  | EmptyString => [EmptyString]
  | String a s' =>
      if isWhite a then
        if inRun then splitWhiteFrom true s'
        else EmptyString :: splitWhiteFrom true s'
      else match splitWhiteFrom false s' with
           | piece :: rest => String a piece :: rest
           | [] => [String a EmptyString]
           end
  end.

Definition splitWhite (s : string) : list string := splitWhiteFrom false s.

(** [xs.join(sep)]. *)
Definition join (sep : string) (xs : list string) : string :=
  String.concat sep xs.

(** ASCII part of [s.toLowerCase()]. *)
Definition lowerChar (a : ascii) : ascii :=
  let n := nat_of_ascii a in
  if ((65 <=? n) && (n <=? 90))%nat then ascii_of_nat (n + 32) else a.

Fixpoint toLowerCase (s : string) : string :=
  match s with
  | EmptyString => EmptyString
  | String a s' => String (lowerChar a) (toLowerCase s')
  end.

(** The default comparison of [Array.prototype.sort] on strings: code unit
    order, as a comparator result. *)
Definition compareStrings (a b : string) : Z :=
  match String.compare a b with
  | Lt => -1
  | Eq => 0
  | Gt => 1
  end.

(** *** String to number *)

(** Value of a string made of decimal digits only. *)
Fixpoint digitsValue (acc : Z) (s : string) : jsnum :=
  match s with
  | EmptyString => Some acc
  | String a s' =>
      if isDigit a then digitsValue (10 * acc + digitVal a) s' else None
  end.

Definition unsignedValue (s : string) : jsnum :=
  if isEmpty s then None else digitsValue 0 s.

(** [Number(s)] on the literals of the model: surrounding white space is
    dropped, the empty string is [0], an optionally signed run of decimal
    digits is its value, anything else is [NaN].  JavaScript reads more texts
    as numbers (an exponent, a hexadecimal prefix, a decimal point,
    [Infinity]); they are not covered, and a property that rests on a text
    not being a number is stated for texts that no reading takes for one. *)
Definition Number (s : string) : jsnum :=
  match trim s with
  | EmptyString => Some 0
  | String "+" r => unsignedValue r
  | String "-" r => Z.opp <$> unsignedValue r
  | t => unsignedValue t
  end.

(** Value of the longest prefix of decimal digits; [seen] tells that a digit
    has been read. *)
Fixpoint digitsPrefix (acc : Z) (seen : bool) (s : string) : jsnum :=
  match s with
  | EmptyString => if seen then Some acc else None
  | String a s' =>
      if isDigit a then digitsPrefix (10 * acc + digitVal a) true s'
      else if seen then Some acc else None
  end.

(** [Number.parseInt(s, 10)]: leading white space, an optional sign, then the
    longest run of digits; [NaN] when there is no digit. *)
Definition parseInt (s : string) : jsnum :=
  match trimStart s with
  | String "+" r => digitsPrefix 0 false r
  | String "-" r => Z.opp <$> digitsPrefix 0 false r
  | t => digitsPrefix 0 false t
  end.

(** [arr[i]] on an array of numbers: [undefined] converts to [NaN]. *)
Definition numAt (xs : list jsnum) (i : nat) : jsnum := mjoin (xs !! i).

(** *** Dates *)

Definition Date := option Z.

Definition msPerMinute : Z := 60000.
Definition msPerHour : Z := 3600000.
Definition msPerDay : Z := 86400000.

Definition Day (t : Z) : Z := t / msPerDay.
Definition WeekDay (t : Z) : Z := (Day t + 4) mod 7.
Definition HourFromTime (t : Z) : Z := (t mod msPerDay) / msPerHour.
Definition MinFromTime (t : Z) : Z := (t mod msPerHour) / msPerMinute.
Definition msWithinMinute (t : Z) : Z := t mod msPerMinute.

(** [d.setDate(d.getDate() + k)]: the same local time, [k] days later. *)
Definition addDays (d : Date) (k : Z) : Date :=
  (fun t => t + k * msPerDay) <$> d.

(** [d.setHours(h, m, 0, 0)]: the day of [d] at [h:m:00.000]; hours and
    minutes out of range carry over, [NaN] invalidates the date. *)
Definition setHours (d : Date) (h m : jsnum) : Date :=
  match d, h, m with
  | Some t, Some hv, Some mv =>
      Some (Day t * msPerDay + hv * msPerHour + mv * msPerMinute)
  | _, _, _ => None
  end.

(** [d.getDay()]. *)
Definition getDay (d : Date) : jsnum := WeekDay <$> d.

(** [d > now] for a valid [now]. *)
Definition after (now : Z) (d : Date) : bool :=
  match d with Some t => now <? t | None => false end.

(** *** Loops *)

Inductive Step (S : Type) : Type :=
  | Continue (s : S)
  | Break (s : S).
Arguments Continue {S} s.
Arguments Break {S} s.

(** [for (const x of xs) body], where the body may [break]. *)
Fixpoint forOf {A S} (xs : list A) (body : A -> S -> Step S) (s : S) : S :=
  match xs with
  | [] => s
  | x :: xs' =>
      match body x s with
      | Continue s' => forOf xs' body s'
      | Break s' => s'
      end
  end.

(** [for (let i = from; i < from + n && guard; i += 1) body]. *)
Fixpoint forUpTo {S} (n : nat) (from : Z) (guard : S -> bool)
    (body : Z -> S -> S) (s : S) : S :=
  match n with
  | O => s
  | S n' => if guard s then forUpTo n' (from + 1) guard body (body from s) else s
  end.

(** [for (let h = from; h <= upto; h += step) body], where the body may
    [break].  The loop need not terminate (a negative step), so it runs on
    fuel and answers [None] when the fuel is exhausted.  [h] and [step] are
    whole numbers, as every number here: a step with a fraction (1.5), and a
    step too small to change [h] in floating point, are not covered, and the
    properties of the interval branch are stated for whole steps. *)
Fixpoint forStep {S} (fuel : nat) (h : jsnum) (upto : jsnum) (step : Z)
    (body : jsnum -> S -> Step S) (s : S) : option S :=
  match fuel with
  | O => None
  | S fuel' =>
      if le h upto then
        match body h s with
        | Continue s' => forStep fuel' (add h (Some step)) upto step body s'
        | Break s' => Some s'
        end
      else Some s
  end.

(** Stable sort with a JavaScript comparator ([cmp a b <= 0] keeps [a]
    before [b]); [Array.prototype.sort] is stable, so on a consistent
    comparator its result is the one computed here. *)
Fixpoint insertBy {A} (cmp : A -> A -> Z) (x : A) (l : list A) : list A :=
  match l with
  | [] => [x]
  | y :: l' => if cmp x y <=? 0 then x :: l else y :: insertBy cmp x l'
  end.

Fixpoint sortBy {A} (cmp : A -> A -> Z) (l : list A) : list A :=
  match l with
  | [] => []
  | x :: l' => insertBy cmp x (sortBy cmp l')
  end.

End JS.

Import JS.

(** ** Data model *)

Inductive TriggerMode := scheduled | crontab_mode | quota_reset.
Inductive RepeatMode := daily | weekly | interval.

(** [ScheduleConfig].  A field that the code reads defensively ([?.], [||],
    [typeof]) is an [option]: [None] is an absent or [undefined] property.
    For [intervalHours], [None] also stands for [NaN], which every use
    treats like [undefined]; a present [intervalHours] is a whole number of
    hours. *)
Record ScheduleConfig := {
  repeatMode : RepeatMode;
  dailyTimes : option (list string);
  weeklyDays : option (list Z);
  weeklyTimes : option (list string);
  intervalHours : option Z;
  intervalStartTime : option string;
  intervalEndTime : option string;
  selectedModels : list string;
  selectedAccounts : list string;
  crontab : option string;
  wakeOnReset : option bool;
  customPrompt : option string;
  maxOutputTokens : option Z;
  timeWindowEnabled : option bool;
  timeWindowStart : option string;
  timeWindowEnd : option string;
  fallbackTimes : option (list string)
}.

Record WakeupTask := {
  task_id : string;
  task_name : string;
  enabled : bool;
  createdAt : Z;
  lastRunAt : option Z;
  schedule : ScheduleConfig
}.

Definition MAX_HISTORY_ITEMS : nat := 100.
Definition DEFAULT_PROMPT : string := "hi".

(** ** Schedule normalisation *)

(** [xs?.length ? xs : d]. *)
Definition nonEmptyOr {A} (xs : option (list A)) (d : list A) : list A :=
  match xs with
  | Some (x :: l) => x :: l
  | _ => d
  end.

(** [s || d] on strings: the empty string is falsy. *)
Definition stringOr (s : option string) (d : string) : string :=
  match s with
  | Some (String a r) => String a r
  | _ => d
  end.

Definition normalizeSchedule (schedule : ScheduleConfig) : ScheduleConfig :=
  let dailyTimes' := nonEmptyOr (dailyTimes schedule) ["08:00"%string] in
  let weeklyDays' := nonEmptyOr (weeklyDays schedule) [1; 2; 3; 4; 5] in
  let weeklyTimes' := nonEmptyOr (weeklyTimes schedule) ["08:00"%string] in
  let intervalHours' :=
    match intervalHours schedule with
    | Some n => if (negb (n =? 0)) && (0 <? n) then n else 4
    | None => 4
    end in
  let intervalStartTime' := stringOr (intervalStartTime schedule) "07:00" in
  let intervalEndTime' := stringOr (intervalEndTime schedule) "22:00" in
  let maxOutputTokens' :=
    match maxOutputTokens schedule with Some n => n | None => 0 end in
  let fallbackTimes' := nonEmptyOr (fallbackTimes schedule) ["07:00"%string] in
  {| repeatMode := repeatMode schedule;
     dailyTimes := Some dailyTimes';
     weeklyDays := Some weeklyDays';
     weeklyTimes := Some weeklyTimes';
     intervalHours := Some intervalHours';
     intervalStartTime := Some intervalStartTime';
     intervalEndTime := Some intervalEndTime';
     selectedModels := selectedModels schedule;
     selectedAccounts := selectedAccounts schedule;
     crontab := crontab schedule;
     wakeOnReset := wakeOnReset schedule;
     customPrompt := customPrompt schedule;
     maxOutputTokens := Some maxOutputTokens';
     timeWindowEnabled := timeWindowEnabled schedule;
     timeWindowStart := timeWindowStart schedule;
     timeWindowEnd := timeWindowEnd schedule;
     fallbackTimes := Some fallbackTimes' |}.

(** ** Recurrence calculator *)

Section NextRuns.

Variable now : Z.
Variable count : nat.

(** The body shared by every loop:
    [if (date > now) { results.push(date); if (results.length >= count) break; }] *)
Definition pushIfAfter (date : Date) (results : list Z) : Step (list Z) :=
  match date with
  | Some t =>
      if now <? t then
        let results' := results ++ [t] in
        if (count <=? length results')%nat then Break results'
        else Continue results'
      else Continue results
  | None => Continue results
  end.

(** The guard [results.length < count] of the loops over days. *)
Definition roomLeft (results : list Z) : bool := (length results <? count)%nat.

(** [new Date(now)], moved [dayOffset] days ahead and set to [time]. *)
Definition dateAt (dayOffset : Z) (time : string) : Date :=
  let hm := map Number (split ":" time) in
  setHours (addDays (Some now) dayOffset) (numAt hm 0) (numAt hm 1).

Definition dailyRuns (times : list string) : list Z :=
  forUpTo 7 0 roomLeft
    (fun dayOffset results =>
       forOf (sortBy compareStrings times)
         (fun time => pushIfAfter (dateAt dayOffset time)) results)
    [].

Definition weeklyRuns (days : list Z) (times : list string) : list Z :=
  forUpTo 14 0 roomLeft
    (fun dayOffset results =>
       let date := addDays (Some now) dayOffset in
       match getDay date with
       | Some dayOfWeek =>
           if bool_decide (dayOfWeek ∈ days) then
             forOf (sortBy compareStrings times)
               (fun time =>
                  let hm := map Number (split ":" time) in
                  pushIfAfter (setHours date (numAt hm 0) (numAt hm 1)))
               results
           else results
       | None => results
       end)
    [].

(** The interval branch walks the hours with a step that may fail to
    advance, hence the fuel. *)
Fixpoint intervalDays (fuel : nat) (n : nat) (dayOffset : Z)
    (startH startM endH : jsnum) (step : Z) (results : list Z)
    : option (list Z) :=
  match n with
  | O => Some results
  | S n' =>
      if roomLeft results then
        match forStep fuel startH endH step
                (fun h =>
                   pushIfAfter (setHours (addDays (Some now) dayOffset) h startM))
                results with
        | Some results' =>
            intervalDays fuel n' (dayOffset + 1) startH startM endH step results'
        | None => None
        end
      else Some results
  end.

Definition intervalRuns (fuel : nat) (config : ScheduleConfig)
    : option (list Z) :=
  let hm := map Number (split ":" (stringOr (intervalStartTime config) "07:00")) in
  let startH := numAt hm 0 in
  let startM := numAt hm 1 in
  let endH :=
    match intervalEndTime config with
    | Some (String a r) =>
        parseInt (default EmptyString (split ":" (String a r) !! 0%nat))
    | _ => Some 22
    end in
  let step := orDefault (intervalHours config) 4 in
  intervalDays fuel 7 0 startH startM endH step [].

(** [calculateNextRuns(config, count)], with the clock reading [now] made a
    parameter.  [None] is a run that exhausts the fuel of the interval loop. *)
Definition calculateNextRuns (fuel : nat) (config : ScheduleConfig)
    : option (list Z) :=
  take count <$>
    match repeatMode config, dailyTimes config, weeklyDays config,
          weeklyTimes config with
    | daily, Some (t :: ts), _, _ => Some (dailyRuns (t :: ts))
    | weekly, _, Some (d :: ds), Some (t :: ts) =>
        Some (weeklyRuns (d :: ds) (t :: ts))
    | interval, _, _, _ => intervalRuns fuel config
    | _, _, _, _ => Some []
    end.

(** ** Cron expression evaluator *)

Definition parseField (field : string) (max : Z) : list jsnum :=
  if String.eqb field "*" then arrayFrom (Some (max + 1)) (fun i => Some i)
  else if includes "," field then map Number (split "," field)
  else if includes "-" field then
    let se := map Number (split "-" field) in
    let start := numAt se 0 in
    let end_ := numAt se 1 in
    arrayFrom (add (sub end_ start) (Some 1)) (fun i => add start (Some i))
  else if includes "/" field then
    let step := Number (default EmptyString (split "/" field !! 1%nat)) in
    let stepValue := orDefault step 1 in
    arrayFrom (Some (ceilDiv (max + 1) stepValue)) (fun i => Some (i * stepValue))
  else [Number field].

Definition calculateCrontabNextRuns (crontab : string) : list Z :=
  let parts := splitWhite (trim crontab) in
  if (length parts <? 5)%nat then []
  else
    let minute := default EmptyString (parts !! 0%nat) in
    let hour := default EmptyString (parts !! 1%nat) in
    let minutes := parseField minute 59 in
    let hours := parseField hour 23 in
    forUpTo 7 0 roomLeft
      (fun dayOffset results =>
         forOf hours
           (fun h results =>
              let results' :=
                forOf minutes
                  (fun m =>
                     pushIfAfter (setHours (addDays (Some now) dayOffset) h m))
                  results in
              if (count <=? length results')%nat then Break results'
              else Continue results')
           results)
      [].

End NextRuns.

(** ** Trigger mode *)

(** Truthiness of an optional boolean and of an optional string. *)
Definition truthyBool (b : option bool) : bool := default false b.
Definition truthyString (s : option string) : bool :=
  match s with Some (String _ _) => true | _ => false end.

Definition getTriggerMode (task : WakeupTask) : TriggerMode :=
  if truthyBool (wakeOnReset (schedule task)) then quota_reset
  else if truthyString (crontab (schedule task)) then crontab_mode
  else scheduled.

(** ** History log *)

Inductive HistoryTriggerType := trigger_manual | trigger_auto.
Inductive HistoryTriggerSource :=
  source_scheduled | source_crontab | source_quota_reset | source_manual.

Record WakeupHistoryRecord := {
  record_id : string;
  timestamp : Z;
  triggerType : HistoryTriggerType;
  triggerSource : HistoryTriggerSource;
  taskName : option string;
  accountEmail : string;
  modelId : string;
  prompt : option string;
  success : bool;
  message : option string;
  duration : option Z
}.

(** An element of the array the backend answers to [codexWakeupLoadHistory]:
    a falsy element, an object whose [timestamp] is not a number, or a
    record. *)
Inductive StoredItem :=
  | FalsyItem
  | UntimedItem
  | TimedItem (r : WakeupHistoryRecord).

Definition timedRecord (item : StoredItem) : option WakeupHistoryRecord :=
  match item with TimedItem r => Some r | _ => None end.

(** The comparator [(a, b) => b.timestamp - a.timestamp]. *)
Definition newestFirst (a b : WakeupHistoryRecord) : Z :=
  timestamp b - timestamp a.

(** [loadHistory()]: [response] is what the backend call settled to, [None]
    when it failed or did not answer an array. *)
Definition loadHistory (response : option (list StoredItem))
    : list WakeupHistoryRecord :=
  match response with
  | Some records =>
      take MAX_HISTORY_ITEMS (sortBy newestFirst (omap timedRecord records))
  | None => []
  end.

(** [appendHistoryRecords(records)] as a function of the previous state. *)
Definition appendHistoryRecords (records prev : list WakeupHistoryRecord)
    : list WakeupHistoryRecord :=
  match records with
  | [] => prev
  | _ :: _ => take MAX_HISTORY_ITEMS (sortBy newestFirst (records ++ prev))
  end.

(** The operations that set the [historyRecords] state. *)
Inductive HistoryOp :=
  | OpLoad (response : option (list StoredItem))
  | OpAppend (records : list WakeupHistoryRecord)
  | OpClear.

Definition historyStep (state : list WakeupHistoryRecord) (op : HistoryOp)
    : list WakeupHistoryRecord :=
  match op with
  | OpLoad response => loadHistory response
  | OpAppend records => appendHistoryRecords records state
  | OpClear => []
  end.

Definition runHistory (ops : list HistoryOp) : list WakeupHistoryRecord :=
  foldl historyStep [] ops.

(** ** Fan-out executor *)

Record CodexAccount := { account_id : string; account_email : string }.

Record CodexWakeupInvokeResult := {
  reply : string;
  promptTokens : option Z;
  completionTokens : option Z;
  totalTokens : option Z;
  traceId : option string;
  responseId : option string;
  durationMs : option Z
}.

(** A thrown value: an [Error], a string, or anything else (kept as the
    text [formatErrorMessage] gives for it). *)
Inductive Thrown :=
  | ErrorObject (msg : string)
  | ThrownString (s : string)
  | ThrownValue (text : string).

Definition formatErrorMessage (error : Thrown) : string :=
  match error with
  | ErrorObject msg => msg
  | ThrownString s => s
  | ThrownValue text => text
  end.

(** What [Promise.allSettled] reports for one promise. *)
Inductive Settled :=
  | fulfilled (value : CodexWakeupInvokeResult)
  | rejected (reason : Thrown).

Definition isRejected (r : Settled) : bool :=
  match r with rejected _ => true | fulfilled _ => false end.

Record Action := {
  action_promise : Settled;
  action_accountEmail : string;
  action_modelId : string;
  startedAt : Z
}.

Definition normalizeMaxOutputTokens (value : option Z) (fallback : option Z) : Z :=
  match value with
  | Some v =>
      if 0 <? v then v
      else match fallback with
           | Some f => if 0 <=? f then f else 0
           | None => 0
           end
  | None =>
      match fallback with
      | Some f => if 0 <=? f then f else 0
      | None => 0
      end
  end.

(** The page state read by [runImmediateTest]. *)
Record TestState := {
  testing : bool;
  testSelectedModels : list string;
  testSelectedAccounts : list string;
  testCustomPrompt : string;
  testMaxOutputTokens : option Z;
  accounts : list CodexAccount;
  tasksRef : list WakeupTask;
  historyRecords : list WakeupHistoryRecord
}.

Record TestRun := {
  actions : list Action;
  historyItems : list WakeupHistoryRecord;
  failed : nat;
  nextHistoryRecords : list WakeupHistoryRecord
}.

Section FanOut.

(** The collaborators: the remote call, of which only the settled outcome of
    each dispatched call matters (the [n]-th call made), the clock as the
    sequence of its successive readings, the generator of identifiers and
    the text formatting. *)
Variable codexTriggerWakeup :
  nat -> string -> string -> option string -> Z -> Settled.
Variable clock : nat -> Z.
Variable randomUUID : nat -> string.
Variable formatWakeupMessage : string -> CodexWakeupInvokeResult -> Z -> string.
Variable runTestLabel : string.

(** [accountByEmail]: the last account of a lower-cased email wins. *)
Definition accountByEmail (accs : list CodexAccount) : gmap string CodexAccount :=
  foldl (fun m account => <[toLowerCase (account_email account) := account]> m)
        ∅ accs.

Definition resolveAccounts (accs : list CodexAccount) (emails : list string)
    : list CodexAccount :=
  omap (fun email => accountByEmail accs !! toLowerCase email) emails.

(** The two nested [forEach] that build [actions]; [n] counts the calls
    already dispatched, which is also the number of clock readings taken. *)
Fixpoint dispatchModels (n : nat) (account : CodexAccount) (models : list string)
    (trimmedPrompt : option string) (resolvedMaxTokens : Z) : list Action :=
  match models with
  | [] => []
  | model :: models' =>
      {| action_accountEmail := account_email account;
         action_modelId := model;
         startedAt := clock n;
         action_promise :=
           codexTriggerWakeup n (account_id account) model trimmedPrompt
             resolvedMaxTokens |}
      :: dispatchModels (S n) account models' trimmedPrompt resolvedMaxTokens
  end.

Fixpoint dispatchAccounts (n : nat) (selected : list CodexAccount)
    (models : list string) (trimmedPrompt : option string)
    (resolvedMaxTokens : Z) : list Action :=
  match selected with
  | [] => []
  | account :: selected' =>
      dispatchModels n account models trimmedPrompt resolvedMaxTokens
      ++ dispatchAccounts (n + length models)%nat selected' models
           trimmedPrompt resolvedMaxTokens
  end.

(** The callback of [results.map((result, index) => ...)]; [base] is the
    number of clock readings taken before the map starts. *)
Definition historyItem (base : nat) (timestamp : Z) (promptText : string)
    (index : nat) (action : Action) : WakeupHistoryRecord :=
  let elapsed := clock (base + index)%nat - startedAt action in
  let duration' :=
    match action_promise action with
    | fulfilled value => default elapsed (durationMs value)
    | rejected _ => elapsed
    end in
  {| record_id := randomUUID index;
     timestamp := timestamp;
     triggerType := trigger_manual;
     triggerSource := source_manual;
     taskName := Some runTestLabel;
     accountEmail := action_accountEmail action;
     modelId := action_modelId action;
     prompt := Some promptText;
     success := negb (isRejected (action_promise action));
     message :=
       Some match action_promise action with
            | fulfilled value =>
                formatWakeupMessage (action_modelId action) value duration'
            | rejected reason => formatErrorMessage reason
            end;
     duration := Some duration' |}.

(** [trimmedPrompt] and [resolvedMaxTokens] of [runImmediateTest]. *)
Definition trimmedPromptOf (st : TestState) : option string :=
  let trimmed := trim (testCustomPrompt st) in
  if isEmpty trimmed then None else Some trimmed.

Definition resolvedMaxTokensOf (st : TestState) : Z :=
  let fallbackTokens :=
    match List.find enabled (tasksRef st) with
    | Some task => Some (default 0 (maxOutputTokens (schedule task)))
    | None => Some 0
    end in
  normalizeMaxOutputTokens (testMaxOutputTokens st) fallbackTokens.

(** [runImmediateTest()]: [None] when a guard returns before any call. *)
Definition runImmediateTest (st : TestState) : option TestRun :=
  if testing st then None
  else
    let models := testSelectedModels st in
    if bool_decide (models = []) then None
    else
      let selected := resolveAccounts (accounts st) (testSelectedAccounts st) in
      if bool_decide (selected = []) then None
      else
        let trimmedPrompt := trimmedPromptOf st in
        let promptText := default DEFAULT_PROMPT trimmedPrompt in
        let resolvedMaxTokens := resolvedMaxTokensOf st in
        let acts :=
          dispatchAccounts 0 selected models trimmedPrompt resolvedMaxTokens in
        let results := map action_promise acts in
        let timestamp := clock (length acts) in
        let items :=
          imap (historyItem (S (length acts)) timestamp promptText) acts in
        Some {| actions := acts;
                historyItems := items;
                failed := length (List.filter isRejected results);
                nextHistoryRecords :=
                  appendHistoryRecords items (historyRecords st) |}.

End FanOut.

(** ** Task registry: selection repair and save *)

Definition DEFAULT_SCHEDULE : ScheduleConfig :=
  {| repeatMode := daily;
     dailyTimes := Some ["08:00"%string];
     weeklyDays := Some [1; 2; 3; 4; 5];
     weeklyTimes := Some ["08:00"%string];
     intervalHours := Some 4;
     intervalStartTime := Some "07:00"%string;
     intervalEndTime := Some "22:00"%string;
     selectedModels := ["codex-hourly"%string];
     selectedAccounts := [];
     crontab := None;
     wakeOnReset := None;
     customPrompt := None;
     maxOutputTokens := Some 0;
     timeWindowEnabled := None;
     timeWindowStart := None;
     timeWindowEnd := None;
     fallbackTimes := None |}.

(** A property of [over] wins over the one of [base] when it is present. *)
Definition present {A} (over base : option A) : option A :=
  match over with Some v => Some v | None => base end.

(** [{ ...base, ...over }] on schedules. *)
Definition spread (base over : ScheduleConfig) : ScheduleConfig :=
  {| repeatMode := repeatMode over;
     dailyTimes := present (dailyTimes over) (dailyTimes base);
     weeklyDays := present (weeklyDays over) (weeklyDays base);
     weeklyTimes := present (weeklyTimes over) (weeklyTimes base);
     intervalHours := present (intervalHours over) (intervalHours base);
     intervalStartTime := present (intervalStartTime over) (intervalStartTime base);
     intervalEndTime := present (intervalEndTime over) (intervalEndTime base);
     selectedModels := selectedModels over;
     selectedAccounts := selectedAccounts over;
     crontab := present (crontab over) (crontab base);
     wakeOnReset := present (wakeOnReset over) (wakeOnReset base);
     customPrompt := present (customPrompt over) (customPrompt base);
     maxOutputTokens := present (maxOutputTokens over) (maxOutputTokens base);
     timeWindowEnabled := present (timeWindowEnabled over) (timeWindowEnabled base);
     timeWindowStart := present (timeWindowStart over) (timeWindowStart base);
     timeWindowEnd := present (timeWindowEnd over) (timeWindowEnd base);
     fallbackTimes := present (fallbackTimes over) (fallbackTimes base) |}.

Definition withSelectedAccounts (s : ScheduleConfig) (l : list string) :=
  {| repeatMode := repeatMode s;
     dailyTimes := dailyTimes s;
     weeklyDays := weeklyDays s;
     weeklyTimes := weeklyTimes s;
     intervalHours := intervalHours s;
     intervalStartTime := intervalStartTime s;
     intervalEndTime := intervalEndTime s;
     selectedModels := selectedModels s;
     selectedAccounts := l;
     crontab := crontab s;
     wakeOnReset := wakeOnReset s;
     customPrompt := customPrompt s;
     maxOutputTokens := maxOutputTokens s;
     timeWindowEnabled := timeWindowEnabled s;
     timeWindowStart := timeWindowStart s;
     timeWindowEnd := timeWindowEnd s;
     fallbackTimes := fallbackTimes s |}.

Definition withSelectedModels (s : ScheduleConfig) (l : list string) :=
  {| repeatMode := repeatMode s;
     dailyTimes := dailyTimes s;
     weeklyDays := weeklyDays s;
     weeklyTimes := weeklyTimes s;
     intervalHours := intervalHours s;
     intervalStartTime := intervalStartTime s;
     intervalEndTime := intervalEndTime s;
     selectedModels := l;
     selectedAccounts := selectedAccounts s;
     crontab := crontab s;
     wakeOnReset := wakeOnReset s;
     customPrompt := customPrompt s;
     maxOutputTokens := maxOutputTokens s;
     timeWindowEnabled := timeWindowEnabled s;
     timeWindowStart := timeWindowStart s;
     timeWindowEnd := timeWindowEnd s;
     fallbackTimes := fallbackTimes s |}.

Definition withSchedule (task : WakeupTask) (s : ScheduleConfig) : WakeupTask :=
  {| task_id := task_id task;
     task_name := task_name task;
     enabled := enabled task;
     createdAt := createdAt task;
     lastRunAt := lastRunAt task;
     schedule := s |}.

(** The selection the repair proposes: the entries still available, or the
    first available one when none is left.  [available] is not empty. *)
Definition repairedSelection (available selected : list string) : list string :=
  match List.filter (fun x => bool_decide (x ∈ available)) selected with
  | [] => match available with first :: _ => [first] | [] => [] end
  | kept => kept
  end.

(** The callback of [tasks.map] in the repair effect, with the value it
    gives to [changed]. *)
Definition repairTask (accountEmails modelIds : list string)
    (changed : bool) (task : WakeupTask) : WakeupTask * bool :=
  let s0 := normalizeSchedule (spread DEFAULT_SCHEDULE (schedule task)) in
  let '(s1, changed1) :=
    if bool_decide (accountEmails = []) then (s0, changed)
    else
      let nextAccounts := repairedSelection accountEmails (selectedAccounts s0) in
      if String.eqb (join "|" nextAccounts) (join "|" (selectedAccounts s0))
      then (s0, changed)
      else (withSelectedAccounts s0 nextAccounts, true) in
  let '(s2, changed2) :=
    if bool_decide (modelIds = []) then (s1, changed1)
    else
      let nextModels := repairedSelection modelIds (selectedModels s1) in
      if String.eqb (join "|" nextModels) (join "|" (selectedModels s1))
      then (s1, changed1)
      else (withSelectedModels s1 nextModels, true) in
  (withSchedule task s2, changed2).

Fixpoint repairAll (accountEmails modelIds : list string) (changed : bool)
    (tasks : list WakeupTask) : list WakeupTask * bool :=
  match tasks with
  | [] => ([], changed)
  | task :: tasks' =>
      let '(task', changed') := repairTask accountEmails modelIds changed task in
      let '(rest, changed'') := repairAll accountEmails modelIds changed' tasks' in
      (task' :: rest, changed'')
  end.

(** The selection-repair effect: the task set after the effect has run. *)
Definition repairSelections (tasks : list WakeupTask)
    (accountEmails modelIds : list string) : list WakeupTask :=
  if bool_decide (tasks = []) then tasks
  else if bool_decide (accountEmails = []) && bool_decide (modelIds = [])
  then tasks
  else
    let '(nextTasks, changed) := repairAll accountEmails modelIds false tasks in
    if changed then nextTasks else tasks.

(** The form state read by [handleSaveTask]. *)
Record TaskForm := {
  editingTaskId : option string;
  formName : string;
  formEnabled : bool;
  formTriggerMode : TriggerMode;
  formRepeatMode : RepeatMode;
  formDailyTimes : list string;
  formWeeklyDays : list Z;
  formWeeklyTimes : list string;
  formIntervalHours : option Z;
  formIntervalStart : string;
  formIntervalEnd : string;
  formSelectedModels : list string;
  formSelectedAccounts : list string;
  formCustomPrompt : string;
  formMaxOutputTokens : option Z;
  formCrontab : string;
  formTimeWindowEnabled : bool;
  formTimeWindowStart : string;
  formTimeWindowEnd : string;
  formFallbackTimes : list string
}.

Definition nonEmptyString (s : string) : option string :=
  if isEmpty s then None else Some s.

Definition isCrontabMode (m : TriggerMode) : bool :=
  match m with crontab_mode => true | _ => false end.
Definition isQuotaResetMode (m : TriggerMode) : bool :=
  match m with quota_reset => true | _ => false end.

(** The schedule [handleSaveTask] builds from the form. *)
Definition formSchedule (f : TaskForm) : ScheduleConfig :=
  let windowed := isQuotaResetMode (formTriggerMode f) && formTimeWindowEnabled f in
  normalizeSchedule
    (spread DEFAULT_SCHEDULE
       {| repeatMode := formRepeatMode f;
          dailyTimes := Some (formDailyTimes f);
          weeklyDays := Some (formWeeklyDays f);
          weeklyTimes := Some (formWeeklyTimes f);
          intervalHours := formIntervalHours f;
          intervalStartTime := Some (formIntervalStart f);
          intervalEndTime := Some (formIntervalEnd f);
          selectedModels := formSelectedModels f;
          selectedAccounts := formSelectedAccounts f;
          crontab :=
            if isCrontabMode (formTriggerMode f) then Some (trim (formCrontab f))
            else None;
          wakeOnReset := Some (isQuotaResetMode (formTriggerMode f));
          customPrompt := nonEmptyString (trim (formCustomPrompt f));
          maxOutputTokens :=
            Some (normalizeMaxOutputTokens (formMaxOutputTokens f) (Some 0));
          timeWindowEnabled :=
            Some (if isQuotaResetMode (formTriggerMode f)
                  then formTimeWindowEnabled f else false);
          timeWindowStart :=
            if windowed then Some (formTimeWindowStart f) else None;
          timeWindowEnd :=
            if windowed then Some (formTimeWindowEnd f) else None;
          fallbackTimes :=
            if windowed then Some (formFallbackTimes f) else None |}).

Definition findTask (id : string) (tasks : list WakeupTask) : option WakeupTask :=
  List.find (fun task => String.eqb (task_id task) id) tasks.

(** [handleSaveTask()]: the saved task and the next task set, or [None] when
    a validation returns early.  [now] is the clock reading and [freshId] the
    identifier generated for a new task. *)
Definition handleSaveTask (f : TaskForm) (now : Z) (freshId : string)
    (tasks : list WakeupTask) : option (WakeupTask * list WakeupTask) :=
  let name := trim (formName f) in
  if isEmpty name then None
  else if bool_decide (formSelectedAccounts f = []) then None
  else if bool_decide (formSelectedModels f = []) then None
  else if isCrontabMode (formTriggerMode f) && isEmpty (trim (formCrontab f))
  then None
  else
    let editing := editingTaskId f ≫= nonEmptyString in
    let baseTask :=
      {| task_id := default freshId editing;
         task_name := name;
         enabled := formEnabled f;
         createdAt :=
           match editing with
           | Some id =>
               match findTask id tasks with
               | Some task => if createdAt task =? 0 then now else createdAt task
               | None => now
               end
           | None => now
           end;
         lastRunAt :=
           match editing with
           | Some id => findTask id tasks ≫= lastRunAt
           | None => None
           end;
         schedule := formSchedule f |} in
    let exists_ :=
      existsb (fun task => String.eqb (task_id task) (task_id baseTask)) tasks in
    Some (baseTask,
          if exists_
          then map (fun task =>
                      if String.eqb (task_id task) (task_id baseTask)
                      then baseTask else task) tasks
          else baseTask :: tasks).

(** ** Legacy storage keys *)

Definition readStorageWithLegacy (key legacyKey : string)
    (localStorage : gmap string string) : option string * gmap string string :=
  match localStorage !! key with
  | Some value => (Some value, localStorage)
  | None =>
      match localStorage !! legacyKey with
      | Some legacyValue =>
          (Some legacyValue, delete legacyKey (<[key := legacyValue]> localStorage))
      | None => (None, localStorage)
      end
  end.

Definition writeStorageAndCleanupLegacy (key legacyKey value : string)
    (localStorage : gmap string string) : gmap string string :=
  let stored := <[key := value]> localStorage in
  if bool_decide (legacyKey ≠ key) then delete legacyKey stored else stored.

Section InstanceStore.

(** [createInstanceStore(service, cacheKey, legacyCacheKeys)]: the cache
    helpers.  [parseArray raw] is [JSON.parse(raw)] when that is an array and
    [None] when it throws or gives something else. *)
Context {InstanceProfile : Type}.
Variable parseArray : string -> option (list InstanceProfile).
Variable stringify : list InstanceProfile -> string.
Variable cacheKey : string.
Variable legacyCacheKeys : list string.

Definition parseCachedInstances (raw : option string)
    : option (list InstanceProfile) :=
  match raw with
  | Some (String a r) => Some (default [] (parseArray (String a r)))
  | _ => None
  end.

Fixpoint migrateLegacy (legacyKeys : list string)
    (localStorage : gmap string string)
    : list InstanceProfile * gmap string string :=
  match legacyKeys with
  | [] => ([], localStorage)
  | legacyKey :: legacyKeys' =>
      let legacyRaw := localStorage !! legacyKey in
      match parseCachedInstances legacyRaw with
      | Some legacyParsed =>
          (legacyParsed,
           delete legacyKey
             (<[cacheKey := default EmptyString legacyRaw]> localStorage))
      | None => migrateLegacy legacyKeys' localStorage
      end
  end.

Definition loadCachedInstances (localStorage : gmap string string)
    : list InstanceProfile * gmap string string :=
  match parseCachedInstances (localStorage !! cacheKey) with
  | Some current => (current, localStorage)
  | None => migrateLegacy legacyCacheKeys localStorage
  end.

(** The body of the loop of [persistInstancesCache]. *)
Definition removeLegacy (store : gmap string string) (legacyKey : string)
    : gmap string string :=
  if bool_decide (legacyKey ≠ cacheKey) then delete legacyKey store else store.

(** [persistInstancesCache(instances)] when no call of the storage throws:
    the body of its [try].  A throwing storage, which the [catch] ignores, is
    the subject of [tryPersistInstancesCache] below. *)
Definition persistInstancesCache (instances : list InstanceProfile)
    (localStorage : gmap string string) : gmap string string :=
  foldl removeLegacy (<[cacheKey := stringify instances]> localStorage)
        legacyCacheKeys.

End InstanceStore.

(** ** Time input of the form *)

(** [String(n)] for an integer. *)
Definition numberToString (n : Z) : string := NilZero.string_of_int (Z.to_int n).

Fixpoint repeatChar (n : nat) (c : ascii) : string :=
  match n with
  | O => EmptyString
  | S n' => String c (repeatChar n' c)
  end.

(** [s.padStart(n, c)] for a one-character filler. *)
Definition padStart (n : nat) (c : ascii) (s : string) : string :=
  (repeatChar (n - String.length s) c ++ s)%string.

(** [s.match(/^(\d{1,2}):(\d{2})$/)]: the two groups. *)
Definition matchTime (s : string) : option (string * string) :=
  match s with
  | String a (String ":" (String c (String d EmptyString))) =>
      if isDigit a && isDigit c && isDigit d
      then Some (String a EmptyString, String c (String d EmptyString))
      else None
  | String a (String b (String ":" (String c (String d EmptyString)))) =>
      if isDigit a && isDigit b && isDigit c && isDigit d
      then Some (String a (String b EmptyString),
                 String c (String d EmptyString))
      else None
  | _ => None
  end.

Definition normalizeTimeInput (value : string) : option string :=
  let trimmed := trim value in
  if isEmpty trimmed then None
  else
    match matchTime trimmed with
    | None => None
    | Some (hourText, minuteText) =>
        match parseInt hourText, parseInt minuteText with
        | Some hour, Some minute =>
            if (hour <? 0) || (23 <? hour) || (minute <? 0) || (59 <? minute)
            then None
            else Some (padStart 2 "0" (numberToString hour) ++ ":"
                       ++ padStart 2 "0" (numberToString minute))%string
        | _, _ => None
        end
    end.

(** ** Multi-selects of the forms *)

(** [toggleListValue(list, value, { allowEmpty })]. *)
Definition toggleListValue (list_ : list string) (value : string)
    (allowEmpty : bool) : list string :=
  if bool_decide (value ∈ list_) then
    let next := List.filter (fun item => negb (String.eqb item value)) list_ in
    if bool_decide (next = []) && negb allowEmpty then list_ else next
  else list_ ++ [value].

(** The state update of [toggleTimeSelection]:
    [prev => toggleListValue(prev, time).sort()]. *)
Definition toggleTime (time : string) (prev : list string) : list string :=
  sortBy compareStrings (toggleListValue prev time false).

(** [Array.from(new Set(xs))]: the first occurrence of each value, in
    order. *)
Fixpoint uniqueFrom (seen xs : list string) : list string :=
  match xs with
  | [] => []
  | x :: xs' =>
      if bool_decide (x ∈ seen) then uniqueFrom seen xs'
      else x :: uniqueFrom (x :: seen) xs'
  end.

Definition arrayFromSet (xs : list string) : list string := uniqueFrom [] xs.

(** The state update of [addCustomTime(value, mode)]; an input that does not
    normalise leaves the state as it is. *)
Definition addTime (value : string) (prev : list string) : list string :=
  match normalizeTimeInput value with
  | Some normalized => sortBy compareStrings (arrayFromSet (prev ++ [normalized]))
  | None => prev
  end.

Inductive TimeMode := mode_daily | mode_weekly | mode_fallback.

(** The state update of [toggleDaySelection(day)]. *)
Definition toggleDaySelection (day : Z) (prev : list Z) : list Z :=
  if bool_decide (day ∈ prev) then
    if (length prev <=? 1)%nat then prev
    else List.filter (fun item => negb (item =? day)) prev
  else prev ++ [day].

Inductive DayPreset := workdays | weekend | all_days.

(** [applyQuickDays(preset)]: the value given to [formWeeklyDays]. *)
Definition applyQuickDays (preset : DayPreset) : list Z :=
  match preset with
  | workdays => [1; 2; 3; 4; 5]
  | weekend => [0; 6]
  | all_days => [0; 1; 2; 3; 4; 5; 6]
  end.

(** ** Selections of the test dialog *)

(** The effect that keeps [testSelectedModels] within the offered models. *)
Definition repairTestModels (modelIds prev : list string) : list string :=
  match modelIds with
  | [] => []
  | first :: _ =>
      match List.filter (fun id => existsb (String.eqb id) modelIds) prev with
      | [] => [first]
      | next => next
      end
  end.

(** [currentAccount?.email || accountEmails[0] || ''], where [None] is no
    current account. *)
Definition activeAccountEmail (currentEmail : option string)
    (accountEmails : list string) : string :=
  match currentEmail with
  | Some (String a r) => String a r
  | _ => match accountEmails with
         | String a r :: _ => String a r
         | _ => EmptyString
         end
  end.

(** The effect that keeps [testSelectedAccounts] within the known accounts. *)
Definition repairTestAccounts (currentEmail : option string)
    (accountEmails prev : list string) : list string :=
  match accountEmails with
  | [] => []
  | first :: _ =>
      match List.filter (fun email => bool_decide (email ∈ accountEmails)) prev with
      | [] =>
          let active := activeAccountEmail currentEmail accountEmails in
          [if isEmpty active then first else active]
      | next => next
      end
  end.

(** ** Task registry: load, persist, delete, toggle, record a run *)

Definition normalizeTask (task : WakeupTask) : WakeupTask :=
  withSchedule task (normalizeSchedule (spread DEFAULT_SCHEDULE (schedule task))).

Definition WAKEUP_TASKS_KEY : string := "cockpit.codex.wakeup.tasks".
Definition WAKEUP_ENABLED_KEY : string := "cockpit.codex.wakeup.enabled".
Definition LEGACY_WAKEUP_TASKS_KEY : string := "agtools.codex.wakeup.tasks".
Definition LEGACY_WAKEUP_ENABLED_KEY : string := "agtools.codex.wakeup.enabled".

Section TaskStorage.

(** [parseJson raw] is [JSON.parse(raw)] read as an array of tasks, [None]
    when it throws or when mapping [normalizeTask] over it would throw;
    [stringifyTasks] is [JSON.stringify]. *)
Variable parseJson : string -> option (list WakeupTask).
Variable stringifyTasks : list WakeupTask -> string.

Definition parseTasks (raw : option string) : list WakeupTask :=
  match raw with
  | Some (String a r) =>
      match parseJson (String a r) with
      | Some parsed => map normalizeTask parsed
      | None => []
      end
  | _ => []
  end.

(** [loadTasks(defaultTaskName)]: the tasks and the storage it leaves;
    [freshId] and [now] are the identifier and the clock reading a default
    task would get. *)
Definition loadTasks (defaultTaskName freshId : string) (now : Z)
    (localStorage : gmap string string)
    : list WakeupTask * gmap string string :=
  let '(rawTasks, stored) :=
    readStorageWithLegacy WAKEUP_TASKS_KEY LEGACY_WAKEUP_TASKS_KEY localStorage in
  match rawTasks with
  | Some (String a r) => (parseTasks rawTasks, stored)
  | _ =>
      ([{| task_id := freshId;
           task_name := defaultTaskName;
           enabled := true;
           createdAt := now;
           lastRunAt := None;
           schedule := normalizeSchedule DEFAULT_SCHEDULE |}],
       stored)
  end.

(** The effect that runs on every change of [tasks]. *)
Definition persistTasks (tasks : list WakeupTask)
    (localStorage : gmap string string) : gmap string string :=
  writeStorageAndCleanupLegacy WAKEUP_TASKS_KEY LEGACY_WAKEUP_TASKS_KEY
    (stringifyTasks tasks) localStorage.

End TaskStorage.

(** [String(wakeupEnabled)]. *)
Definition boolToString (b : bool) : string := if b then "true" else "false".

(** The initial value of [wakeupEnabled] and the storage the read leaves. *)
Definition loadWakeupEnabled (localStorage : gmap string string)
    : bool * gmap string string :=
  let '(raw, stored) :=
    readStorageWithLegacy WAKEUP_ENABLED_KEY LEGACY_WAKEUP_ENABLED_KEY
      localStorage in
  (match raw with
   | Some (String a r) => String.eqb (String a r) "true"
   | _ => false
   end, stored).

Definition persistWakeupEnabled (wakeupEnabled : bool)
    (localStorage : gmap string string) : gmap string string :=
  writeStorageAndCleanupLegacy WAKEUP_ENABLED_KEY LEGACY_WAKEUP_ENABLED_KEY
    (boolToString wakeupEnabled) localStorage.

(** [handleDeleteTask(taskId)]; [confirmed] is the answer of the dialog,
    which is only asked when the task exists. *)
Definition handleDeleteTask (taskId : string) (confirmed : bool)
    (tasks : list WakeupTask) : list WakeupTask :=
  match findTask taskId tasks with
  | None => tasks
  | Some _ =>
      if confirmed
      then List.filter (fun item => negb (String.eqb (task_id item) taskId)) tasks
      else tasks
  end.

Definition withEnabled (task : WakeupTask) (b : bool) : WakeupTask :=
  {| task_id := task_id task;
     task_name := task_name task;
     enabled := b;
     createdAt := createdAt task;
     lastRunAt := lastRunAt task;
     schedule := schedule task |}.

Definition withLastRunAt (task : WakeupTask) (t : option Z) : WakeupTask :=
  {| task_id := task_id task;
     task_name := task_name task;
     enabled := enabled task;
     createdAt := createdAt task;
     lastRunAt := t;
     schedule := schedule task |}.

Definition handleToggleTask (taskId : string) (tasks : list WakeupTask)
    : list WakeupTask :=
  map (fun task =>
         if String.eqb (task_id task) taskId
         then withEnabled task (negb (enabled task)) else task)
      tasks.

(** The task update of the [codex-wakeup-task-result] listener, for an event
    that carries a detail. *)
Definition handleTaskResult (taskId : string) (ranAt : Z)
    (tasks : list WakeupTask) : list WakeupTask :=
  map (fun task =>
         if String.eqb (task_id task) taskId
         then withLastRunAt task (Some ranAt) else task)
      tasks.

(** ** The switch of the feature *)

Record WakeupSwitch := {
  wakeupEnabled : bool;
  showWakeupConfirm : bool
}.

Definition handleToggleWakeup (s : WakeupSwitch) : WakeupSwitch :=
  if negb (wakeupEnabled s)
  then {| wakeupEnabled := wakeupEnabled s; showWakeupConfirm := true |}
  else {| wakeupEnabled := false; showWakeupConfirm := showWakeupConfirm s |}.

Definition confirmEnableWakeup (s : WakeupSwitch) : WakeupSwitch :=
  {| wakeupEnabled := true; showWakeupConfirm := false |}.

Definition dismissWakeupConfirm (s : WakeupSwitch) : WakeupSwitch :=
  {| wakeupEnabled := wakeupEnabled s; showWakeupConfirm := false |}.

(** ** Labels of the next run *)

Definition WEEKDAY_KEYS : list string :=
  ["sun"; "mon"; "tue"; "wed"; "thu"; "fri"; "sat"]%string.

(** Which of the three texts [formatRunTime] chooses; the time of day and
    the translation are left to the caller. *)
Inductive RunLabel :=
  | LabelToday
  | LabelTomorrow
  | LabelWeekday (key : string).

Definition formatRunTime (date now : Z) : RunLabel :=
  if Day date =? Day now then LabelToday
  else if Day date =? Day now + 1 then LabelTomorrow
  else LabelWeekday
         (default "sun"%string (WEEKDAY_KEYS !! Z.to_nat (WeekDay date))).

Inductive NextRunLabel :=
  | NextRunNone
  | NextRunInvalidCrontab
  | NextRunAt (date : Z) (label : RunLabel).

(** [getNextRunLabel(task)]; [None] when the schedule computation exhausts
    its fuel. *)
Definition getNextRunLabel (now : Z) (fuel : nat) (task : WakeupTask)
    : option NextRunLabel :=
  match getTriggerMode task with
  | quota_reset => Some NextRunNone
  | crontab_mode =>
      let nextRuns :=
        calculateCrontabNextRuns now 1
          (stringOr (crontab (schedule task)) EmptyString) in
      if negb (truthyString (crontab (schedule task))) then Some NextRunNone
      else match nextRuns with
           | [] => Some NextRunInvalidCrontab
           | first :: _ => Some (NextRunAt first (formatRunTime first now))
           end
  | scheduled =>
      match calculateNextRuns now 1 fuel (schedule task) with
      | Some [] => Some NextRunNone
      | Some (first :: _) => Some (NextRunAt first (formatRunTime first now))
      | None => None
      end
  end.

(** ** Instance store *)

(** How an awaited call ends. *)
Inductive Outcome (A : Type) : Type :=
  | resolved (value : A)
  | threw (error : Thrown).
Arguments resolved {A} value.
Arguments threw {A} error.

Section InstanceStoreActions.

Context {InstanceProfile InstanceDefaults : Type}.
Variable parseArray : string -> option (list InstanceProfile).
Variable stringify : list InstanceProfile -> string.
Variable cacheKey : string.
Variable legacyCacheKeys : list string.
(** [String(e)]. *)
Variable errorText : Thrown -> string.

(** [loadCachedInstances()] and [persistInstancesCache(instances)] as they
    are called, their [try] and [catch] included.  [storageThrows] tells that
    the storage throws at the first call that writes to it ([setItem] on a
    full or disabled storage); reads are taken not to throw.  The storage is
    then left as it is: the load answers the empty list instead of the legacy
    instances, and the write is given up silently. *)
Definition tryLoadCachedInstances (storageThrows : bool)
    (localStorage : gmap string string)
    : list InstanceProfile * gmap string string :=
  if storageThrows then
    match parseCachedInstances parseArray (localStorage !! cacheKey) with
    | Some current => (current, localStorage)
    | None => ([], localStorage)
    end
  else loadCachedInstances parseArray cacheKey legacyCacheKeys localStorage.

Definition tryPersistInstancesCache (storageThrows : bool)
    (instances : list InstanceProfile) (localStorage : gmap string string)
    : gmap string string :=
  if storageThrows then localStorage
  else persistInstancesCache stringify cacheKey legacyCacheKeys instances
         localStorage.

Record InstanceStoreState := {
  instances : list InstanceProfile;
  defaults : option InstanceDefaults;
  loading : bool;
  error : option string
}.

(** The state while [fetchInstances] awaits the listing. *)
Definition fetchInstancesPending (st : InstanceStoreState) : InstanceStoreState :=
  {| instances := instances st; defaults := defaults st;
     loading := true; error := None |}.

(** [fetchInstances()] once [service.listInstances()] has ended with
    [listing]; the state is set before the cache is written. *)
Definition fetchInstances (listing : Outcome (list InstanceProfile))
    (storageThrows : bool)
    (st : InstanceStoreState) (localStorage : gmap string string)
    : InstanceStoreState * gmap string string :=
  let pending := fetchInstancesPending st in
  match listing with
  | resolved found =>
      ({| instances := found; defaults := defaults pending;
          loading := false; error := error pending |},
       tryPersistInstancesCache storageThrows found localStorage)
  | threw e =>
      ({| instances := instances pending; defaults := defaults pending;
          loading := false; error := Some (errorText e) |},
       localStorage)
  end.

Definition refreshInstances (listing : Outcome (list InstanceProfile))
    (storageThrows : bool)
    (st : InstanceStoreState) (localStorage : gmap string string)
    : InstanceStoreState * gmap string string :=
  match listing with
  | resolved found =>
      ({| instances := found; defaults := defaults st;
          loading := loading st; error := None |},
       tryPersistInstancesCache storageThrows found localStorage)
  | threw e =>
      ({| instances := instances st; defaults := defaults st;
          loading := loading st; error := Some (errorText e) |},
       localStorage)
  end.

Definition fetchDefaults (answer : Outcome InstanceDefaults)
    (st : InstanceStoreState) : InstanceStoreState :=
  match answer with
  | resolved d =>
      {| instances := instances st; defaults := Some d;
         loading := loading st; error := error st |}
  | threw e =>
      {| instances := instances st; defaults := defaults st;
         loading := loading st; error := Some (errorText e) |}
  end.

(** The shape shared by [createInstance], [updateInstance], [deleteInstance],
    [startInstance], [stopInstance], [forceStopInstance] and
    [closeAllInstances]: await the service call, then [fetchInstances()],
    then return what the call gave. *)
Definition mutateThenFetch {R} (call : Outcome R)
    (listing : Outcome (list InstanceProfile)) (storageThrows : bool)
    (st : InstanceStoreState) (localStorage : gmap string string)
    : Outcome R * (InstanceStoreState * gmap string string) :=
  match call with
  | resolved value =>
      (resolved value, fetchInstances listing storageThrows st localStorage)
  | threw e => (threw e, (st, localStorage))
  end.

End InstanceStoreActions.

(** * Vocabulary of the properties

    The notions the statements below are written with, and the concrete
    schedules, tasks and stores they are tried on. *)

(** The instant of a candidate date when it is valid and after [now]. *)
Definition future (now : Z) (d : Date) : option Z :=
  match d with
  | Some t => if now <? t then Some t else None
  | None => None
  end.

Definition upcoming (now : Z) (cands : list Date) : list Z :=
  omap (future now) cands.

(** What a loop adds to [results] when it walks the candidates [cands]. *)
Definition collect (now : Z) (count : nat) (cands : list Date)
    (results : list Z) : list Z :=
  results ++ take (count - length results) (upcoming now cands).

(** The day offsets visited by a loop over [n] days from [from]. *)
Fixpoint dayOffsets (n : nat) (from : Z) : list Z :=
  match n with
  | O => []
  | S n' => from :: dayOffsets n' (from + 1)
  end.

(** The hours and minutes of a zero-padded [HH:MM] string, the format that
    [normalizeTimeInput] produces; [None] for any other string. *)
Definition timeHM (s : string) : option (Z * Z) :=
  match s with
  | String a (String b (String ":" (String c (String d EmptyString)))) =>
      if isDigit a && isDigit b && isDigit c && isDigit d then
        let h := 10 * digitVal a + digitVal b in
        let m := 10 * digitVal c + digitVal d in
        if (h <=? 23) && (m <=? 59) then Some (h, m) else None
      else None
  | _ => None
  end.

Definition validTime (s : string) : bool :=
  match timeHM s with Some _ => true | None => false end.

(** Milliseconds since midnight of a valid time (0 for other strings). *)
Definition timeMs (s : string) : Z :=
  match timeHM s with
  | Some (h, m) => h * msPerHour + m * msPerMinute
  | None => 0
  end.

Definition byKey {A : Type} (key : A -> Z) (a b : A) : Prop := key a <= key b.

Definition dailyCandidates (now : Z) (times : list string) : list Date :=
  concat (map (fun d => map (dateAt now d) (sortBy compareStrings times))
              (dayOffsets 7 0)).

(** The candidate instants of a valid daily schedule. *)
Definition dailyInstants (now : Z) (times : list string) : list Z :=
  concat (map (fun d => map (fun o => (Day now + d) * msPerDay + o)
                            (map timeMs (sortBy compareStrings times)))
              (dayOffsets 7 0)).

Definition everyMorningAndEvening : ScheduleConfig :=
  {| repeatMode := daily;
     dailyTimes := Some ["20:30"; "08:00"]%string;
     weeklyDays := Some [1; 2; 3; 4; 5];
     weeklyTimes := Some ["08:00"%string];
     intervalHours := Some 4;
     intervalStartTime := Some "07:00"%string;
     intervalEndTime := Some "22:00"%string;
     selectedModels := ["codex-hourly"%string];
     selectedAccounts := ["a@example.com"%string];
     crontab := None;
     wakeOnReset := None;
     customPrompt := None;
     maxOutputTokens := Some 0;
     timeWindowEnabled := None;
     timeWindowStart := None;
     timeWindowEnd := None;
     fallbackTimes := None |}.

Definition cronCandidates (now : Z) (hours minutes : list jsnum) : list Date :=
  concat (map (fun d =>
                 concat (map (fun h =>
                                map (fun m => setHours (addDays (Some now) d) h m)
                                    minutes)
                             hours))
              (dayOffsets 7 0)).

Definition cronField (crontab : string) (i : nat) : string :=
  default EmptyString (splitWhite (trim crontab) !! i).

(** Monday 5 January 1970, 10:00. *)
Definition mondayTen : Z := 4 * msPerDay + 10 * msPerHour.

Fixpoint allChars (p : ascii -> bool) (s : string) : bool :=
  match s with
  | EmptyString => true
  | String a s' => p a && allChars p s'
  end.

Definition noWhite : string -> bool := allChars (fun a => negb (isWhite a)).


(** The hours [h, h + step, ...] the interval loop visits. *)
Fixpoint hourSteps (n : nat) (h step : Z) : list Z :=
  match n with
  | O => []
  | S n' => h :: hourSteps n' (h + step) step
  end.

(** How many hours the loop [for (h = a; h <= b; h += step)] visits when
    [step] is positive. *)
Definition stepCount (a b step : Z) : nat :=
  if a <=? b then Z.to_nat ((b - a) / step + 1) else 0%nat.

Definition intervalDay (now : Z) (m : Z) (hours : list Z) (d : Z) : list Date :=
  map (fun h => setHours (addDays (Some now) d) h (Some m)) (map Some hours).

(** The candidate instants of a valid interval schedule. *)
Definition intervalInstants (now : Z) (a m b step : Z) : list Z :=
  concat (map (fun d =>
                 map (fun h => (Day now + d) * msPerDay + h * msPerHour
                               + m * msPerMinute)
                     (hourSteps (stepCount a b step) a step))
              (dayOffsets 7 0)).

Definition everyFourHours : ScheduleConfig :=
  {| repeatMode := interval;
     dailyTimes := Some ["08:00"%string];
     weeklyDays := Some [1; 2; 3; 4; 5];
     weeklyTimes := Some ["08:00"%string];
     intervalHours := Some 4;
     intervalStartTime := Some "07:00"%string;
     intervalEndTime := Some "22:00"%string;
     selectedModels := ["codex-hourly"%string];
     selectedAccounts := ["a@example.com"%string];
     crontab := None;
     wakeOnReset := None;
     customPrompt := None;
     maxOutputTokens := Some 0;
     timeWindowEnabled := None;
     timeWindowStart := None;
     timeWindowEnd := None;
     fallbackTimes := None |}.

(** Day 4 at 06:00. *)
Definition daySix : Z := 4 * msPerDay + 6 * msPerHour.

(** A stored interval schedule that ends past midnight. *)
Definition pastMidnight : ScheduleConfig :=
  {| repeatMode := interval;
     dailyTimes := Some ["08:00"%string];
     weeklyDays := Some [1; 2; 3; 4; 5];
     weeklyTimes := Some ["08:00"%string];
     intervalHours := Some 2;
     intervalStartTime := Some "22:00"%string;
     intervalEndTime := Some "26:00"%string;
     selectedModels := ["codex-hourly"%string];
     selectedAccounts := ["a@example.com"%string];
     crontab := None;
     wakeOnReset := None;
     customPrompt := None;
     maxOutputTokens := Some 0;
     timeWindowEnabled := None;
     timeWindowStart := None;
     timeWindowEnd := None;
     fallbackTimes := None |}.

(** A record of the history with the given identifier and timestamp. *)
Definition historyEntry (id : string) (t : Z) : WakeupHistoryRecord :=
  {| record_id := id; timestamp := t; triggerType := trigger_auto;
     triggerSource := source_scheduled; taskName := None;
     accountEmail := "a@example.com"; modelId := "codex-hourly";
     prompt := None; success := true; message := None; duration := None |}.

(** Newest first: no record is older than one that follows it. *)
Definition newestFirstOrder (l : list WakeupHistoryRecord) : Prop :=
  StronglySorted (fun a b => timestamp b <= timestamp a) l.

Definition historyInvariant (l : list WakeupHistoryRecord) : Prop :=
  (length l <= MAX_HISTORY_ITEMS)%nat /\ newestFirstOrder l.

(** A list field keeps a non-empty value and takes the default [d] when it is
    empty or absent. *)
Definition listFieldRule {A} (input output : option (list A)) (d : list A) : Prop :=
  (forall l, input = Some l -> l <> [] -> output = Some l) /\
  (input = None \/ input = Some [] -> output = Some d).

(** A time field keeps a non-empty string and takes the default otherwise. *)
Definition stringFieldRule (input output : option string) (d : string) : Prop :=
  (forall s, input = Some s -> s <> EmptyString -> output = Some s) /\
  (input = None \/ input = Some EmptyString -> output = Some d).

(** A schedule as a form typed by hand can give it: a step of -3 hours. *)
Definition backwardsInterval : ScheduleConfig :=
  {| repeatMode := interval;
     dailyTimes := Some ["09:30"; "18:00"]%string;
     weeklyDays := Some [];
     weeklyTimes := None;
     intervalHours := Some (-3);
     intervalStartTime := Some "07:00"%string;
     intervalEndTime := Some EmptyString;
     selectedModels := ["codex-hourly"%string];
     selectedAccounts := ["a@example.com"%string];
     crontab := None;
     wakeOnReset := Some false;
     customPrompt := None;
     maxOutputTokens := None;
     timeWindowEnabled := Some false;
     timeWindowStart := None;
     timeWindowEnd := None;
     fallbackTimes := None |}.

Definition defaultTask (s : ScheduleConfig) : WakeupTask :=
  {| task_id := "task-1";
     task_name := "Wake up";
     enabled := true;
     createdAt := 1;
     lastRunAt := None;
     schedule := s |}.

(** A stored task that carries both flags. *)
Definition bothFlags : WakeupTask :=
  defaultTask
    {| repeatMode := daily;
       dailyTimes := Some ["08:00"%string];
       weeklyDays := Some [1; 2; 3; 4; 5];
       weeklyTimes := Some ["08:00"%string];
       intervalHours := Some 4;
       intervalStartTime := Some "07:00"%string;
       intervalEndTime := Some "22:00"%string;
       selectedModels := ["codex-hourly"%string];
       selectedAccounts := ["a@example.com"%string];
       crontab := Some "0 9 * * *"%string;
       wakeOnReset := Some true;
       customPrompt := None;
       maxOutputTokens := Some 0;
       timeWindowEnabled := None;
       timeWindowStart := None;
       timeWindowEnd := None;
       fallbackTimes := None |}.

Definition crontabForm : TaskForm :=
  {| editingTaskId := None;
     formName := "Nightly";
     formEnabled := true;
     formTriggerMode := crontab_mode;
     formRepeatMode := daily;
     formDailyTimes := ["08:00"%string];
     formWeeklyDays := [1; 2; 3; 4; 5];
     formWeeklyTimes := ["08:00"%string];
     formIntervalHours := Some 4;
     formIntervalStart := "07:00";
     formIntervalEnd := "22:00";
     formSelectedModels := ["codex-hourly"%string];
     formSelectedAccounts := ["a@example.com"%string];
     formCustomPrompt := EmptyString;
     formMaxOutputTokens := Some 0;
     formCrontab := " 0 3 * * * ";
     formTimeWindowEnabled := true;
     formTimeWindowStart := "09:00";
     formTimeWindowEnd := "18:00";
     formFallbackTimes := ["07:00"%string] |}.

Definition crontabSaved : WakeupTask :=
  {| task_id := "fresh";
     task_name := "Nightly";
     enabled := true;
     createdAt := 1000;
     lastRunAt := None;
     schedule := formSchedule crontabForm |}.

Definition TASKS_STORAGE_KEY : string := "cockpit.codex.wakeup.tasks".
Definition LEGACY_TASKS_STORAGE_KEY : string := "agtools.codex.wakeup.tasks".

(** The two stores of the examples: only the legacy key, and both keys. *)
Definition legacyOnly : gmap string string :=
  {[ LEGACY_TASKS_STORAGE_KEY := "[1]"%string ]}.
Definition bothKeys : gmap string string :=
  <[ TASKS_STORAGE_KEY := "[2]"%string ]> legacyOnly.

Definition accountA : CodexAccount :=
  {| account_id := "acc-1"; account_email := "A@example.com" |}.
Definition accountB : CodexAccount :=
  {| account_id := "acc-2"; account_email := "b@example.com" |}.

Definition testState : TestState :=
  {| testing := false;
     testSelectedModels := ["codex-hourly"%string];
     testSelectedAccounts := ["A@example.com"; "b@example.com"]%string;
     testCustomPrompt := "  ";
     testMaxOutputTokens := Some 0;
     accounts := [accountA; accountB];
     tasksRef := [];
     historyRecords := [] |}.

(** A remote service that fails the call for the first account only. *)
Definition failsFirst (n : nat) (accountId model : string)
    (prompt : option string) (maxOutputTokens : Z) : Settled :=
  if String.eqb accountId "acc-1" then rejected (ErrorObject "quota exceeded")
  else fulfilled {| reply := "hello";
                    promptTokens := None;
                    completionTokens := None;
                    totalTokens := None;
                    traceId := None;
                    responseId := None;
                    durationMs := Some 120 |}.

(** What the repair does to one selection: [Some next] when it replaces the
    selection by [next], [None] when it leaves it alone. *)
Definition selectionUpdate (available selected : list string)
    : option (list string) :=
  if bool_decide (available = []) then None
  else
    let next := repairedSelection available selected in
    if String.eqb (join "|" next) (join "|" selected) then None else Some next.

Definition updated {A} (u : option A) : bool :=
  match u with Some _ => true | None => false end.

Definition repairedTask (accountEmails modelIds : list string)
    (task : WakeupTask) : WakeupTask :=
  (repairTask accountEmails modelIds false task).1.

Definition taskChanged (accountEmails modelIds : list string)
    (task : WakeupTask) : bool :=
  updated (selectionUpdate accountEmails (selectedAccounts (schedule task)))
  || updated (selectionUpdate modelIds (selectedModels (schedule task))).

(** The task a first start creates: no account selected yet. *)
Definition firstTask : WakeupTask := defaultTask (normalizeSchedule DEFAULT_SCHEDULE).

(** A task whose account is gone and whose model is still offered. *)
Definition staleTask : WakeupTask :=
  defaultTask
    (withSelectedAccounts (normalizeSchedule DEFAULT_SCHEDULE)
       ["gone@example.com"%string]).

Definition knownAccounts : list string := ["a@example.com"; "b@example.com"]%string.
Definition knownModels : list string := ["codex-hourly"; "codex-weekly"]%string.

(** The candidates of a weekly schedule: the days of the horizon whose
    weekday is selected carry the configured times. *)
Definition weeklyCandidates (now : Z) (days : list Z) (times : list string)
    : list Date :=
  concat (map (fun d =>
                 if bool_decide (WeekDay (now + d * msPerDay) ∈ days)
                 then map (fun time =>
                             let hm := map Number (split ":" time) in
                             setHours (addDays (Some now) d) (numAt hm 0)
                               (numAt hm 1))
                          (sortBy compareStrings times)
                 else [])
              (dayOffsets 14 0)).

Definition weeklyInstants (now : Z) (days : list Z) (times : list string)
    : list Z :=
  concat (map (fun d =>
                 if bool_decide (WeekDay (now + d * msPerDay) ∈ days)
                 then map (fun o => (Day now + d) * msPerDay + o)
                          (map timeMs (sortBy compareStrings times))
                 else [])
              (dayOffsets 14 0)).

Definition weekdayMornings : ScheduleConfig :=
  {| repeatMode := weekly;
     dailyTimes := Some ["08:00"%string];
     weeklyDays := Some [1; 3];
     weeklyTimes := Some ["18:00"; "08:00"]%string;
     intervalHours := Some 4;
     intervalStartTime := Some "07:00"%string;
     intervalEndTime := Some "22:00"%string;
     selectedModels := ["codex-hourly"%string];
     selectedAccounts := ["a@example.com"%string];
     crontab := None;
     wakeOnReset := None;
     customPrompt := None;
     maxOutputTokens := Some 0;
     timeWindowEnabled := None;
     timeWindowStart := None;
     timeWindowEnd := None;
     fallbackTimes := None |}.

(** The text [normalizeTimeInput] builds from an hour and a minute. *)
Definition formatTime (h m : Z) : string :=
  (padStart 2 "0" (numberToString h) ++ ":" ++ padStart 2 "0" (numberToString m))%string.

(** Every hour and minute of the clock is printed as the valid time that
    reads back as the same hour and minute. *)
Definition formatTimeReadsBack : bool :=
  forallb (fun h =>
             forallb (fun m =>
                        match timeHM (formatTime (Z.of_nat h) (Z.of_nat m)) with
                        | Some (h', m') => (h' =? Z.of_nat h) && (m' =? Z.of_nat m)
                        | None => false
                        end)
                     (seq 0 60))
          (seq 0 24).

(** The state of a list of times in the form: not empty, valid times only,
    strictly ascending (hence without duplicates). *)
Definition goodTimes (l : list string) : Prop :=
  l <> [] /\ Forall (fun s => validTime s = true) l /\
  StronglySorted (fun a b => timeMs a < timeMs b) l.

Definition BASE_TIME_OPTIONS : list string :=
  ["06:00"; "07:00"; "08:00"; "09:00"; "10:00"; "11:00"; "12:00"; "14:00";
   "16:00"; "18:00"; "20:00"; "22:00"]%string.

(** What the form does to its list of weekdays. *)
Inductive DayOp :=
  | DayToggle (day : Z)
  | DayPresetOp (preset : DayPreset).

Definition dayStep (days : list Z) (op : DayOp) : list Z :=
  match op with
  | DayToggle day => toggleDaySelection day days
  | DayPresetOp preset => applyQuickDays preset
  end.

(** A schedule with every field the calculators read filled in. *)
Definition completeSchedule (s : ScheduleConfig) : Prop :=
  (exists times, dailyTimes s = Some times /\ times <> []) /\
  (exists days, weeklyDays s = Some days /\ days <> []) /\
  (exists times, weeklyTimes s = Some times /\ times <> []) /\
  (exists hours, intervalHours s = Some hours /\ 0 < hours) /\
  (exists start, intervalStartTime s = Some start /\ start <> EmptyString) /\
  (exists end_, intervalEndTime s = Some end_ /\ end_ <> EmptyString) /\
  (exists tokens, maxOutputTokens s = Some tokens) /\
  (exists times, fallbackTimes s = Some times /\ times <> []).

(** What happens to the task set of the page. *)
Inductive RegistryOp :=
  | OpSave (f : TaskForm) (now : Z) (freshId : string)
  | OpDelete (taskId : string) (confirmed : bool)
  | OpToggle (taskId : string)
  | OpResult (taskId : string) (ranAt : Z)
  | OpRepair (accountEmails modelIds : list string).

Definition registryStep (tasks : list WakeupTask) (op : RegistryOp)
    : list WakeupTask :=
  match op with
  | OpSave f now freshId =>
      match handleSaveTask f now freshId tasks with
      | Some (_, next) => next
      | None => tasks
      end
  | OpDelete taskId confirmed => handleDeleteTask taskId confirmed tasks
  | OpToggle taskId => handleToggleTask taskId tasks
  | OpResult taskId ranAt => handleTaskResult taskId ranAt tasks
  | OpRepair accountEmails modelIds =>
      repairSelections tasks accountEmails modelIds
  end.

Definition taskIds (tasks : list WakeupTask) : list string := map task_id tasks.

Definition sampleForm : TaskForm :=
  {| editingTaskId := Some "task-1"%string;
     formName := " Evening "%string;
     formEnabled := false;
     formTriggerMode := scheduled;
     formRepeatMode := daily;
     formDailyTimes := ["20:00"%string];
     formWeeklyDays := [1];
     formWeeklyTimes := ["08:00"%string];
     formIntervalHours := Some 4;
     formIntervalStart := "07:00"%string;
     formIntervalEnd := "22:00"%string;
     formSelectedModels := ["codex-hourly"%string];
     formSelectedAccounts := ["a@example.com"%string];
     formCustomPrompt := EmptyString;
     formMaxOutputTokens := Some 0;
     formCrontab := EmptyString;
     formTimeWindowEnabled := false;
     formTimeWindowStart := "09:00"%string;
     formTimeWindowEnd := "18:00"%string;
     formFallbackTimes := ["07:00"%string] |}.

Definition namedTask (id : string) (created : Z) (ran : option Z) : WakeupTask :=
  {| task_id := id; task_name := id; enabled := true; createdAt := created;
     lastRunAt := ran; schedule := normalizeSchedule DEFAULT_SCHEDULE |}.

Definition twoTasks : list WakeupTask :=
  [namedTask "task-0" 5 None; namedTask "task-1" 7 (Some 9)].

(** The account and model of an action, and of a history record. *)
Definition actionCell (a : Action) : string * string :=
  (action_accountEmail a, action_modelId a).
Definition recordCell (r : WakeupHistoryRecord) : string * string :=
  (accountEmail r, modelId r).
Definition accountCell (cell : CodexAccount * string) : string * string :=
  (account_email cell.1, cell.2).

(** ** The instance store as a whole *)

Section InstanceStoreRuns.

Context {InstanceProfile InstanceDefaults : Type}.
Variable parseArray : string -> option (list InstanceProfile).
Variable stringify : list InstanceProfile -> string.
Variable cacheKey : string.
Variable legacyCacheKeys : list string.
Variable errorText : Thrown -> string.

(** The state the store is created with, and the storage the initial read of
    the cache leaves. *)
Definition initialStore (storageThrows : bool)
    (localStorage : gmap string string)
    : @InstanceStoreState InstanceProfile InstanceDefaults * gmap string string :=
  let '(cached, stored) :=
    tryLoadCachedInstances parseArray cacheKey legacyCacheKeys storageThrows
      localStorage in
  ({| instances := cached; defaults := None; loading := false; error := None |},
   stored).

(** The actions of the store, each with the way its service calls end and
    with what the storage does when the action writes the cache. *)
Inductive StoreAction :=
  | ActFetch (listing : Outcome (list InstanceProfile)) (storageThrows : bool)
  | ActRefresh (listing : Outcome (list InstanceProfile)) (storageThrows : bool)
  | ActFetchDefaults (answer : Outcome InstanceDefaults)
  | ActMutate (call : Outcome unit) (listing : Outcome (list InstanceProfile))
      (storageThrows : bool).

Definition storeStep
    (s : @InstanceStoreState InstanceProfile InstanceDefaults * gmap string string)
    (action : StoreAction)
    : @InstanceStoreState InstanceProfile InstanceDefaults * gmap string string :=
  match action with
  | ActFetch listing storageThrows =>
      fetchInstances stringify cacheKey legacyCacheKeys errorText listing
        storageThrows s.1 s.2
  | ActRefresh listing storageThrows =>
      refreshInstances stringify cacheKey legacyCacheKeys errorText listing
        storageThrows s.1 s.2
  | ActFetchDefaults answer => (fetchDefaults errorText answer s.1, s.2)
  | ActMutate call listing storageThrows =>
      (mutateThenFetch stringify cacheKey legacyCacheKeys errorText call listing
         storageThrows s.1 s.2).2
  end.

(** The storage lets the action write the cache. *)
Definition writesThrough (action : StoreAction) : bool :=
  match action with
  | ActFetch _ storageThrows => negb storageThrows
  | ActRefresh _ storageThrows => negb storageThrows
  | ActFetchDefaults _ => true
  | ActMutate _ _ storageThrows => negb storageThrows
  end.

End InstanceStoreRuns.

(** A store of characters, written as the text of its characters in
    brackets. *)
Definition charsText (l : list ascii) : string :=
  String "[" (string_of_list_ascii l).
Definition parseChars (s : string) : option (list ascii) :=
  match s with
  | String "[" r => Some (list_ascii_of_string r)
  | _ => None
  end.


(** * Properties *)

(** ** JavaScript primitives *)

Example split_time : split ":" "08:30" = ["08"; "30"]%string.
Proof. reflexivity. Qed.

Example splitWhite_cron :
  splitWhite (trim "  0 9  * * * ") = ["0"; "9"; "*"; "*"; "*"]%string.
Proof. reflexivity. Qed.

Example Number_examples :
  Number "09" = Some 9 /\ Number EmptyString = Some 0 /\ Number "10/2" = NaN /\
  Number "-5" = Some (-5) /\ Number "*" = NaN.
Proof. repeat split. Qed.

Example parseInt_examples :
  parseInt "22" = Some 22 /\ parseInt "22abc" = Some 22 /\ parseInt EmptyString = NaN.
Proof. repeat split. Qed.

(** ** The loops collect the first [count] future candidates *)

Section Collect.

Variable now : Z.
Variable count : nat.

Lemma collect_nil results : collect now count [] results = results.
Proof. unfold collect. simpl. by rewrite take_nil, app_nil_r. Qed.

Lemma collect_full cands results :
  (count <= length results)%nat -> collect now count cands results = results.
Proof.
  intros Hfull. unfold collect.
  replace (count - length results)%nat with 0%nat by lia.
  by rewrite take_0, app_nil_r.
Qed.

Lemma collect_length cands results :
  (length results <= count)%nat -> (length (collect now count cands results) <= count)%nat.
Proof.
  intros Hle. unfold collect. rewrite length_app, length_take. lia.
Qed.

Lemma collect_app c1 c2 results :
  collect now count (c1 ++ c2) results = collect now count c2 (collect now count c1 results).
Proof.
  unfold collect, upcoming. rewrite omap_app, take_app, <- app_assoc.
  do 2 f_equal. rewrite length_app, length_take. f_equal. lia.
Qed.

Lemma collect_cons_skip d cands results :
  future now d = None -> collect now count (d :: cands) results = collect now count cands results.
Proof. intros Hd. unfold collect, upcoming. simpl. by rewrite Hd. Qed.

Lemma collect_cons_push d t cands results :
  future now d = Some t -> (length results < count)%nat ->
  collect now count (d :: cands) results = collect now count cands (results ++ [t]).
Proof.
  intros Hd Hroom. unfold collect, upcoming. simpl. rewrite Hd.
  rewrite length_app. simpl.
  replace (count - length results)%nat
    with (S (count - (length results + 1)))%nat by lia.
  simpl. by rewrite <- app_assoc.
Qed.

Lemma pushIfAfter_skip d results :
  future now d = None -> pushIfAfter now count d results = Continue results.
Proof.
  unfold future, pushIfAfter. destruct d as [t|]; [|done].
  by destruct (now <? t).
Qed.

Lemma pushIfAfter_push d t results :
  future now d = Some t ->
  pushIfAfter now count d results =
    if (count <=? length (results ++ [t]))%nat then Break (results ++ [t])
    else Continue (results ++ [t]).
Proof.
  unfold future, pushIfAfter. destruct d as [u|]; [|done].
  destruct (now <? u); [|done]. by intros [= ->].
Qed.

(** An innermost loop: one candidate per element. *)
Lemma forOf_collect {A} (f : A -> Date) (xs : list A) results :
  (length results < count)%nat ->
  forOf xs (fun x => pushIfAfter now count (f x)) results
  = collect now count (map f xs) results.
Proof.
  revert results. induction xs as [|x xs IH]; intros results Hroom; simpl.
  - by rewrite collect_nil.
  - destruct (future now (f x)) as [t|] eqn:Hfut.
    + rewrite (pushIfAfter_push _ t) by done.
      rewrite (collect_cons_push _ t) by done.
      destruct (Nat.leb_spec count (length (results ++ [t]))) as [Hfull|Hmore].
      * by rewrite collect_full.
      * by apply IH.
    + rewrite pushIfAfter_skip by done. rewrite collect_cons_skip by done.
      by apply IH.
Qed.

(** A loop around an inner loop that repeats the test
    [if (results.length >= count) break] after it. *)
Lemma forOf_nested_collect {A} (inner : A -> list Date) (xs : list A)
    (body : A -> list Z -> list Z) results :
  (forall x r, (length r < count)%nat -> body x r = collect now count (inner x) r) ->
  (length results < count)%nat ->
  forOf xs (fun x r =>
              let r' := body x r in
              if (count <=? length r')%nat then Break r' else Continue r')
        results
  = collect now count (concat (map inner xs)) results.
Proof.
  intros Hbody. revert results.
  induction xs as [|x xs IH]; intros results Hroom; simpl.
  - by rewrite collect_nil.
  - rewrite collect_app. cbv zeta. rewrite Hbody by done.
    destruct (Nat.leb_spec count (length (collect now count (inner x) results)))
      as [Hfull|Hmore].
    + by rewrite (collect_full _ (collect now count (inner x) results)).
    + by apply IH.
Qed.

(** The loop over days, guarded by [results.length < count]. *)
Lemma forUpTo_collect (perDay : Z -> list Date) (body : Z -> list Z -> list Z)
    n from results :
  (forall d r, (length r < count)%nat -> body d r = collect now count (perDay d) r) ->
  forUpTo n from (roomLeft count) body results
  = collect now count (concat (map perDay (dayOffsets n from))) results.
Proof.
  intros Hbody. revert from results.
  induction n as [|n IH]; intros from results; simpl.
  - by rewrite collect_nil.
  - unfold roomLeft at 1.
    destruct (Nat.ltb_spec (length results) count) as [Hroom|Hfull].
    + by rewrite IH, collect_app, Hbody.
    + by rewrite collect_full.
Qed.

Lemma collect_from_empty cands : collect now count cands [] = take count (upcoming now cands).
Proof. unfold collect. simpl. by rewrite Nat.sub_0_r. Qed.

Lemma upcoming_after cands t : t ∈ upcoming now cands -> Some t ∈ cands /\ now < t.
Proof.
  unfold upcoming. rewrite list_elem_of_omap. intros (d & Hin & Hfut).
  unfold future in Hfut. destruct d as [u|]; [|done].
  destruct (Z.ltb_spec now u); [|done].
  injection Hfut as ->. done.
Qed.

Lemma after_upcoming cands t : Some t ∈ cands -> now < t -> t ∈ upcoming now cands.
Proof.
  intros Hin Hlt. unfold upcoming. rewrite list_elem_of_omap.
  exists (Some t). split; [done|]. simpl.
  by destruct (Z.ltb_spec now t); [|lia].
Qed.

End Collect.

(** ** Wall-clock time strings *)

Lemma digit_cases a :
  isDigit a = true ->
  a ∈ ["0"; "1"; "2"; "3"; "4"; "5"; "6"; "7"; "8"; "9"]%char.
Proof.
  intros Hd. unfold isDigit in Hd. cbv zeta in Hd.
  apply andb_prop in Hd as [Hlo Hhi].
  apply Nat.leb_le in Hlo, Hhi.
  rewrite <- (ascii_nat_embedding a).
  remember (nat_of_ascii a) as n eqn:Hn. clear Hn.
  do 48 (destruct n as [|n]; [lia|]).
  do 10 (destruct n as [|n]; [set_solver|]).
  lia.
Qed.

Ltac digit_split H :=
  apply digit_cases in H;
  repeat (apply elem_of_cons in H as [->|H]);
  [..|by apply elem_of_nil in H].

Lemma digitVal_range a : isDigit a = true -> 0 <= digitVal a <= 9.
Proof. intros Hd. digit_split Hd; by vm_compute. Qed.

Lemma number_two_digits a b :
  isDigit a = true -> isDigit b = true ->
  Number (String a (String b EmptyString)) = Some (10 * digitVal a + digitVal b).
Proof. intros Ha Hb. digit_split Ha; digit_split Hb; reflexivity. Qed.

Lemma digit_not_colon a : isDigit a = true -> Ascii.eqb a ":" = false.
Proof. intros Ha. digit_split Ha; reflexivity. Qed.

Lemma digit_compare a b :
  isDigit a = true -> isDigit b = true ->
  Ascii.compare a b = (digitVal a ?= digitVal b).
Proof. intros Ha Hb. digit_split Ha; digit_split Hb; reflexivity. Qed.

(** The shape of a valid time string. *)
Lemma timeHM_inv s h m :
  timeHM s = Some (h, m) ->
  exists a b c d,
    s = String a (String b (String ":" (String c (String d EmptyString)))) /\
    isDigit a = true /\ isDigit b = true /\ isDigit c = true /\ isDigit d = true /\
    h = 10 * digitVal a + digitVal b /\ m = 10 * digitVal c + digitVal d /\
    0 <= h <= 23 /\ 0 <= m <= 59.
Proof.
  destruct s as [|a [|b [|k s]]]; try discriminate.
  intros H.
  assert (k = ":"%char) as ->.
  { destruct (Ascii.eqb_spec k ":") as [->|Hk]; [done|]. exfalso.
    destruct k as [[] [] [] [] [] [] [] []]; (discriminate || by destruct Hk). }
  destruct s as [|c [|d [|? ?]]]; try discriminate.
  unfold timeHM in H.
  destruct (isDigit a) eqn:Ha, (isDigit b) eqn:Hb, (isDigit c) eqn:Hc,
    (isDigit d) eqn:Hd; try discriminate.
  cbn [andb] in H. cbv zeta in H.
  destruct (Z.leb_spec (10 * digitVal a + digitVal b) 23); [|discriminate].
  destruct (Z.leb_spec (10 * digitVal c + digitVal d) 59); [|discriminate].
  cbn [andb] in H. injection H as <- <-.
  pose proof (digitVal_range a Ha). pose proof (digitVal_range b Hb).
  pose proof (digitVal_range c Hc). pose proof (digitVal_range d Hd).
  exists a, b, c, d. repeat split; try done; lia.
Qed.

Lemma timeMs_range s : validTime s = true -> 0 <= timeMs s < msPerDay.
Proof.
  unfold validTime, timeMs. destruct (timeHM s) as [[h m]|] eqn:E; [|done].
  intros _. apply timeHM_inv in E as (a & b & c & d & _ & _ & _ & _ & _ & _ & _ & Hh & Hm).
  unfold msPerHour, msPerMinute, msPerDay. lia.
Qed.

(** Hours and minutes as [split] and [Number] read them. *)
Lemma split_valid_time s h m :
  timeHM s = Some (h, m) -> map Number (split ":" s) = [Some h; Some m].
Proof.
  intros E.
  apply timeHM_inv in E
    as (a & b & c & d & -> & Ha & Hb & Hc & Hd & -> & -> & _ & _).
  cbn [split].
  rewrite (digit_not_colon a), (digit_not_colon b), (digit_not_colon c),
    (digit_not_colon d) by done.
  change (Ascii.eqb ":" ":") with true. cbn [map].
  by rewrite !number_two_digits.
Qed.

(** On valid times the default sort order is the chronological order. *)
Lemma compareStrings_time s1 s2 :
  validTime s1 = true -> validTime s2 = true ->
  (compareStrings s1 s2 <=? 0) = (timeMs s1 <=? timeMs s2).
Proof.
  unfold validTime, timeMs.
  destruct (timeHM s1) as [[h1 m1]|] eqn:E1; [|done].
  destruct (timeHM s2) as [[h2 m2]|] eqn:E2; [|done].
  intros _ _.
  apply timeHM_inv in E1
    as (a1 & b1 & c1 & d1 & -> & Ha1 & Hb1 & Hc1 & Hd1 & -> & -> & _ & Hm1).
  apply timeHM_inv in E2
    as (a2 & b2 & c2 & d2 & -> & Ha2 & Hb2 & Hc2 & Hd2 & -> & -> & _ & Hm2).
  pose proof (digitVal_range _ Ha1). pose proof (digitVal_range _ Hb1).
  pose proof (digitVal_range _ Hc1). pose proof (digitVal_range _ Hd1).
  pose proof (digitVal_range _ Ha2). pose proof (digitVal_range _ Hb2).
  pose proof (digitVal_range _ Hc2). pose proof (digitVal_range _ Hd2).
  unfold compareStrings. cbn [String.compare].
  change (Ascii.compare ":" ":") with Eq. cbv iota.
  rewrite (digit_compare a1 a2), (digit_compare b1 b2), (digit_compare c1 c2),
    (digit_compare d1 d2) by done.
  unfold msPerHour, msPerMinute.
  destruct (Z.compare_spec (digitVal a1) (digitVal a2));
    destruct (Z.compare_spec (digitVal b1) (digitVal b2));
    destruct (Z.compare_spec (digitVal c1) (digitVal c2));
    destruct (Z.compare_spec (digitVal d1) (digitVal d2));
    cbv iota;
    match goal with
    | |- true = _ => symmetry; apply Z.leb_le; lia
    | |- false = _ => symmetry; apply Z.leb_gt; lia
    | |- (_ <=? _) = _ =>
        cbn; symmetry; first [apply Z.leb_le; lia | apply Z.leb_gt; lia]
    end.
Qed.

Lemma timeMs_inj s1 s2 :
  validTime s1 = true -> validTime s2 = true -> timeMs s1 = timeMs s2 -> s1 = s2.
Proof.
  unfold validTime, timeMs.
  destruct (timeHM s1) as [[h1 m1]|] eqn:E1; [|done].
  destruct (timeHM s2) as [[h2 m2]|] eqn:E2; [|done].
  intros _ _.
  apply timeHM_inv in E1
    as (a1 & b1 & c1 & d1 & -> & Ha1 & Hb1 & Hc1 & Hd1 & -> & -> & _ & Hm1).
  apply timeHM_inv in E2
    as (a2 & b2 & c2 & d2 & -> & Ha2 & Hb2 & Hc2 & Hd2 & -> & -> & _ & Hm2).
  pose proof (digitVal_range _ Ha1). pose proof (digitVal_range _ Hb1).
  pose proof (digitVal_range _ Hc1). pose proof (digitVal_range _ Hd1).
  pose proof (digitVal_range _ Ha2). pose proof (digitVal_range _ Hb2).
  pose proof (digitVal_range _ Hc2). pose proof (digitVal_range _ Hd2).
  unfold msPerHour, msPerMinute. intros Heq.
  assert (digitVal a1 = digitVal a2 /\ digitVal b1 = digitVal b2 /\
          digitVal c1 = digitVal c2 /\ digitVal d1 = digitVal d2)
    as (Ea & Eb & Ec & Ed) by lia.
  assert (Hinj : forall x y, isDigit x = true -> isDigit y = true ->
                   digitVal x = digitVal y -> x = y).
  { intros x y Hx Hy. digit_split Hx; digit_split Hy; by vm_compute. }
  by rewrite (Hinj _ _ Ha1 Ha2 Ea), (Hinj _ _ Hb1 Hb2 Eb),
    (Hinj _ _ Hc1 Hc2 Ec), (Hinj _ _ Hd1 Hd2 Ed).
Qed.

(** ** Sorting with a comparator *)

Section SortBy.

Context {A : Type} (cmp : A -> A -> Z).

Lemma insertBy_perm x l : insertBy cmp x l ≡ₚ x :: l.
Proof.
  induction l as [|y l IH]; simpl; [done|].
  destruct (cmp x y <=? 0); [done|].
  rewrite IH. apply Permutation_swap.
Qed.

Lemma sortBy_perm l : sortBy cmp l ≡ₚ l.
Proof.
  induction l as [|x l IH]; simpl; [done|].
  by rewrite insertBy_perm, IH.
Qed.

Lemma sortBy_length l : length (sortBy cmp l) = length l.
Proof. by rewrite sortBy_perm. Qed.

Lemma sortBy_elem_of x l : x ∈ sortBy cmp l <-> x ∈ l.
Proof. by rewrite sortBy_perm. Qed.

(** When the comparator orders the elements that satisfy [P] by a key, the
    result is sorted by that key. *)
Context (key : A -> Z) (P : A -> Prop).

Lemma insertBy_sorted x l :
  (forall a b, P a -> P b -> (cmp a b <=? 0) = (key a <=? key b)) ->
  P x -> Forall P l ->
  StronglySorted (byKey key) l -> StronglySorted (byKey key) (insertBy cmp x l).
Proof.
  intros Hcmp Hx. induction l as [|y l IH]; intros HP Hsorted; simpl.
  - repeat constructor.
  - apply Forall_cons in HP as [Hy HP].
    apply StronglySorted_cons in Hsorted as [Hall Hsorted].
    rewrite Hcmp by done.
    destruct (Z.leb_spec (key x) (key y)) as [Hle|Hgt].
    + apply StronglySorted_cons. split; [|by apply StronglySorted_cons].
      apply Forall_cons. split; [done|].
      eapply Forall_impl; [exact Hall|]. unfold byKey. intros; lia.
    + apply StronglySorted_cons. split; [|by apply IH].
      rewrite insertBy_perm. apply Forall_cons. split; [|done].
      unfold byKey. lia.
Qed.

Lemma sortBy_sorted l :
  (forall a b, P a -> P b -> (cmp a b <=? 0) = (key a <=? key b)) ->
  Forall P l -> StronglySorted (byKey key) (sortBy cmp l).
Proof.
  intros Hcmp. induction l as [|x l IH]; intros HP; simpl.
  - constructor.
  - apply Forall_cons in HP as [Hx HP].
    apply insertBy_sorted; [done..| |by apply IH].
    by rewrite sortBy_perm.
Qed.

(** Without duplicates, and with a key that tells the elements apart, the
    order is strict. *)
Lemma sorted_strict l :
  (forall a b, P a -> P b -> key a = key b -> a = b) ->
  Forall P l -> NoDup l ->
  StronglySorted (byKey key) l -> StronglySorted (fun a b => key a < key b) l.
Proof.
  intros Hinj. induction l as [|x l IH]; intros HP Hnd Hs; [constructor|].
  apply Forall_cons in HP as [Hx HP].
  apply NoDup_cons in Hnd as [Hnotin Hnd].
  apply StronglySorted_cons in Hs as [Hall Hs].
  apply StronglySorted_cons. split; [|by apply IH].
  rewrite Forall_forall in Hall, HP. apply Forall_forall. intros y Hy.
  specialize (Hall y Hy). unfold byKey in Hall.
  destruct (decide (key x = key y)) as [Heq|Hne]; [|lia].
  apply Hinj in Heq; [|done|by apply HP]. by subst.
Qed.

End SortBy.

Lemma StronglySorted_take {A} (R : relation A) n l :
  StronglySorted R l -> StronglySorted R (take n l).
Proof.
  revert n. induction l as [|x l IH]; intros [|n] Hs; simpl; try constructor.
  - apply IH. by apply StronglySorted_cons in Hs as [_ ?].
  - apply StronglySorted_cons in Hs as [Hall _].
    rewrite Forall_forall in Hall. apply Forall_forall. intros y Hy.
    apply Hall. apply elem_of_take in Hy as (i & Hi & _). by eapply list_elem_of_lookup_2.
Qed.

(** ** Candidates as instants *)

Lemma upcoming_valid now l :
  upcoming now (map Some l) = List.filter (fun t => now <? t) l.
Proof.
  induction l as [|t l IH]; simpl; [done|].
  unfold upcoming in *. simpl. destruct (now <? t); simpl; by rewrite IH.
Qed.

Lemma filter_after_sorted now l :
  StronglySorted Z.lt l ->
  StronglySorted Z.lt (List.filter (fun t => now <? t) l).
Proof.
  induction l as [|t l IH]; intros Hs; simpl; [constructor|].
  apply StronglySorted_cons in Hs as [Hall Hs].
  destruct (now <? t); [|by apply IH].
  apply StronglySorted_cons. split; [|by apply IH].
  rewrite Forall_forall in Hall. apply Forall_forall. intros y Hy.
  apply Hall. apply list_elem_of_In. apply list_elem_of_In in Hy.
  by apply filter_In in Hy as [? _].
Qed.

Lemma Day_addDays now d : Day (now + d * msPerDay) = Day now + d.
Proof. unfold Day, msPerDay. by rewrite Z.div_add. Qed.

Lemma Day_bounds now : Day now * msPerDay <= now < (Day now + 1) * msPerDay.
Proof.
  unfold Day, msPerDay.
  pose proof (Z.div_mod now 86400000 ltac:(lia)).
  pose proof (Z.mod_pos_bound now 86400000 ltac:(lia)). lia.
Qed.

Lemma setHours_addDays now d h m :
  setHours (addDays (Some now) d) (Some h) (Some m)
  = Some ((Day now + d) * msPerDay + h * msPerHour + m * msPerMinute).
Proof. unfold setHours, addDays. simpl. by rewrite Day_addDays. Qed.

Lemma dateAt_valid now d s :
  validTime s = true ->
  dateAt now d s = Some ((Day now + d) * msPerDay + timeMs s).
Proof.
  unfold validTime, timeMs, dateAt.
  destruct (timeHM s) as [[h m]|] eqn:E; [|done]. intros _.
  rewrite (split_valid_time _ _ _ E).
  change (numAt [Some h; Some m] 0) with (Some h).
  change (numAt [Some h; Some m] 1) with (Some m).
  rewrite setHours_addDays. f_equal. lia.
Qed.

Lemma dayOffsets_elem_of n from d :
  d ∈ dayOffsets n from <-> from <= d < from + Z.of_nat n.
Proof.
  revert from. induction n as [|n IH]; intros from; simpl.
  - rewrite elem_of_nil. lia.
  - rewrite elem_of_cons, IH. lia.
Qed.

(** The instants of [n] consecutive days, each day carrying the same
    increasing times of day, are increasing. *)
Lemma days_sorted (base : Z) (offs : list Z) n from :
  StronglySorted Z.lt offs ->
  Forall (fun o => 0 <= o < msPerDay) offs ->
  StronglySorted Z.lt
    (concat (map (fun d => map (fun o => (base + d) * msPerDay + o) offs)
                 (dayOffsets n from))).
Proof.
  intros Hs Hrange. revert from. induction n as [|n IH]; intros from; simpl.
  - constructor.
  - apply StronglySorted_app. split_and!.
    + intros x1 x2 Hx1 Hx2.
      apply list_elem_of_In, in_map_iff in Hx1 as (o1 & <- & Ho1).
      apply list_elem_of_In, in_concat in Hx2 as (l & Hl & Hx2).
      apply in_map_iff in Hl as (d & <- & Hd).
      apply in_map_iff in Hx2 as (o2 & <- & Ho2).
      apply list_elem_of_In in Ho1, Ho2.
      apply list_elem_of_In, dayOffsets_elem_of in Hd.
      rewrite Forall_forall in Hrange.
      pose proof (Hrange _ Ho1). pose proof (Hrange _ Ho2).
      unfold msPerDay in *. nia.
    + apply StronglySorted_fmap with (R1 := Z.lt); [|done].
      intros x y Hxy. lia.
    + apply IH.
Qed.

(** ** Daily schedules *)

Lemma dailyRuns_collect now count times :
  dailyRuns now count times = take count (upcoming now (dailyCandidates now times)).
Proof.
  unfold dailyRuns, dailyCandidates.
  rewrite (forUpTo_collect now count
             (fun d => map (dateAt now d) (sortBy compareStrings times))).
  - apply collect_from_empty.
  - intros d r Hr. by apply forOf_collect.
Qed.

Lemma dailyCandidates_valid now times :
  Forall (fun s => validTime s = true) times ->
  dailyCandidates now times = map Some (dailyInstants now times).
Proof.
  intros Hvalid. unfold dailyCandidates, dailyInstants.
  rewrite concat_map, map_map. f_equal.
  apply map_ext. intros d. rewrite !map_map.
  apply map_ext_in. intros s Hs. apply dateAt_valid.
  rewrite Forall_forall in Hvalid. apply Hvalid.
  by apply list_elem_of_In, sortBy_elem_of in Hs.
Qed.

Lemma dailyInstants_sorted now times :
  Forall (fun s => validTime s = true) times -> NoDup times ->
  StronglySorted Z.lt (dailyInstants now times).
Proof.
  intros Hvalid Hnd. unfold dailyInstants.
  assert (Hsv : Forall (fun s => validTime s = true) (sortBy compareStrings times))
    by by rewrite sortBy_perm.
  apply days_sorted.
  - apply StronglySorted_fmap with (R1 := fun a b => timeMs a < timeMs b);
      [done|].
    apply sorted_strict with (P := fun s => validTime s = true).
    + intros a b. apply timeMs_inj.
    + done.
    + by rewrite sortBy_perm.
    + apply sortBy_sorted with (P := fun s => validTime s = true); [|done].
      intros a b. apply compareStrings_time.
  - apply Forall_fmap. eapply Forall_impl; [exact Hsv|].
    intros s Hs. by apply timeMs_range.
Qed.

Lemma dailyInstants_elem_of now times t :
  Forall (fun s => validTime s = true) times ->
  t ∈ dailyInstants now times <->
  exists d time, 0 <= d < 7 /\ time ∈ times /\ dateAt now d time = Some t.
Proof.
  intros Hvalid. rewrite Forall_forall in Hvalid.
  unfold dailyInstants. rewrite list_elem_of_In, in_concat. split.
  - intros (l & Hl & Ht).
    apply in_map_iff in Hl as (d & <- & Hd).
    apply in_map_iff in Ht as (o & <- & Ho).
    apply in_map_iff in Ho as (s & <- & Hs).
    apply list_elem_of_In, dayOffsets_elem_of in Hd.
    apply list_elem_of_In, sortBy_elem_of in Hs.
    exists d, s. split; [lia|]. split; [done|].
    by apply dateAt_valid, Hvalid.
  - intros (d & s & Hd & Hs & Hdate).
    rewrite dateAt_valid in Hdate by by apply Hvalid.
    injection Hdate as <-.
    exists (map (fun o => (Day now + d) * msPerDay + o)
                (map timeMs (sortBy compareStrings times))).
    split.
    + apply in_map_iff. exists d. split; [done|].
      apply list_elem_of_In, dayOffsets_elem_of. lia.
    + apply in_map_iff. exists (timeMs s). split; [done|].
      apply in_map_iff. exists s. split; [done|].
      by apply list_elem_of_In, sortBy_elem_of.
Qed.

(** The first element of a strictly increasing list is its least one. *)
Lemma sorted_head_least l first t :
  StronglySorted Z.lt l -> head l = Some first -> t ∈ l -> first <= t.
Proof.
  destruct l as [|x l]; [done|]. simpl. intros Hs [= ->] Ht.
  apply StronglySorted_cons in Hs as [Hall _].
  apply elem_of_cons in Ht as [->|Ht]; [lia|].
  rewrite Forall_forall in Hall. specialize (Hall t Ht). lia.
Qed.

Lemma head_take {A} n (l : list A) x :
  head (take n l) = Some x -> head l = Some x.
Proof. destruct n, l; simpl; congruence. Qed.

Lemma filter_after_elem_of now l t :
  t ∈ List.filter (fun t => now <? t) l <-> t ∈ l /\ now < t.
Proof. rewrite !list_elem_of_In, filter_In, Z.ltb_lt. done. Qed.

(** C1.  For a daily schedule whose [dailyTimes] is a non-empty list of
    distinct valid zero-padded HH:MM times, and for every [now] and [count],
    [calculateNextRuns] returns at most [count] instants, all strictly after
    [now], in strictly increasing order; when [count] is positive the result
    is not empty, and its first element is the earliest instant strictly
    after [now] among the configured times of the seven days of the
    horizon. *)
Theorem daily_next_runs (config : ScheduleConfig) (now : Z) (count fuel : nat)
    (times : list string) :
  repeatMode config = daily ->
  dailyTimes config = Some times ->
  times <> [] ->
  NoDup times ->
  Forall (fun s => validTime s = true) times ->
  exists runs,
    calculateNextRuns now count fuel config = Some runs /\
    (length runs <= count)%nat /\
    Forall (fun t => now < t) runs /\
    StronglySorted Z.lt runs /\
    ((0 < count)%nat -> runs <> []) /\
    forall first, head runs = Some first ->
      (exists d time,
          0 <= d < 7 /\ time ∈ times /\ dateAt now d time = Some first) /\
      (forall d time t,
          0 <= d < 7 -> time ∈ times -> dateAt now d time = Some t ->
          now < t -> first <= t).
Proof.
  intros Hmode Htimes Hne Hnd Hvalid.
  set (future := List.filter (fun t => now <? t) (dailyInstants now times)).
  assert (Hruns : calculateNextRuns now count fuel config = Some (take count future)).
  { unfold calculateNextRuns. rewrite Hmode, Htimes.
    destruct times as [|t0 ts]; [done|]. simpl.
    rewrite dailyRuns_collect, take_take, Nat.min_id.
    by rewrite dailyCandidates_valid, upcoming_valid. }
  assert (Hsorted : StronglySorted Z.lt future)
    by by apply filter_after_sorted, dailyInstants_sorted.
  exists (take count future). split_and!; [done|..].
  - rewrite length_take. lia.
  - apply Forall_forall. intros t Ht.
    apply elem_of_take in Ht as (i & Hi & _).
    apply list_elem_of_lookup_2 in Hi.
    by apply filter_after_elem_of in Hi as [_ ?].
  - by apply StronglySorted_take.
  - intros Hcount.
    destruct times as [|t0 ts]; [done|].
    assert (Hin : (Day now + 1) * msPerDay + timeMs t0 ∈ future).
    { apply filter_after_elem_of. split.
      - apply dailyInstants_elem_of; [done|].
        exists 1, t0. split; [lia|]. split; [by left|].
        apply dateAt_valid. by apply Forall_cons in Hvalid as [? _].
      - apply Forall_cons in Hvalid as [Hv _].
        pose proof (timeMs_range _ Hv). pose proof (Day_bounds now). lia. }
    destruct future as [|f0 fs]; [by apply elem_of_nil in Hin|].
    destruct count; [lia|]. done.
  - intros first Hhead. apply head_take in Hhead.
    split.
    + apply dailyInstants_elem_of; [done|].
      apply head_Some_elem_of in Hhead.
      by apply filter_after_elem_of in Hhead as [? _].
    + intros d time t Hd Htime Hdate Hlater.
      apply (sorted_head_least future); [done..|].
      apply filter_after_elem_of. split; [|done].
      apply dailyInstants_elem_of; [done|]. by exists d, time.
Qed.

Example daily_runs_computed :
  calculateNextRuns (10 * msPerHour) 3 0 everyMorningAndEvening
  = Some [20 * msPerHour + 30 * msPerMinute;
          msPerDay + 8 * msPerHour;
          msPerDay + 20 * msPerHour + 30 * msPerMinute].
Proof. reflexivity. Qed.

Lemma daily_next_runs_witness :
  exists runs,
    calculateNextRuns (10 * msPerHour) 3 0 everyMorningAndEvening = Some runs /\
    (length runs <= 3)%nat /\
    Forall (fun t => 10 * msPerHour < t) runs /\
    StronglySorted Z.lt runs /\
    ((0 < 3)%nat -> runs <> []) /\
    forall first, head runs = Some first ->
      (exists d time,
          0 <= d < 7 /\ time ∈ ["20:30"; "08:00"]%string /\
          dateAt (10 * msPerHour) d time = Some first) /\
      (forall d time t,
          0 <= d < 7 -> time ∈ ["20:30"; "08:00"]%string ->
          dateAt (10 * msPerHour) d time = Some t ->
          10 * msPerHour < t -> first <= t).
Proof.
  apply (daily_next_runs everyMorningAndEvening (10 * msPerHour) 3 0
           ["20:30"; "08:00"]%string).
  - reflexivity.
  - reflexivity.
  - discriminate.
  - apply NoDup_cons. split; [|apply NoDup_singleton].
    intros Hin. apply list_elem_of_singleton in Hin. discriminate.
  - repeat constructor.
Defined.

(** ** Cron expressions *)

Lemma crontab_too_short now count crontab :
  (length (splitWhite (trim crontab)) < 5)%nat ->
  calculateCrontabNextRuns now count crontab = [].
Proof.
  intros Hshort. unfold calculateCrontabNextRuns.
  by destruct (Nat.ltb_spec (length (splitWhite (trim crontab))) 5); [|lia].
Qed.

Lemma crontab_collect now count crontab :
  (5 <= length (splitWhite (trim crontab)))%nat ->
  calculateCrontabNextRuns now count crontab
  = take count
      (upcoming now
         (cronCandidates now (parseField (cronField crontab 1) 23)
                             (parseField (cronField crontab 0) 59))).
Proof.
  intros Hlen. unfold calculateCrontabNextRuns, cronCandidates, cronField.
  destruct (Nat.ltb_spec (length (splitWhite (trim crontab))) 5); [lia|].
  cbv zeta.
  set (hours := parseField _ 23). set (minutes := parseField _ 59).
  rewrite (forUpTo_collect now count
             (fun d => concat (map (fun h =>
                                      map (fun m => setHours (addDays (Some now) d) h m)
                                          minutes) hours))).
  - apply collect_from_empty.
  - intros d r Hr.
    apply (forOf_nested_collect now count
             (fun h => map (fun m => setHours (addDays (Some now) d) h m) minutes)
             hours
             (fun h results =>
                forOf minutes
                  (fun m => pushIfAfter now count
                              (setHours (addDays (Some now) d) h m)) results));
      [|done].
    intros h r' Hr'. by apply forOf_collect.
Qed.

Lemma upcoming_cons_later now t cands :
  now < t -> upcoming now (Some t :: cands) = t :: upcoming now cands.
Proof.
  intros Hlt. unfold upcoming. simpl.
  by destruct (Z.ltb_spec now t); [|lia].
Qed.

Lemma upcoming_cons_past now t cands :
  t <= now -> upcoming now (Some t :: cands) = upcoming now cands.
Proof.
  intros Hle. unfold upcoming. simpl.
  by destruct (Z.ltb_spec now t); [lia|].
Qed.

Lemma clock_fields day h m :
  0 <= h <= 23 -> 0 <= m <= 59 ->
  let t := day * msPerDay + h * msPerHour + m * msPerMinute in
  Day t = day /\ HourFromTime t = h /\ MinFromTime t = m /\
  msWithinMinute t = 0.
Proof.
  intros Hh Hm. unfold Day, HourFromTime, MinFromTime, msWithinMinute,
    msPerDay, msPerHour, msPerMinute. cbv zeta.
  repeat split; Z.to_euclidean_division_equations; lia.
Qed.

(** C5.  With the expression "0 9 * * *", a [now] that is a Monday at 10:00
    and a positive [count], the first instant returned is 09:00 of the next
    day, a Tuesday; and an expression with fewer than five fields gives the
    empty sequence. *)
Theorem crontab_nine_o_clock (now : Z) (count : nat) (crontab : string) :
  (WeekDay now = 1 -> HourFromTime now = 10 -> MinFromTime now = 0 ->
   (1 <= count)%nat ->
   exists first rest,
     calculateCrontabNextRuns now count "0 9 * * *" = first :: rest /\
     Day first = Day now + 1 /\ WeekDay first = 2 /\
     HourFromTime first = 9 /\ MinFromTime first = 0 /\
     msWithinMinute first = 0) /\
  ((length (splitWhite (trim crontab)) < 5)%nat ->
   calculateCrontabNextRuns now count crontab = []).
Proof.
  split; [|apply crontab_too_short].
  intros Hmonday Hhour Hminute Hcount.
  rewrite crontab_collect by (vm_compute; lia).
  change (parseField (cronField "0 9 * * *" 1) 23) with [Some 9].
  change (parseField (cronField "0 9 * * *" 0) 59) with [Some 0].
  unfold cronCandidates. cbn [dayOffsets map concat app].
  rewrite !setHours_addDays.
  pose proof (Day_bounds now) as Hday.
  assert (Hpast : Day now * msPerDay + 10 * msPerHour <= now).
  { revert Hhour. unfold HourFromTime, Day, msPerDay, msPerHour.
    intros. Z.to_euclidean_division_equations. lia. }
  rewrite upcoming_cons_past by (unfold msPerDay, msPerHour, msPerMinute in *; lia).
  rewrite upcoming_cons_later by (unfold msPerDay, msPerHour, msPerMinute in *; lia).
  destruct count as [|count]; [lia|]. cbn [take].
  eexists _, _. split; [reflexivity|].
  destruct (clock_fields (Day now + 1) 9 0) as (HD & HH & HM & HS); [lia..|].
  replace (0 + 1) with 1 by done.
  split_and!; [done| |done..].
  unfold WeekDay in *. rewrite HD.
  Z.to_euclidean_division_equations. lia.
Qed.

Example crontab_nine_computed :
  calculateCrontabNextRuns mondayTen 2 "0 9 * * *"
  = [5 * msPerDay + 9 * msPerHour; 6 * msPerDay + 9 * msPerHour].
Proof. reflexivity. Qed.

Lemma crontab_nine_o_clock_witness :
  (exists first rest,
     calculateCrontabNextRuns mondayTen 1 "0 9 * * *" = first :: rest /\
     Day first = Day mondayTen + 1 /\ WeekDay first = 2 /\
     HourFromTime first = 9 /\ MinFromTime first = 0 /\
     msWithinMinute first = 0) /\
  calculateCrontabNextRuns mondayTen 1 "0 9 * *" = [].
Proof.
  split.
  - apply (crontab_nine_o_clock mondayTen 1 "0 9 * *");
      [reflexivity | reflexivity | reflexivity | lia].
  - apply (crontab_nine_o_clock mondayTen 1 "0 9 * *"). vm_compute. lia.
Defined.

(** ** Cron fields *)



Lemma digit_not_white a : isDigit a = true -> negb (isWhite a) = true.
Proof. intros Ha. digit_split Ha; reflexivity. Qed.


Lemma includes_app c s1 s2 :
  includes c (s1 ++ s2) = includes c s1 || includes c s2.
Proof.
  induction s1 as [|a s1 IH]; simpl; [done|]. by destruct (Ascii.eqb a c).
Qed.





Lemma trim_noWhite s : noWhite s = true -> trim s = s.
Proof.
  intros Hs. unfold trim.
  assert (Hstart : trimStart s = s).
  { destruct s as [|a s]; simpl in *; [done|].
    apply andb_prop in Hs as [Ha _]. by destruct (isWhite a). }
  rewrite Hstart. clear Hstart.
  induction s as [|a s IH]; simpl in *; [done|].
  apply andb_prop in Hs as [Ha Hs]. rewrite IH by done.
  by destruct (isWhite a).
Qed.






Lemma ceilDiv_spec a b :
  0 < b -> (ceilDiv a b - 1) * b < a <= ceilDiv a b * b.
Proof.
  intros Hb. unfold ceilDiv. Z.to_euclidean_division_equations. nia.
Qed.

Example parseField_star_step :
  parseField "*/15" 59 = [Some 0; Some 15; Some 30; Some 45].
Proof. reflexivity. Qed.

Example parseField_range : parseField "1-5" 59 = map Some [1; 2; 3; 4; 5].
Proof. reflexivity. Qed.




(** ** Interval schedules *)

Lemma stepCount_spec a b step :
  0 < step ->
  (forall k, 0 <= k < Z.of_nat (stepCount a b step) -> a + k * step <= b) /\
  b < a + Z.of_nat (stepCount a b step) * step.
Proof.
  intros Hstep. unfold stepCount.
  destruct (Z.leb_spec a b) as [Hle|Hgt].
  - assert (Hq : 0 <= (b - a) / step) by (apply Z.div_pos; lia).
    rewrite Z2Nat.id by lia.
    pose proof (Z.div_mod (b - a) step ltac:(lia)) as Hdm.
    pose proof (Z.mod_pos_bound (b - a) step Hstep) as Hmod.
    split; [intros k Hk|]; nia.
  - simpl. split; [intros k Hk|]; lia.
Qed.

Lemma stepCount_bound a b step :
  0 < step -> 0 <= a -> b <= 23 -> (stepCount a b step <= 24)%nat.
Proof.
  intros Hstep Ha Hb. unfold stepCount.
  destruct (Z.leb_spec a b) as [Hle|Hgt]; [|lia].
  assert ((b - a) / step <= b - a).
  { apply Z.div_le_upper_bound; [lia|]. nia. }
  assert (0 <= (b - a) / step) by (apply Z.div_pos; lia).
  lia.
Qed.

Lemma hourSteps_elem_of n a step h :
  h ∈ hourSteps n a step <-> exists k, 0 <= k < Z.of_nat n /\ h = a + k * step.
Proof.
  revert a. induction n as [|n IH]; intros a; simpl.
  - rewrite elem_of_nil. split; [done|]. intros (k & Hk & _). lia.
  - rewrite elem_of_cons, IH. split.
    + intros [->|(k & Hk & ->)].
      * exists 0. lia.
      * exists (k + 1). lia.
    + intros (k & Hk & ->).
      destruct (decide (k = 0)) as [->|Hne]; [left; lia|].
      right. exists (k - 1). lia.
Qed.

(** With a positive step and enough fuel the loop over the hours is a loop
    over [hourSteps]. *)
Lemma forStep_forOf {S} (body : jsnum -> S -> Step S) n a b step fuel s :
  (forall k, 0 <= k < Z.of_nat n -> a + k * step <= b) ->
  b < a + Z.of_nat n * step ->
  (n < fuel)%nat ->
  forStep fuel (Some a) (Some b) step body s
  = Some (forOf (map Some (hourSteps n a step)) body s).
Proof.
  revert a fuel s. induction n as [|n IH]; intros a fuel s Hin Hout Hfuel.
  - destruct fuel as [|fuel]; [lia|]. simpl.
    by destruct (Z.leb_spec a b); [lia|].
  - destruct fuel as [|fuel]; [lia|]. simpl.
    specialize (Hin 0 ltac:(lia)) as Hfirst.
    destruct (Z.leb_spec a b); [|lia].
    destruct (body (Some a) s) as [s'|s']; [|done].
    apply IH; [|lia..].
    intros k Hk. specialize (Hin (k + 1) ltac:(lia)). lia.
Qed.

Section IntervalRuns.

Variable now : Z.
Variable count : nat.

Lemma intervalDays_collect fuel n from a m b step results :
  0 < step ->
  (stepCount a b step < fuel)%nat ->
  intervalDays now count fuel n from (Some a) (Some m) (Some b) step results
  = Some (collect now count
            (concat (map (intervalDay now m (hourSteps (stepCount a b step) a step))
                         (dayOffsets n from)))
            results).
Proof.
  intros Hstep Hfuel. revert from results.
  destruct (stepCount_spec a b step Hstep) as [Hin Hout].
  induction n as [|n IH]; intros from results; simpl.
  - by rewrite collect_nil.
  - unfold roomLeft at 1.
    destruct (Nat.ltb_spec (length results) count) as [Hroom|Hfull].
    + rewrite (forStep_forOf _ (stepCount a b step)) by done.
      rewrite (forOf_collect now count
                 (fun h => setHours (addDays (Some now) from) h (Some m)))
        by done.
      rewrite IH. by rewrite collect_app.
    + by rewrite collect_full.
Qed.

Lemma intervalDay_instants m hours d :
  intervalDay now m hours d
  = map Some (map (fun h => (Day now + d) * msPerDay + h * msPerHour
                            + m * msPerMinute) hours).
Proof.
  unfold intervalDay. rewrite !map_map. apply map_ext. intros h.
  apply setHours_addDays.
Qed.

End IntervalRuns.

Lemma parseInt_two_digits a b :
  isDigit a = true -> isDigit b = true ->
  parseInt (String a (String b EmptyString)) = Some (10 * digitVal a + digitVal b).
Proof. intros Ha Hb. digit_split Ha; digit_split Hb; reflexivity. Qed.

Lemma parseInt_valid_hour s h m :
  timeHM s = Some (h, m) ->
  parseInt (default EmptyString (split ":" s !! 0%nat)) = Some h.
Proof.
  intros E.
  apply timeHM_inv in E
    as (a & b & c & d & -> & Ha & Hb & Hc & Hd & -> & -> & _ & _).
  cbn [split].
  rewrite (digit_not_colon a), (digit_not_colon b), (digit_not_colon c),
    (digit_not_colon d) by done.
  change (Ascii.eqb ":" ":") with true. cbn [lookup list_lookup default].
  simpl default. by apply parseInt_two_digits.
Qed.

Lemma intervalRuns_valid now count fuel config startH startM endH endM :
  timeHM (stringOr (intervalStartTime config) "07:00") = Some (startH, startM) ->
  timeHM (stringOr (intervalEndTime config) "22:00") = Some (endH, endM) ->
  0 < orDefault (intervalHours config) 4 ->
  (25 <= fuel)%nat ->
  intervalRuns now count fuel config
  = Some (take count
            (List.filter (fun t => now <? t)
               (intervalInstants now startH startM endH
                  (orDefault (intervalHours config) 4)))).
Proof.
  intros Hstart Hend Hstep Hfuel. unfold intervalRuns. cbv zeta.
  rewrite (split_valid_time _ _ _ Hstart).
  change (numAt [Some startH; Some startM] 0) with (Some startH).
  change (numAt [Some startH; Some startM] 1) with (Some startM).
  assert (HendH :
    match intervalEndTime config with
    | Some (String a r) =>
        parseInt (default EmptyString (split ":" (String a r) !! 0%nat))
    | _ => Some 22
    end = Some endH).
  { destruct (intervalEndTime config) as [[|a r]|]; simpl in Hend.
    - by injection Hend as <- <-.
    - by apply (parseInt_valid_hour _ _ endM).
    - by injection Hend as <- <-. }
  rewrite HendH.
  apply timeHM_inv in Hstart as (? & ? & ? & ? & _ & _ & _ & _ & _ & _ & _ & Hsh & _).
  apply timeHM_inv in Hend as (? & ? & ? & ? & _ & _ & _ & _ & _ & _ & _ & Heh & _).
  rewrite intervalDays_collect; [|done|].
  2:{ pose proof (stepCount_bound startH endH _ Hstep ltac:(lia) ltac:(lia)). lia. }
  rewrite collect_from_empty, <- upcoming_valid.
  apply (f_equal Some), (f_equal (take count)), (f_equal (upcoming now)).
  unfold intervalInstants.
  rewrite concat_map, map_map. apply (f_equal (@concat _)).
  apply map_ext. intros d. apply intervalDay_instants.
Qed.

Lemma intervalInstants_elem_of now a m b step t :
  0 < step -> 0 <= a -> b <= 23 -> 0 <= m <= 59 ->
  t ∈ intervalInstants now a m b step ->
  a <= HourFromTime t <= b /\ MinFromTime t = m /\
  exists k, 0 <= k /\ HourFromTime t = a + k * step.
Proof.
  intros Hstep Ha Hb Hm. unfold intervalInstants.
  rewrite list_elem_of_In, in_concat. intros (l & Hl & Ht).
  apply in_map_iff in Hl as (d & <- & _).
  apply in_map_iff in Ht as (h & <- & Hh).
  apply list_elem_of_In, hourSteps_elem_of in Hh as (k & Hk & ->).
  destruct (stepCount_spec a b step Hstep) as [Hin _].
  specialize (Hin k Hk).
  destruct (clock_fields (Day now + d) (a + k * step) m) as (_ & HH & HM & _);
    [nia|done|].
  cbv zeta in HH, HM. rewrite HH, HM.
  split; [nia|]. split; [done|]. exists k. lia.
Qed.

(** C8.  For an interval schedule with valid zero-padded start and end
    times and a positive whole number of hours as step, every instant
    returned has its hour between the start hour
    and the end hour inclusive, at a whole number of steps from the start
    hour, and has the minute of the start time.  With a step of 4 hours from
    07:00 to 22:00 and [now] at 06:00 of a day, the first two instants are
    07:00 and 11:00 of that day, and no instant is later than hour 22. *)
Theorem interval_next_runs (config : ScheduleConfig) (now : Z)
    (count fuel : nat) (startH startM endH endM : Z) :
  repeatMode config = interval ->
  timeHM (stringOr (intervalStartTime config) "07:00") = Some (startH, startM) ->
  timeHM (stringOr (intervalEndTime config) "22:00") = Some (endH, endM) ->
  0 < orDefault (intervalHours config) 4 ->
  (25 <= fuel)%nat ->
  exists runs,
    calculateNextRuns now count fuel config = Some runs /\
    (forall t, t ∈ runs ->
       now < t /\
       startH <= HourFromTime t <= endH /\
       MinFromTime t = startM /\
       exists k, 0 <= k /\
         HourFromTime t = startH + k * orDefault (intervalHours config) 4) /\
    (intervalHours config = Some 4 ->
     intervalStartTime config = Some "07:00"%string ->
     intervalEndTime config = Some "22:00"%string ->
     HourFromTime now = 6 -> MinFromTime now = 0 -> (2 <= count)%nat ->
     (exists rest,
        runs = (Day now * msPerDay + 7 * msPerHour)
               :: (Day now * msPerDay + 11 * msPerHour) :: rest) /\
     (forall t, t ∈ runs -> HourFromTime t <= 22)).
Proof.
  intros Hmode Hstart Hend Hstep Hfuel.
  set (step := orDefault (intervalHours config) 4) in *.
  set (future := List.filter (fun t => now <? t)
                   (intervalInstants now startH startM endH step)).
  assert (Hruns : calculateNextRuns now count fuel config = Some (take count future)).
  { unfold calculateNextRuns. rewrite Hmode.
    rewrite (intervalRuns_valid now count fuel config startH startM endH endM)
      by done.
    fold step. fold future. simpl. by rewrite take_take, Nat.min_id. }
  assert (Hrange : 0 <= startH /\ endH <= 23 /\ 0 <= startM <= 59).
  { apply timeHM_inv in Hstart
      as (? & ? & ? & ? & _ & _ & _ & _ & _ & _ & _ & Hsh & Hsm).
    apply timeHM_inv in Hend
      as (? & ? & ? & ? & _ & _ & _ & _ & _ & _ & _ & Heh & _).
    lia. }
  destruct Hrange as (Hs0 & He23 & Hm).
  assert (Hall : forall t, t ∈ take count future ->
            now < t /\ startH <= HourFromTime t <= endH /\
            MinFromTime t = startM /\
            exists k, 0 <= k /\ HourFromTime t = startH + k * step).
  { intros t Ht. apply elem_of_take in Ht as (i & Hi & _).
    apply list_elem_of_lookup_2, filter_after_elem_of in Hi as [Hin Hlater].
    split; [done|]. by apply (intervalInstants_elem_of now). }
  exists (take count future). split_and!; [done|done|].
  intros Hfour Hseven Hten Hhour Hminute Hcount.
  rewrite Hseven in Hstart. rewrite Hten in Hend.
  change (Some (7, 0) = Some (startH, startM)) in Hstart.
  change (Some (22, 0) = Some (endH, endM)) in Hend.
  injection Hstart as <- <-. injection Hend as <- <-.
  split; [|intros t Ht; apply Hall in Ht as (_ & ? & _); lia].
  assert (Hstep4 : step = 4) by (subst step; by rewrite Hfour).
  assert (Hlist : exists rest,
    intervalInstants now 7 0 22 4
    = ((Day now + 0) * msPerDay + 7 * msPerHour + 0 * msPerMinute)
      :: ((Day now + 0) * msPerDay + 11 * msPerHour + 0 * msPerMinute)
      :: rest) by (eexists; reflexivity).
  destruct Hlist as [rest Hlist].
  assert (Hearly : now < Day now * msPerDay + 7 * msPerHour).
  { revert Hhour. unfold HourFromTime, Day, msPerDay, msPerHour.
    intros. Z.to_euclidean_division_equations. lia. }
  subst future. rewrite Hstep4, Hlist. cbn [List.filter].
  replace ((Day now + 0) * msPerDay + 7 * msPerHour + 0 * msPerMinute)
    with (Day now * msPerDay + 7 * msPerHour) by lia.
  replace ((Day now + 0) * msPerDay + 11 * msPerHour + 0 * msPerMinute)
    with (Day now * msPerDay + 11 * msPerHour) by lia.
  destruct (Z.ltb_spec now (Day now * msPerDay + 7 * msPerHour)); [|lia].
  destruct (Z.ltb_spec now (Day now * msPerDay + 11 * msPerHour));
    [|unfold msPerHour in *; lia].
  destruct count as [|[|count]]; [lia..|].
  cbn [take]. by eexists.
Qed.

Example interval_runs_computed :
  calculateNextRuns daySix 5 25 everyFourHours
  = Some [4 * msPerDay + 7 * msPerHour; 4 * msPerDay + 11 * msPerHour;
          4 * msPerDay + 15 * msPerHour; 4 * msPerDay + 19 * msPerHour;
          5 * msPerDay + 7 * msPerHour].
Proof. reflexivity. Qed.

Lemma interval_next_runs_witness :
  exists runs,
    calculateNextRuns daySix 5 25 everyFourHours = Some runs /\
    (forall t, t ∈ runs ->
       daySix < t /\ 7 <= HourFromTime t <= 22 /\ MinFromTime t = 0 /\
       exists k, 0 <= k /\ HourFromTime t = 7 + k * 4) /\
    (exists rest,
       runs = (Day daySix * msPerDay + 7 * msPerHour)
              :: (Day daySix * msPerDay + 11 * msPerHour) :: rest) /\
    (forall t, t ∈ runs -> HourFromTime t <= 22).
Proof.
  destruct (interval_next_runs everyFourHours daySix 5 25 7 0 22 0)
    as (runs & Hruns & Hall & Hfirst);
    [reflexivity | reflexivity | reflexivity | reflexivity | lia |].
  exists runs. split; [exact Hruns|]. split; [exact Hall|].
  apply Hfirst; [reflexivity | reflexivity | reflexivity | reflexivity
                | reflexivity | lia].
Defined.

(** An interval schedule whose stored end time is past midnight: the hours
    24 and 26 of the loop fall at 0 and 2 of the next day, outside the window
    and at no whole number of steps from the start hour. *)
Lemma interval_hours_leave_the_window :
  repeatMode pastMidnight = interval /\
  intervalHours pastMidnight = Some 2 /\
  intervalStartTime pastMidnight = Some "22:00"%string /\
  intervalEndTime pastMidnight = Some "26:00"%string /\
  calculateNextRuns daySix 3 25 pastMidnight
  = Some [4 * msPerDay + 22 * msPerHour; 5 * msPerDay; 5 * msPerDay + 2 * msPerHour] /\
  HourFromTime (5 * msPerDay) = 0 /\
  HourFromTime (5 * msPerDay + 2 * msPerHour) = 2 /\
  ~ (22 <= HourFromTime (5 * msPerDay) <= 26) /\
  ~ (exists k, 0 <= k /\ HourFromTime (5 * msPerDay) = 22 + k * 2).
Proof.
  split_and!; try reflexivity.
  - change (HourFromTime (5 * msPerDay)) with 0. lia.
  - change (HourFromTime (5 * msPerDay)) with 0. intros (k & Hk & Heq). lia.
Qed.

(** ** History log *)

Lemma StronglySorted_weaken {A} (R R' : relation A) l :
  (forall a b, R a b -> R' a b) -> StronglySorted R l -> StronglySorted R' l.
Proof.
  intros HR. induction 1 as [|x l Hs IH Hall]; constructor; [done|].
  eapply Forall_impl; [exact Hall|]. auto.
Qed.

Lemma sortBy_newestFirst l : newestFirstOrder (sortBy newestFirst l).
Proof.
  unfold newestFirstOrder.
  apply StronglySorted_weaken
    with (R := byKey (fun r => - timestamp r)).
  - unfold byKey. intros a b. lia.
  - apply sortBy_sorted with (P := fun _ => True).
    + intros a b _ _. unfold newestFirst.
      destruct (Z.leb_spec (timestamp b - timestamp a) 0),
        (Z.leb_spec (- timestamp a) (- timestamp b)); lia || done.
    + by apply Forall_true.
Qed.

Lemma capped_sorted_invariant l :
  historyInvariant (take MAX_HISTORY_ITEMS (sortBy newestFirst l)).
Proof.
  split.
  - rewrite length_take. lia.
  - apply StronglySorted_take, sortBy_newestFirst.
Qed.

Lemma loadHistory_invariant response : historyInvariant (loadHistory response).
Proof.
  destruct response as [records|]; simpl.
  - apply capped_sorted_invariant.
  - split; [simpl; unfold MAX_HISTORY_ITEMS; lia|constructor].
Qed.

Lemma appendHistoryRecords_invariant records prev :
  historyInvariant prev -> historyInvariant (appendHistoryRecords records prev).
Proof.
  intros Hprev. destruct records as [|r records]; simpl; [done|].
  apply (capped_sorted_invariant (r :: records ++ prev)).
Qed.

Lemma historyStep_invariant state op :
  historyInvariant state -> historyInvariant (historyStep state op).
Proof.
  intros Hstate. destruct op as [response|records|]; simpl.
  - apply loadHistory_invariant.
  - by apply appendHistoryRecords_invariant.
  - split; [simpl; unfold MAX_HISTORY_ITEMS; lia|constructor].
Qed.

(** What an append keeps: the merged records, newest first, cut at the
    capacity; the records cut off are no newer than the ones kept. *)
Lemma appendHistoryRecords_merges r records prev :
  let merged := sortBy newestFirst ((r :: records) ++ prev) in
  merged ≡ₚ (r :: records) ++ prev /\
  appendHistoryRecords (r :: records) prev = take MAX_HISTORY_ITEMS merged /\
  forall kept cut,
    kept ∈ take MAX_HISTORY_ITEMS merged ->
    cut ∈ drop MAX_HISTORY_ITEMS merged ->
    timestamp cut <= timestamp kept.
Proof.
  cbv zeta. split; [apply sortBy_perm|]. split; [done|].
  intros kept cut Hkept Hcut.
  pose proof (sortBy_newestFirst ((r :: records) ++ prev)) as Hs.
  unfold newestFirstOrder in Hs.
  rewrite <- (take_drop MAX_HISTORY_ITEMS) in Hs.
  by apply (StronglySorted_app_1_elem_of _ _ _ _ _ Hs).
Qed.

(** What a load keeps: records with a numeric timestamp only. *)
Lemma loadHistory_timed records r :
  r ∈ loadHistory (Some records) -> TimedItem r ∈ records.
Proof.
  simpl. intros Hr. apply elem_of_take in Hr as (i & Hi & _).
  apply list_elem_of_lookup_2, sortBy_elem_of in Hi.
  apply list_elem_of_omap in Hi as (item & Hitem & Htimed).
  destruct item; simpl in Htimed; try discriminate.
  by injection Htimed as ->.
Qed.

Lemma kept_newer_than_cut (l : list WakeupHistoryRecord) kept cut :
  kept ∈ take MAX_HISTORY_ITEMS (sortBy newestFirst l) ->
  cut ∈ drop MAX_HISTORY_ITEMS (sortBy newestFirst l) ->
  timestamp cut <= timestamp kept.
Proof.
  intros Hkept Hcut.
  pose proof (sortBy_newestFirst l) as Hs.
  unfold newestFirstOrder in Hs.
  rewrite <- (take_drop MAX_HISTORY_ITEMS) in Hs.
  by apply (StronglySorted_app_1_elem_of _ _ _ _ _ Hs).
Qed.

Lemma runHistory_invariant ops : historyInvariant (runHistory ops).
Proof.
  unfold runHistory.
  assert (Hinit : historyInvariant []).
  { split; [simpl; unfold MAX_HISTORY_ITEMS; lia|constructor]. }
  revert Hinit. generalize (@nil WakeupHistoryRecord) as state.
  induction ops as [|op ops IH]; intros state Hstate; simpl.
  - exact Hstate.
  - by apply IH, historyStep_invariant.
Qed.

(** C3.  After any sequence of loads, appends and clears the history log
    holds at most 100 records and is sorted by timestamp, newest first.  An
    append of a non-empty batch merges the batch with the records held: the
    result, together with the records cut off, is exactly the batch and the
    records held; it has 100 records, or all of them when they are fewer; it
    is sorted newest first; and no record cut off is newer than one that is
    kept.  An append of nothing leaves the log as it is.  A load keeps, in
    the same way, the records of the answer that have a numeric timestamp,
    and only them; a load that fails gives the empty log. *)
Theorem history_log_invariant (ops : list HistoryOp)
    (records prev : list WakeupHistoryRecord) (response : list StoredItem) :
  ((length (runHistory ops) <= 100)%nat /\
   StronglySorted (fun a b => timestamp b <= timestamp a) (runHistory ops)) /\
  (exists cut,
     appendHistoryRecords records prev ++ cut ≡ₚ records ++ prev /\
     (records <> [] ->
      length (appendHistoryRecords records prev)
        = Nat.min 100 (length records + length prev) /\
      StronglySorted (fun a b => timestamp b <= timestamp a)
        (appendHistoryRecords records prev) /\
      forall kept dropped,
        kept ∈ appendHistoryRecords records prev -> dropped ∈ cut ->
        timestamp dropped <= timestamp kept) /\
     (records = [] -> appendHistoryRecords records prev = prev)) /\
  (exists cut,
     loadHistory (Some response) ++ cut ≡ₚ omap timedRecord response /\
     length (loadHistory (Some response))
       = Nat.min 100 (length (omap timedRecord response)) /\
     StronglySorted (fun a b => timestamp b <= timestamp a)
       (loadHistory (Some response)) /\
     (forall kept dropped,
        kept ∈ loadHistory (Some response) -> dropped ∈ cut ->
        timestamp dropped <= timestamp kept) /\
     (forall r, r ∈ omap timedRecord response <-> TimedItem r ∈ response)) /\
  loadHistory None = [].
Proof.
  split_and!.
  - apply runHistory_invariant.
  - apply runHistory_invariant.
  - destruct records as [|r records].
    + exists []. split_and!; [by rewrite app_nil_r|done|done].
    + exists (drop MAX_HISTORY_ITEMS (sortBy newestFirst ((r :: records) ++ prev))).
      unfold appendHistoryRecords. split_and!.
      * by rewrite take_drop, sortBy_perm.
      * intros _. split_and!.
        -- rewrite length_take, sortBy_length, length_app. done.
        -- apply capped_sorted_invariant.
        -- intros kept dropped. apply kept_newer_than_cut.
      * done.
  - exists (drop MAX_HISTORY_ITEMS (sortBy newestFirst (omap timedRecord response))).
    unfold loadHistory. split_and!.
    + by rewrite take_drop, sortBy_perm.
    + by rewrite length_take, sortBy_length.
    + apply capped_sorted_invariant.
    + intros kept dropped. apply kept_newer_than_cut.
    + intros r. rewrite list_elem_of_omap. split.
      * intros (item & Hitem & Htimed).
        destruct item; simpl in Htimed; try discriminate.
        by injection Htimed as ->.
      * intros Hin. by exists (TimedItem r).
  - done.
Qed.

Lemma history_log_invariant_witness :
  length (appendHistoryRecords [historyEntry "c" 30]
            [historyEntry "b" 20; historyEntry "a" 10]) = 3%nat /\
  (forall r, r ∈ omap timedRecord
                   [TimedItem (historyEntry "a" 10); UntimedItem; FalsyItem]
             <-> TimedItem r ∈ [TimedItem (historyEntry "a" 10); UntimedItem;
                                FalsyItem]).
Proof.
  destruct (history_log_invariant []
              [historyEntry "c" 30] [historyEntry "b" 20; historyEntry "a" 10]
              [TimedItem (historyEntry "a" 10); UntimedItem; FalsyItem])
    as (_ & (cut & _ & Hmerge & _) & (cut' & _ & _ & _ & _ & Htimed) & _).
  split; [|exact Htimed].
  apply Hmerge. discriminate.
Defined.

(** ** Schedule normalisation *)

Lemma nonEmptyOr_rule {A} (input : option (list A)) d :
  listFieldRule input (Some (nonEmptyOr input d)) d.
Proof.
  split.
  - intros l -> Hl. by destruct l.
  - by intros [->| ->].
Qed.

Lemma stringOr_rule input d : stringFieldRule input (Some (stringOr input d)) d.
Proof.
  split.
  - intros s -> Hs. by destruct s.
  - by intros [->| ->].
Qed.

Lemma nonEmptyOr_again {A} (input : option (list A)) d :
  d <> [] -> nonEmptyOr (Some (nonEmptyOr input d)) d = nonEmptyOr input d.
Proof. intros Hd. destruct input as [[|x l]|], d; done. Qed.

Lemma stringOr_again input d :
  d <> EmptyString -> stringOr (Some (stringOr input d)) d = stringOr input d.
Proof. intros Hd. destruct input as [[|a s]|], d; done. Qed.

Lemma normalizeSchedule_idempotent x :
  normalizeSchedule (normalizeSchedule x) = normalizeSchedule x.
Proof.
  unfold normalizeSchedule. cbn [repeatMode dailyTimes weeklyDays weeklyTimes
    intervalHours intervalStartTime intervalEndTime selectedModels
    selectedAccounts crontab wakeOnReset customPrompt maxOutputTokens
    timeWindowEnabled timeWindowStart timeWindowEnd fallbackTimes].
  rewrite !nonEmptyOr_again, !stringOr_again by done.
  f_equal. f_equal.
  destruct (intervalHours x) as [n|]; [|done].
  destruct (Z.eqb_spec n 0), (Z.ltb_spec 0 n); simpl; try done.
  destruct (Z.eqb_spec n 0), (Z.ltb_spec 0 n); simpl; try done; lia.
Qed.

(** C6, as the code has it.  [normalizeSchedule] is idempotent; a non-empty
    list field keeps exactly its values, and an empty or absent one takes its
    default; a non-empty interval bound is kept and an empty or absent one
    takes 07:00 or 22:00; [intervalHours] is kept when it is a positive
    number and takes 4 otherwise, a negative number included; the remaining
    fields are not touched. *)
Theorem normalize_schedule (x : ScheduleConfig) :
  let y := normalizeSchedule x in
  normalizeSchedule y = y /\
  listFieldRule (dailyTimes x) (dailyTimes y) ["08:00"%string] /\
  listFieldRule (weeklyDays x) (weeklyDays y) [1; 2; 3; 4; 5] /\
  listFieldRule (weeklyTimes x) (weeklyTimes y) ["08:00"%string] /\
  listFieldRule (fallbackTimes x) (fallbackTimes y) ["07:00"%string] /\
  stringFieldRule (intervalStartTime x) (intervalStartTime y) "07:00" /\
  stringFieldRule (intervalEndTime x) (intervalEndTime y) "22:00" /\
  (forall n, intervalHours x = Some n -> 0 < n -> intervalHours y = Some n) /\
  (intervalHours x = None \/ (exists n, intervalHours x = Some n /\ n <= 0) ->
   intervalHours y = Some 4) /\
  maxOutputTokens y = Some (default 0 (maxOutputTokens x)) /\
  repeatMode y = repeatMode x /\
  selectedModels y = selectedModels x /\
  selectedAccounts y = selectedAccounts x /\
  crontab y = crontab x /\ wakeOnReset y = wakeOnReset x /\
  customPrompt y = customPrompt x /\
  timeWindowEnabled y = timeWindowEnabled x /\
  timeWindowStart y = timeWindowStart x /\
  timeWindowEnd y = timeWindowEnd x.
Proof.
  cbv zeta. split; [apply normalizeSchedule_idempotent|].
  unfold normalizeSchedule; cbn [repeatMode dailyTimes weeklyDays weeklyTimes
    intervalHours intervalStartTime intervalEndTime selectedModels
    selectedAccounts crontab wakeOnReset customPrompt maxOutputTokens
    timeWindowEnabled timeWindowStart timeWindowEnd fallbackTimes].
  split_and!; try done; try apply nonEmptyOr_rule; try apply stringOr_rule.
  - intros n -> Hn.
    by destruct (Z.eqb_spec n 0), (Z.ltb_spec 0 n); simpl; try lia.
  - intros [->|(n & -> & Hn)]; [done|].
    by destruct (Z.eqb_spec n 0), (Z.ltb_spec 0 n); simpl; try lia.
Qed.

Lemma normalize_schedule_witness :
  normalizeSchedule (normalizeSchedule backwardsInterval)
    = normalizeSchedule backwardsInterval /\
  dailyTimes (normalizeSchedule backwardsInterval) = Some ["09:30"; "18:00"]%string /\
  weeklyDays (normalizeSchedule backwardsInterval) = Some [1; 2; 3; 4; 5] /\
  intervalEndTime (normalizeSchedule backwardsInterval) = Some "22:00"%string /\
  intervalHours (normalizeSchedule backwardsInterval) = Some 4.
Proof.
  destruct (normalize_schedule backwardsInterval)
    as (Hidem & Hdaily & Hdays & _ & _ & _ & Hend & _ & Hhours & _).
  split; [exact Hidem|]. split.
  - apply (proj1 Hdaily ["09:30"; "18:00"]%string); [reflexivity|discriminate].
  - split; [apply (proj2 Hdays); right; reflexivity|].
    split; [apply (proj2 Hend); right; reflexivity|].
    apply Hhours. right. exists (-3). split; [reflexivity|lia].
Defined.

(** A present, non-empty [intervalHours] that is replaced by the default. *)
Lemma normalize_replaces_negative_step :
  intervalHours backwardsInterval = Some (-3) /\
  intervalHours (normalizeSchedule backwardsInterval) = Some 4 /\
  intervalHours (normalizeSchedule backwardsInterval)
    <> intervalHours backwardsInterval.
Proof. repeat split. discriminate. Qed.

(** ** Trigger mode *)

Lemma formSchedule_flags f :
  crontab (formSchedule f)
    = (if isCrontabMode (formTriggerMode f) then Some (trim (formCrontab f))
       else None) /\
  wakeOnReset (formSchedule f) = Some (isQuotaResetMode (formTriggerMode f)).
Proof.
  unfold formSchedule, normalizeSchedule, spread. simpl.
  split; [|done]. by destruct (isCrontabMode (formTriggerMode f)).
Qed.

Lemma handleSaveTask_schedule f now freshId tasks saved next :
  handleSaveTask f now freshId tasks = Some (saved, next) ->
  schedule saved = formSchedule f /\
  (isCrontabMode (formTriggerMode f) = true ->
   isEmpty (trim (formCrontab f)) = false).
Proof.
  unfold handleSaveTask.
  destruct (isEmpty (trim (formName f))); [done|].
  destruct (bool_decide (formSelectedAccounts f = [])); [done|].
  destruct (bool_decide (formSelectedModels f = [])); [done|].
  destruct (isCrontabMode (formTriggerMode f)) eqn:Hmode;
    destruct (isEmpty (trim (formCrontab f))) eqn:Hcron; simpl; try done;
    intros [= <- _]; done.
Qed.

(** C9, as the code has it.  The trigger mode is derived from the two flags,
    [wakeOnReset] first: a true [wakeOnReset] gives QuotaReset; otherwise a
    non-empty cron expression gives Crontab; otherwise the mode is Scheduled.
    A task produced by a save carries a non-empty cron expression exactly in
    Crontab mode and a true [wakeOnReset] exactly in QuotaReset mode, never
    both, and its derived mode is the one chosen in the form. *)
Theorem trigger_mode_derived (task : WakeupTask) (f : TaskForm) (now : Z)
    (freshId : string) (tasks : list WakeupTask) (saved : WakeupTask)
    (next : list WakeupTask) :
  handleSaveTask f now freshId tasks = Some (saved, next) ->
  (truthyBool (wakeOnReset (schedule task)) = true ->
   getTriggerMode task = quota_reset) /\
  (truthyBool (wakeOnReset (schedule task)) = false ->
   truthyString (crontab (schedule task)) = true ->
   getTriggerMode task = crontab_mode) /\
  (truthyBool (wakeOnReset (schedule task)) = false ->
   truthyString (crontab (schedule task)) = false ->
   getTriggerMode task = scheduled) /\
  (truthyString (crontab (schedule saved)) = true <->
   formTriggerMode f = crontab_mode) /\
  (truthyBool (wakeOnReset (schedule saved)) = true <->
   formTriggerMode f = quota_reset) /\
  ~ (truthyString (crontab (schedule saved)) = true /\
     truthyBool (wakeOnReset (schedule saved)) = true) /\
  getTriggerMode saved = formTriggerMode f.
Proof.
  intros Hsave.
  apply handleSaveTask_schedule in Hsave as [Hschedule Hcron].
  destruct (formSchedule_flags f) as [Hc Hw].
  unfold getTriggerMode. rewrite Hschedule, Hc, Hw.
  split_and!.
  - by intros ->.
  - by intros -> ->.
  - by intros -> ->.
  - destruct (formTriggerMode f); simpl in *; split; try done.
    intros _. specialize (Hcron eq_refl).
    by destruct (trim (formCrontab f)).
  - destruct (formTriggerMode f); simpl; split; done.
  - destruct (formTriggerMode f); simpl; intros [? ?]; done.
  - destruct (formTriggerMode f); simpl in *; try done.
    specialize (Hcron eq_refl). by destruct (trim (formCrontab f)).
Qed.

Lemma trigger_mode_derived_witness :
  getTriggerMode bothFlags = quota_reset /\
  crontab (schedule crontabSaved) = Some "0 3 * * *"%string /\
  getTriggerMode crontabSaved = crontab_mode.
Proof.
  destruct (trigger_mode_derived bothFlags crontabForm 1000 "fresh" []
              crontabSaved [crontabSaved])
    as (Hquota & _ & _ & _ & _ & _ & Hsaved); [reflexivity|].
  split; [apply Hquota; reflexivity|].
  split; [reflexivity|exact Hsaved].
Defined.

(** A non-empty cron expression whose task is not in Crontab mode. *)
Lemma cron_present_but_quota_reset :
  truthyString (crontab (schedule bothFlags)) = true /\
  getTriggerMode bothFlags = quota_reset /\
  getTriggerMode bothFlags <> crontab_mode.
Proof. repeat split. discriminate. Qed.

(** ** Legacy storage keys *)

Lemma read_current key legacyKey (store : gmap string string) value :
  store !! key = Some value ->
  readStorageWithLegacy key legacyKey store = (Some value, store).
Proof. intros Hcur. unfold readStorageWithLegacy. by rewrite Hcur. Qed.

Lemma read_migrates key legacyKey (store : gmap string string) legacyValue :
  key <> legacyKey ->
  store !! key = None -> store !! legacyKey = Some legacyValue ->
  exists store',
    readStorageWithLegacy key legacyKey store = (Some legacyValue, store') /\
    store' !! key = Some legacyValue /\ store' !! legacyKey = None /\
    forall k, k <> key -> k <> legacyKey -> store' !! k = store !! k.
Proof.
  intros Hne Hcur Hold. unfold readStorageWithLegacy. rewrite Hcur, Hold.
  eexists. split; [done|]. split_and!.
  - by rewrite lookup_delete_ne, lookup_insert_eq.
  - by rewrite lookup_delete_eq.
  - intros k Hk Hk'. by rewrite lookup_delete_ne, lookup_insert_ne.
Qed.

Lemma read_nothing key legacyKey (store : gmap string string) :
  store !! key = None -> store !! legacyKey = None ->
  readStorageWithLegacy key legacyKey store = (None, store).
Proof. intros Hcur Hold. unfold readStorageWithLegacy. by rewrite Hcur, Hold. Qed.

(** A second read finds what the first one left and changes nothing. *)
Lemma read_once key legacyKey (store : gmap string string) :
  key <> legacyKey ->
  let '(value, store') := readStorageWithLegacy key legacyKey store in
  readStorageWithLegacy key legacyKey store' = (value, store').
Proof.
  intros Hne. unfold readStorageWithLegacy.
  destruct (store !! key) as [v|] eqn:Hcur.
  - by rewrite Hcur.
  - destruct (store !! legacyKey) as [w|] eqn:Hold.
    + by rewrite lookup_delete_ne, lookup_insert_eq.
    + by rewrite Hcur, Hold.
Qed.

Lemma write_cleans key legacyKey value (store : gmap string string) :
  key <> legacyKey ->
  let store' : gmap string string :=
    writeStorageAndCleanupLegacy key legacyKey value store in
  store' !! key = Some value /\ store' !! legacyKey = None /\
  forall k, k <> key -> k <> legacyKey -> store' !! k = store !! k.
Proof.
  intros Hne. unfold writeStorageAndCleanupLegacy.
  rewrite bool_decide_true by done. cbv zeta. split_and!.
  - by rewrite lookup_delete_ne, lookup_insert_eq.
  - by rewrite lookup_delete_eq.
  - intros k Hk Hk'. by rewrite lookup_delete_ne, lookup_insert_ne.
Qed.

Section InstanceStoreProperties.

Context {InstanceProfile : Type}.
Variable parseArray : string -> option (list InstanceProfile).
Variable stringify : list InstanceProfile -> string.
Variable cacheKey : string.

(** A populated cache key is read as it is, the legacy keys are not looked
    at. *)
Lemma loadCached_current legacyKeys (store : gmap string string) a r :
  store !! cacheKey = Some (String a r) ->
  loadCachedInstances parseArray cacheKey legacyKeys store
  = (default [] (parseArray (String a r)), store).
Proof. intros Hcur. unfold loadCachedInstances. by rewrite Hcur. Qed.

(** With an empty cache key the first populated legacy key is moved to
    it. *)
Lemma loadCached_migrates legacyKey legacyKeys (store : gmap string string) a r :
  cacheKey <> legacyKey ->
  parseCachedInstances parseArray (store !! cacheKey) = None ->
  store !! legacyKey = Some (String a r) ->
  exists store',
    loadCachedInstances parseArray cacheKey (legacyKey :: legacyKeys) store
    = (default [] (parseArray (String a r)), store') /\
    store' !! cacheKey = Some (String a r) /\ store' !! legacyKey = None.
Proof.
  intros Hne Hcur Hold. unfold loadCachedInstances. rewrite Hcur.
  simpl. rewrite Hold. simpl. eexists. split; [done|]. split.
  - by rewrite lookup_delete_ne, lookup_insert_eq.
  - by rewrite lookup_delete_eq.
Qed.

Lemma removeLegacy_cache legacyKeys (store : gmap string string) :
  foldl (removeLegacy cacheKey) store legacyKeys !! cacheKey = store !! cacheKey.
Proof.
  revert store. induction legacyKeys as [|k ks IH]; intros store; simpl; [done|].
  rewrite IH. unfold removeLegacy. case_bool_decide; [|done].
  by rewrite lookup_delete_ne.
Qed.

Lemma removeLegacy_stays_gone legacyKeys (store : gmap string string) k :
  store !! k = None -> foldl (removeLegacy cacheKey) store legacyKeys !! k = None.
Proof.
  revert store. induction legacyKeys as [|k' ks IH]; intros store Hk; simpl;
    [done|].
  apply IH. unfold removeLegacy. case_bool_decide; [|done].
  destruct (decide (k' = k)) as [->|Hne].
  - by rewrite lookup_delete_eq.
  - by rewrite lookup_delete_ne.
Qed.

Lemma removeLegacy_removes legacyKeys (store : gmap string string) k :
  k ∈ legacyKeys -> k <> cacheKey ->
  foldl (removeLegacy cacheKey) store legacyKeys !! k = None.
Proof.
  revert store. induction legacyKeys as [|k' ks IH]; intros store Hin Hne; simpl.
  - by apply elem_of_nil in Hin.
  - destruct (decide (k' = k)) as [->|Hk'].
    + apply removeLegacy_stays_gone. unfold removeLegacy.
      rewrite bool_decide_true by done. by rewrite lookup_delete_eq.
    + apply IH; [|done]. apply elem_of_cons in Hin as [->|Hin]; done.
Qed.

(** Every write of the cache removes every legacy key. *)
Lemma persist_cleans (legacyKeys : list string)
    (instances : list InstanceProfile) (store : gmap string string) :
  let store' : gmap string string :=
    persistInstancesCache stringify cacheKey legacyKeys instances store in
  store' !! cacheKey = Some (stringify instances) /\
  forall legacyKey, legacyKey ∈ legacyKeys -> legacyKey <> cacheKey ->
    store' !! legacyKey = None.
Proof.
  cbv zeta. unfold persistInstancesCache. split.
  - by rewrite removeLegacy_cache, lookup_insert_eq.
  - intros legacyKey Hin Hne. by apply removeLegacy_removes.
Qed.

End InstanceStoreProperties.

(** C10, as the code has it.  With distinct current and legacy keys: a read
    that finds the current key populated returns its value and changes
    nothing, the legacy key included; a read that finds it empty and the
    legacy key populated copies the legacy value to the current key, removes
    the legacy key and returns the value; a read that finds neither returns
    nothing; a second read returns the same value and changes nothing; a
    write sets the current key and removes the legacy key.  So the legacy key
    is gone after every write and after every read that found the current
    key empty.  The instance cache behaves alike on non-empty values. *)
Theorem legacy_key_migration (key legacyKey value : string)
    (store : gmap string string) {InstanceProfile : Type}
    (parseArray : string -> option (list InstanceProfile))
    (stringify : list InstanceProfile -> string)
    (legacyKeys : list string) (instances : list InstanceProfile) :
  key <> legacyKey ->
  (forall v, store !! key = Some v ->
     readStorageWithLegacy key legacyKey store = (Some v, store)) /\
  (forall w, store !! key = None -> store !! legacyKey = Some w ->
     exists store' : gmap string string,
       readStorageWithLegacy key legacyKey store = (Some w, store') /\
       store' !! key = Some w /\ store' !! legacyKey = None /\
       forall k, k <> key -> k <> legacyKey -> store' !! k = store !! k) /\
  (store !! key = None -> store !! legacyKey = None ->
     readStorageWithLegacy key legacyKey store = (None, store)) /\
  (store !! key = None ->
     (readStorageWithLegacy key legacyKey store).2 !! legacyKey = None) /\
  (readStorageWithLegacy key legacyKey
     (readStorageWithLegacy key legacyKey store).2
   = readStorageWithLegacy key legacyKey store) /\
  (writeStorageAndCleanupLegacy key legacyKey value store !! key = Some value /\
   writeStorageAndCleanupLegacy key legacyKey value store !! legacyKey = None /\
   forall k, k <> key -> k <> legacyKey ->
     writeStorageAndCleanupLegacy key legacyKey value store !! k = store !! k) /\
  (forall a r, store !! key = Some (String a r) ->
     loadCachedInstances parseArray key (legacyKey :: legacyKeys) store
     = (default [] (parseArray (String a r)), store)) /\
  (forall a r,
     parseCachedInstances parseArray (store !! key) = None ->
     store !! legacyKey = Some (String a r) ->
     exists store' : gmap string string,
       loadCachedInstances parseArray key (legacyKey :: legacyKeys) store
       = (default [] (parseArray (String a r)), store') /\
       store' !! key = Some (String a r) /\ store' !! legacyKey = None) /\
  (persistInstancesCache stringify key (legacyKey :: legacyKeys) instances store
     !! key = Some (stringify instances) /\
   persistInstancesCache stringify key (legacyKey :: legacyKeys) instances store
     !! legacyKey = None).
Proof.
  intros Hne. split_and!.
  - intros v. apply read_current.
  - intros w. by apply read_migrates.
  - apply read_nothing.
  - intros Hcur. unfold readStorageWithLegacy. rewrite Hcur.
    destruct (store !! legacyKey) eqn:Hold; simpl; [|done].
    by rewrite lookup_delete_eq.
  - pose proof (read_once key legacyKey store Hne) as Honce.
    by destruct (readStorageWithLegacy key legacyKey store) as [v store'].
  - apply (write_cleans key legacyKey value store Hne).
  - apply (write_cleans key legacyKey value store Hne).
  - apply (write_cleans key legacyKey value store Hne).
  - intros a r. apply loadCached_current.
  - intros a r. by apply loadCached_migrates.
  - apply persist_cleans.
  - apply persist_cleans; [by left|done].
Qed.

Lemma legacy_key_migration_witness :
  (exists store' : gmap string string,
     readStorageWithLegacy TASKS_STORAGE_KEY LEGACY_TASKS_STORAGE_KEY legacyOnly
     = (Some "[1]"%string, store') /\
     store' !! TASKS_STORAGE_KEY = Some "[1]"%string /\
     store' !! LEGACY_TASKS_STORAGE_KEY = None) /\
  readStorageWithLegacy TASKS_STORAGE_KEY LEGACY_TASKS_STORAGE_KEY bothKeys
  = (Some "[2]"%string, bothKeys) /\
  writeStorageAndCleanupLegacy TASKS_STORAGE_KEY LEGACY_TASKS_STORAGE_KEY "[3]"
    bothKeys !! LEGACY_TASKS_STORAGE_KEY = None.
Proof.
  assert (Hne : TASKS_STORAGE_KEY <> LEGACY_TASKS_STORAGE_KEY) by discriminate.
  split; [|split].
  - destruct (legacy_key_migration TASKS_STORAGE_KEY LEGACY_TASKS_STORAGE_KEY
                "[3]" legacyOnly (fun _ => Some [tt]) (fun _ => "[]"%string)
                [] [] Hne)
      as (_ & Hmigrate & _).
    destruct (Hmigrate "[1]"%string) as (store' & Hread & Hkey & Hold & _);
      [reflexivity | reflexivity |].
    exists store'. split; [exact Hread|]. split; [exact Hkey|exact Hold].
  - destruct (legacy_key_migration TASKS_STORAGE_KEY LEGACY_TASKS_STORAGE_KEY
                "[3]" bothKeys (fun _ => Some [tt]) (fun _ => "[]"%string)
                [] [] Hne)
      as (Hcurrent & _).
    apply Hcurrent. reflexivity.
  - destruct (legacy_key_migration TASKS_STORAGE_KEY LEGACY_TASKS_STORAGE_KEY
                "[3]" bothKeys (fun _ => Some [tt]) (fun _ => "[]"%string)
                [] [] Hne)
      as (_ & _ & _ & _ & _ & (_ & Hgone & _) & _).
    exact Hgone.
Defined.

(** After a read that found the current key populated, the legacy key is
    still there next to it. *)
Lemma legacy_key_survives_read :
  let after : gmap string string :=
    (readStorageWithLegacy TASKS_STORAGE_KEY LEGACY_TASKS_STORAGE_KEY bothKeys).2 in
  (readStorageWithLegacy TASKS_STORAGE_KEY LEGACY_TASKS_STORAGE_KEY bothKeys).1
    = Some "[2]"%string /\
  after !! TASKS_STORAGE_KEY = Some "[2]"%string /\
  after !! LEGACY_TASKS_STORAGE_KEY = Some "[1]"%string.
Proof. repeat split. Qed.

(** ** Fan-out executor *)

Section FanOutProperties.

Variable codexTriggerWakeup :
  nat -> string -> string -> option string -> Z -> Settled.
Variable clock : nat -> Z.
Variable randomUUID : nat -> string.
Variable formatWakeupMessage : string -> CodexWakeupInvokeResult -> Z -> string.
Variable runTestLabel : string.

Lemma dispatchModels_length n account models trimmedPrompt tokens :
  length (dispatchModels codexTriggerWakeup clock n account models
            trimmedPrompt tokens) = length models.
Proof.
  revert n. induction models as [|model models IH]; intros n; simpl; [done|].
  by rewrite IH.
Qed.

(** One action per cell of the product of accounts and models. *)
Lemma dispatchAccounts_length n selected models trimmedPrompt tokens :
  length (dispatchAccounts codexTriggerWakeup clock n selected models
            trimmedPrompt tokens)
  = (length selected * length models)%nat.
Proof.
  revert n. induction selected as [|account selected IH]; intros n; simpl;
    [done|].
  by rewrite length_app, dispatchModels_length, IH.
Qed.

(** Every action yields one history record, which tells whether that action
    was fulfilled, whatever became of the others. *)
Lemma historyItems_success base timestamp promptText acts :
  map success
    (imap (historyItem clock randomUUID formatWakeupMessage runTestLabel
             base timestamp promptText) acts)
  = map (fun action => negb (isRejected (action_promise action))) acts.
Proof.
  generalize (historyItem clock randomUUID formatWakeupMessage runTestLabel
                base timestamp promptText)
    (fun i a => eq_refl :
       success (historyItem clock randomUUID formatWakeupMessage runTestLabel
                  base timestamp promptText i a)
       = negb (isRejected (action_promise a))).
  induction acts as [|action acts IH]; intros f Hf; [done|].
  cbn [imap map]. rewrite Hf. f_equal. apply IH. intros i a. apply Hf.
Qed.

End FanOutProperties.

(** C4.  A test run over two selected accounts and one model dispatches
    exactly two actions, one per account, and records one history item per
    action; when one action is rejected and the other fulfilled, the items
    hold exactly one success and one failure, [failed] counts one, and each
    item tells the outcome of its own action for its own account and
    model. *)
Theorem fanout_two_accounts
    (codexTriggerWakeup : nat -> string -> string -> option string -> Z -> Settled)
    (clock : nat -> Z) (randomUUID : nat -> string)
    (formatWakeupMessage : string -> CodexWakeupInvokeResult -> Z -> string)
    (runTestLabel : string) (st : TestState) (e1 e2 c1 : string)
    (a1 a2 : CodexAccount) :
  testing st = false ->
  testSelectedModels st = [c1] ->
  testSelectedAccounts st = [e1; e2] ->
  accountByEmail (accounts st) !! toLowerCase e1 = Some a1 ->
  accountByEmail (accounts st) !! toLowerCase e2 = Some a2 ->
  let outcome1 :=
    codexTriggerWakeup 0%nat (account_id a1) c1 (trimmedPromptOf st)
      (resolvedMaxTokensOf st) in
  let outcome2 :=
    codexTriggerWakeup 1%nat (account_id a2) c1 (trimmedPromptOf st)
      (resolvedMaxTokensOf st) in
  exists run,
    runImmediateTest codexTriggerWakeup clock randomUUID formatWakeupMessage
      runTestLabel st = Some run /\
    length (actions run) = 2%nat /\
    map action_promise (actions run) = [outcome1; outcome2] /\
    map (fun a => (action_accountEmail a, action_modelId a)) (actions run)
      = [(account_email a1, c1); (account_email a2, c1)] /\
    map (fun r => (accountEmail r, modelId r, success r)) (historyItems run)
      = [(account_email a1, c1, negb (isRejected outcome1));
         (account_email a2, c1, negb (isRejected outcome2))] /\
    (isRejected outcome1 <> isRejected outcome2 ->
     length (List.filter success (historyItems run)) = 1%nat /\
     length (List.filter (fun r => negb (success r)) (historyItems run)) = 1%nat /\
     failed run = 1%nat).
Proof.
  intros Htesting Hmodels Haccounts H1 H2 outcome1 outcome2.
  unfold runImmediateTest. rewrite Htesting, Hmodels, Haccounts.
  unfold resolveAccounts. cbn [omap list_omap]. rewrite H1, H2.
  simpl bool_decide. cbv zeta.
  cbn [dispatchAccounts dispatchModels app length imap].
  change (0 + 1)%nat with 1%nat. fold outcome1 outcome2.
  eexists. split; [reflexivity|].
  cbn [actions historyItems failed]. split; [reflexivity|].
  cbn [action_accountEmail action_modelId action_promise map].
  split; [reflexivity|]. split; [reflexivity|].
  unfold compose.
  cbn [historyItem accountEmail modelId success action_accountEmail
       action_modelId action_promise].
  split; [reflexivity|].
  clearbody outcome1 outcome2.
  intros Hdiffer. by destruct outcome1, outcome2.
Qed.

Lemma fanout_two_accounts_witness :
  exists run,
    runImmediateTest failsFirst (fun n => 1000 + Z.of_nat n)
      (fun n => "id"%string) (fun model result ms => reply result) "Test run"
      testState = Some run /\
    length (actions run) = 2%nat /\
    map (fun r => (accountEmail r, modelId r, success r)) (historyItems run)
      = [("A@example.com"%string, "codex-hourly"%string, false);
         ("b@example.com"%string, "codex-hourly"%string, true)] /\
    length (List.filter success (historyItems run)) = 1%nat /\
    length (List.filter (fun r => negb (success r)) (historyItems run)) = 1%nat /\
    failed run = 1%nat.
Proof.
  destruct (fanout_two_accounts failsFirst (fun n => 1000 + Z.of_nat n)
              (fun n => "id"%string) (fun model result ms => reply result)
              "Test run" testState "A@example.com" "b@example.com"
              "codex-hourly" accountA accountB)
    as (run & Hrun & Hlen & _ & _ & Hitems & Hcounts);
    [reflexivity | reflexivity | reflexivity | reflexivity | reflexivity |].
  exists run. split; [exact Hrun|]. split; [exact Hlen|].
  split; [exact Hitems|]. apply Hcounts. discriminate.
Defined.

(** ** Selection repair *)

Lemma repairTask_spec accountEmails modelIds changed task :
  let result := repairTask accountEmails modelIds changed task in
  result.1 = repairedTask accountEmails modelIds task /\
  result.2 = changed || taskChanged accountEmails modelIds task /\
  selectedAccounts (schedule result.1)
    = default (selectedAccounts (schedule task))
        (selectionUpdate accountEmails (selectedAccounts (schedule task))) /\
  selectedModels (schedule result.1)
    = default (selectedModels (schedule task))
        (selectionUpdate modelIds (selectedModels (schedule task))).
Proof.
  unfold repairedTask, taskChanged, repairTask, selectionUpdate. cbv zeta.
  cbn [selectedAccounts selectedModels normalizeSchedule spread schedule].
  destruct (bool_decide (accountEmails = []));
    [|destruct (String.eqb _ _)];
    (destruct (bool_decide (modelIds = []));
     [|cbn [selectedModels withSelectedAccounts];
       destruct (String.eqb _ _)]);
    cbn [fst snd schedule withSchedule selectedAccounts selectedModels
         withSelectedAccounts withSelectedModels updated default
         from_option id orb];
    rewrite ?orb_true_r, ?orb_false_r; done.
Qed.

Lemma repairAll_spec accountEmails modelIds changed tasks :
  repairAll accountEmails modelIds changed tasks
  = (map (repairedTask accountEmails modelIds) tasks,
     changed || existsb (taskChanged accountEmails modelIds) tasks).
Proof.
  revert changed. induction tasks as [|task tasks IH]; intros changed; simpl.
  - by rewrite orb_false_r.
  - destruct (repairTask_spec accountEmails modelIds changed task)
      as (Hfst & Hsnd & _).
    cbv zeta in Hfst, Hsnd.
    destruct (repairTask accountEmails modelIds changed task) as [task' changed'].
    simpl in Hfst, Hsnd. subst task' changed'.
    rewrite IH. by rewrite orb_assoc.
Qed.

Lemma filter_all_available (available selected : list string) :
  (forall x, x ∈ selected -> x ∈ available) ->
  List.filter (fun x => bool_decide (x ∈ available)) selected = selected.
Proof.
  induction selected as [|x l IH]; intros Hsub; simpl; [done|].
  rewrite bool_decide_true by (apply Hsub; by left).
  rewrite IH; [done|]. intros y Hy. apply Hsub. by right.
Qed.

Lemma filter_available_elem_of (available selected : list string) x :
  x ∈ List.filter (fun x => bool_decide (x ∈ available)) selected
  <-> x ∈ selected /\ x ∈ available.
Proof.
  rewrite !list_elem_of_In, filter_In, bool_decide_eq_true, !list_elem_of_In.
  done.
Qed.

(** A selection whose entries are all available and which is not empty (or
    when nothing is available) is left alone. *)
Lemma selectionUpdate_valid (available selected : list string) :
  (forall x, x ∈ selected -> x ∈ available) ->
  (selected = [] -> available = []) ->
  selectionUpdate available selected = None.
Proof.
  intros Hsub Hne. unfold selectionUpdate.
  case_bool_decide as Havail; [done|]. cbv zeta.
  unfold repairedSelection. rewrite filter_all_available by done.
  destruct selected as [|x l]; [by specialize (Hne eq_refl)|].
  by rewrite String.eqb_refl.
Qed.

Lemma join_includes_separator x y l :
  includes "|" (join "|" (x :: y :: l)) = true.
Proof.
  unfold join. cbn [String.concat]. rewrite includes_app.
  change (includes "|" ("|" ++ ?s)) with true. simpl. by rewrite orb_true_r.
Qed.

(** A selection without any available entry is replaced by the first
    available item, provided that item is not empty and holds no ["|"]: the
    code tells a change by comparing the lists joined with ["|"]. *)
Lemma selectionUpdate_none_left first rest (selected : list string) :
  List.filter (fun x => bool_decide (x ∈ first :: rest)) selected = [] ->
  first <> EmptyString -> includes "|" first = false ->
  selectionUpdate (first :: rest) selected = Some [first].
Proof.
  intros Hnone Hfirst Hbar. unfold selectionUpdate.
  rewrite bool_decide_false by done. cbv zeta.
  unfold repairedSelection. rewrite Hnone.
  destruct (String.eqb_spec (join "|" [first]) (join "|" selected))
    as [Heq|Hneq]; [exfalso|done].
  change (join "|" [first]) with first in Heq.
  destruct selected as [|x [|y l]].
  - done.
  - change (join "|" [x]) with x in Heq. subst x.
    simpl in Hnone. rewrite bool_decide_true in Hnone by by left. done.
  - pose proof (join_includes_separator x y l) as Hsep.
    rewrite <- Heq in Hsep. congruence.
Qed.

(** Whatever the repair decides, the entries that are available stay. *)
Lemma selectionUpdate_keeps_valid (available selected : list string) x :
  x ∈ selected -> x ∈ available ->
  x ∈ default selected (selectionUpdate available selected).
Proof.
  intros Hsel Havail. unfold selectionUpdate.
  case_bool_decide; [done|]. cbv zeta.
  destruct (String.eqb _ _); [done|]. simpl.
  unfold repairedSelection.
  assert (Hin : x ∈ List.filter (fun x => bool_decide (x ∈ available)) selected)
    by by apply filter_available_elem_of.
  destruct (List.filter _ selected); [by apply elem_of_nil in Hin|done].
Qed.

Lemma repairSelections_cases tasks accountEmails modelIds :
  repairSelections tasks accountEmails modelIds
  = if bool_decide (tasks = []) then tasks
    else if bool_decide (accountEmails = []) && bool_decide (modelIds = [])
    then tasks
    else if existsb (taskChanged accountEmails modelIds) tasks
    then map (repairedTask accountEmails modelIds) tasks
    else tasks.
Proof. unfold repairSelections. by rewrite repairAll_spec. Qed.

Lemma existsb_none {A} (f : A -> bool) (l : list A) :
  (forall x, x ∈ l -> f x = false) -> existsb f l = false.
Proof.
  induction l as [|x l IH]; intros Hf; simpl; [done|].
  rewrite Hf by by left. apply IH. intros y Hy. apply Hf. by right.
Qed.

Lemma existsb_some {A} (f : A -> bool) (l : list A) i x :
  l !! i = Some x -> f x = true -> existsb f l = true.
Proof.
  intros Hi Hx. apply existsb_exists. exists x. split; [|done].
  apply list_elem_of_lookup_2 in Hi. by apply list_elem_of_In in Hi.
Qed.

Lemma repairedTask_selection accountEmails modelIds task :
  selectedAccounts (schedule (repairedTask accountEmails modelIds task))
    = default (selectedAccounts (schedule task))
        (selectionUpdate accountEmails (selectedAccounts (schedule task))) /\
  selectedModels (schedule (repairedTask accountEmails modelIds task))
    = default (selectedModels (schedule task))
        (selectionUpdate modelIds (selectedModels (schedule task))).
Proof.
  destruct (repairTask_spec accountEmails modelIds false task)
    as (_ & _ & Hacc & Hmod).
  done.
Qed.

(** C7, as the code has it.  The repair leaves the task set as it is when
    every selection holds available entries only and is not empty (unless
    nothing is available); whatever it does, every task keeps all the
    entries of its selections that are available; and a selection without
    any available entry becomes the list of the first available item alone,
    provided that item is not empty and holds no ["|"]. *)
Theorem selection_repair (tasks : list WakeupTask)
    (accountEmails modelIds : list string) :
  ((forall task, task ∈ tasks ->
      (forall x, x ∈ selectedAccounts (schedule task) -> x ∈ accountEmails) /\
      (selectedAccounts (schedule task) = [] -> accountEmails = []) /\
      (forall x, x ∈ selectedModels (schedule task) -> x ∈ modelIds) /\
      (selectedModels (schedule task) = [] -> modelIds = [])) ->
   repairSelections tasks accountEmails modelIds = tasks) /\
  (forall i task, tasks !! i = Some task ->
     exists task',
       repairSelections tasks accountEmails modelIds !! i = Some task' /\
       (forall x, x ∈ selectedAccounts (schedule task) -> x ∈ accountEmails ->
          x ∈ selectedAccounts (schedule task')) /\
       (forall x, x ∈ selectedModels (schedule task) -> x ∈ modelIds ->
          x ∈ selectedModels (schedule task'))) /\
  (forall i task first rest,
     tasks !! i = Some task -> accountEmails = first :: rest ->
     first <> EmptyString -> includes "|" first = false ->
     List.filter (fun x => bool_decide (x ∈ accountEmails))
       (selectedAccounts (schedule task)) = [] ->
     exists task',
       repairSelections tasks accountEmails modelIds !! i = Some task' /\
       selectedAccounts (schedule task') = [first]) /\
  (forall i task first rest,
     tasks !! i = Some task -> modelIds = first :: rest ->
     first <> EmptyString -> includes "|" first = false ->
     List.filter (fun x => bool_decide (x ∈ modelIds))
       (selectedModels (schedule task)) = [] ->
     exists task',
       repairSelections tasks accountEmails modelIds !! i = Some task' /\
       selectedModels (schedule task') = [first]).
Proof.
  rewrite repairSelections_cases. split_and!.
  - intros Hvalid.
    rewrite (existsb_none (taskChanged accountEmails modelIds) tasks).
    + by repeat case_match.
    + intros task Htask. destruct (Hvalid task Htask) as (Ha & Ha' & Hm & Hm').
      unfold taskChanged. by rewrite !selectionUpdate_valid.
  - intros i task Htask.
    assert (Hkeep : forall task', task' = task \/
                      task' = repairedTask accountEmails modelIds task ->
              (forall x, x ∈ selectedAccounts (schedule task) ->
                 x ∈ accountEmails -> x ∈ selectedAccounts (schedule task')) /\
              (forall x, x ∈ selectedModels (schedule task) ->
                 x ∈ modelIds -> x ∈ selectedModels (schedule task'))).
    { intros task' [->| ->]; [done|].
      destruct (repairedTask_selection accountEmails modelIds task) as [-> ->].
      split; intros x; apply selectionUpdate_keeps_valid. }
    repeat case_match;
      try (exists task; split; [done|]; apply Hkeep; by left).
    exists (repairedTask accountEmails modelIds task). split.
    + by rewrite list_lookup_fmap, Htask.
    + apply Hkeep. by right.
  - intros i task first rest Htask -> Hfirst Hbar Hnone.
    assert (Hupd : selectionUpdate (first :: rest)
                     (selectedAccounts (schedule task)) = Some [first])
      by by apply selectionUpdate_none_left.
    rewrite bool_decide_false by (intros ->; done).
    rewrite (bool_decide_false (first :: rest = [])) by done. simpl andb.
    rewrite (existsb_some _ tasks i task Htask)
      by (unfold taskChanged; by rewrite Hupd).
    exists (repairedTask (first :: rest) modelIds task). split.
    + by rewrite list_lookup_fmap, Htask.
    + destruct (repairedTask_selection (first :: rest) modelIds task) as [-> _].
      by rewrite Hupd.
  - intros i task first rest Htask -> Hfirst Hbar Hnone.
    assert (Hupd : selectionUpdate (first :: rest)
                     (selectedModels (schedule task)) = Some [first])
      by by apply selectionUpdate_none_left.
    rewrite bool_decide_false by (intros ->; done).
    rewrite (bool_decide_false (first :: rest = [])) by done.
    rewrite andb_false_r.
    rewrite (existsb_some _ tasks i task Htask)
      by (unfold taskChanged; rewrite Hupd; by rewrite orb_true_r).
    exists (repairedTask accountEmails (first :: rest) task). split.
    + by rewrite list_lookup_fmap, Htask.
    + destruct (repairedTask_selection accountEmails (first :: rest) task)
        as [_ ->].
      by rewrite Hupd.
Qed.

Lemma selection_repair_witness :
  repairSelections [defaultTask everyFourHours] knownAccounts knownModels
    = [defaultTask everyFourHours] /\
  exists task',
    repairSelections [staleTask] knownAccounts knownModels !! 0%nat = Some task' /\
    selectedAccounts (schedule task') = ["a@example.com"%string] /\
    "codex-hourly"%string ∈ selectedModels (schedule task').
Proof.
  split.
  - apply (selection_repair [defaultTask everyFourHours] knownAccounts knownModels).
    intros task Htask. apply list_elem_of_singleton in Htask. subst task.
    split_and!; try discriminate; intros x Hx;
      apply list_elem_of_singleton in Hx; subst x; set_solver.
  - destruct (selection_repair [staleTask] knownAccounts knownModels)
      as (_ & Hkeep & Haccounts & _).
    destruct (Haccounts 0%nat staleTask "a@example.com"%string
                ["b@example.com"%string])
      as (task' & Hlookup & Hselected);
      [reflexivity | reflexivity | discriminate | reflexivity | reflexivity |].
    exists task'. split; [exact Hlookup|]. split; [exact Hselected|].
    destruct (Hkeep 0%nat staleTask) as (task'' & Hlookup' & _ & Hmodels);
      [reflexivity|].
    rewrite Hlookup in Hlookup'. injection Hlookup' as <-.
    apply Hmodels; set_solver.
Defined.

(** Every selection of the first task is a subset of what is available,
    and the repair still changes the task set. *)
Lemma repair_changes_empty_selection :
  (forall task, task ∈ [firstTask] ->
     (forall x, x ∈ selectedAccounts (schedule task) -> x ∈ knownAccounts) /\
     (forall x, x ∈ selectedModels (schedule task) -> x ∈ knownModels)) /\
  repairSelections [firstTask] knownAccounts knownModels <> [firstTask].
Proof.
  split.
  - intros task Htask. apply list_elem_of_singleton in Htask. subst task.
    split; intros x Hx.
    + by apply elem_of_nil in Hx.
    + apply list_elem_of_singleton in Hx. subst x. by left.
  - vm_compute. discriminate.
Qed.

(** * Further properties of the code *)

(** ** Cron expressions, whatever they hold *)

Lemma take_upcoming_bounds now count cands :
  (length (take count (upcoming now cands)) <= count)%nat /\
  Forall (fun t => now < t) (take count (upcoming now cands)).
Proof.
  split.
  - rewrite length_take. lia.
  - apply Forall_forall. intros t Ht.
    apply elem_of_take in Ht as (i & Hi & _).
    apply list_elem_of_lookup_2 in Hi. by apply upcoming_after in Hi as [_ ?].
Qed.

(** X1.  Whatever the expression, [calculateCrontabNextRuns] returns at most
    [count] instants, all of them strictly after [now]. *)
Theorem crontab_runs_bounded (now : Z) (count : nat) (crontab : string) :
  (length (calculateCrontabNextRuns now count crontab) <= count)%nat /\
  Forall (fun t => now < t) (calculateCrontabNextRuns now count crontab).
Proof.
  destruct (Nat.lt_ge_cases (length (splitWhite (trim crontab))) 5) as [Hshort|Hlong].
  - rewrite crontab_too_short by done. split; [simpl; lia|constructor].
  - rewrite crontab_collect by done. apply take_upcoming_bounds.
Qed.

(** X2.  Only the minute and the hour field count: two expressions of at
    least five fields with the same first two fields give the same runs. *)
Theorem crontab_later_fields_ignored (now : Z) (count : nat) (c1 c2 : string) :
  (5 <= length (splitWhite (trim c1)))%nat ->
  (5 <= length (splitWhite (trim c2)))%nat ->
  cronField c1 0 = cronField c2 0 ->
  cronField c1 1 = cronField c2 1 ->
  calculateCrontabNextRuns now count c1 = calculateCrontabNextRuns now count c2.
Proof.
  intros H1 H2 Hminute Hhour.
  by rewrite !crontab_collect, Hminute, Hhour.
Qed.

Lemma crontab_later_fields_ignored_witness :
  calculateCrontabNextRuns mondayTen 3 "30 6 * * *"
  = calculateCrontabNextRuns mondayTen 3 "30 6 31 2 0 extra".
Proof.
  apply crontab_later_fields_ignored;
    [vm_compute; lia | vm_compute; lia | reflexivity | reflexivity].
Defined.








(** ** Weekly schedules *)

Lemma weeklyRuns_collect now count days times :
  weeklyRuns now count days times
  = take count (upcoming now (weeklyCandidates now days times)).
Proof.
  unfold weeklyRuns, weeklyCandidates.
  rewrite (forUpTo_collect now count
             (fun d =>
                if bool_decide (WeekDay (now + d * msPerDay) ∈ days)
                then map (fun time =>
                            let hm := map Number (split ":" time) in
                            setHours (addDays (Some now) d) (numAt hm 0)
                              (numAt hm 1))
                         (sortBy compareStrings times)
                else [])).
  - apply collect_from_empty.
  - intros d r Hr. cbn [addDays getDay fmap option_fmap option_map].
    destruct (bool_decide (WeekDay (now + d * msPerDay) ∈ days)).
    + by apply (forOf_collect now count
                  (fun time => setHours (Some (now + d * msPerDay))
                                 (numAt (map Number (split ":" time)) 0)
                                 (numAt (map Number (split ":" time)) 1))).
    + by rewrite collect_nil.
Qed.

Lemma weeklyCandidates_valid now days times :
  Forall (fun s => validTime s = true) times ->
  weeklyCandidates now days times = map Some (weeklyInstants now days times).
Proof.
  intros Hvalid. unfold weeklyCandidates, weeklyInstants.
  rewrite concat_map, map_map. apply (f_equal (@concat _)).
  apply map_ext. intros d.
  destruct (bool_decide (WeekDay (now + d * msPerDay) ∈ days)); [|done].
  rewrite !map_map. apply map_ext_in. intros s Hs.
  apply (dateAt_valid now d s).
  rewrite Forall_forall in Hvalid. apply Hvalid.
  by apply list_elem_of_In, sortBy_elem_of in Hs.
Qed.

(** Days that may carry no time at all, in increasing order. *)
Lemma chosen_days_sorted (base : Z) (chosen : Z -> bool) (offs : list Z) n from :
  StronglySorted Z.lt offs ->
  Forall (fun o => 0 <= o < msPerDay) offs ->
  StronglySorted Z.lt
    (concat (map (fun d => if chosen d
                           then map (fun o => (base + d) * msPerDay + o) offs
                           else [])
                 (dayOffsets n from))).
Proof.
  intros Hs Hrange. revert from. induction n as [|n IH]; intros from; simpl.
  - constructor.
  - apply StronglySorted_app. split_and!; [| |apply IH].
    + intros x1 x2 Hx1 Hx2.
      destruct (chosen from); [|by apply elem_of_nil in Hx1].
      apply list_elem_of_In, in_map_iff in Hx1 as (o1 & <- & Ho1).
      apply list_elem_of_In, in_concat in Hx2 as (l & Hl & Hx2).
      apply in_map_iff in Hl as (d & <- & Hd).
      destruct (chosen d); [|done].
      apply in_map_iff in Hx2 as (o2 & <- & Ho2).
      apply list_elem_of_In in Ho1, Ho2.
      apply list_elem_of_In, dayOffsets_elem_of in Hd.
      rewrite Forall_forall in Hrange.
      pose proof (Hrange _ Ho1). pose proof (Hrange _ Ho2).
      unfold msPerDay in *. nia.
    + destruct (chosen from); [|constructor].
      apply StronglySorted_fmap with (R1 := Z.lt); [|done].
      intros x y Hxy. lia.
Qed.

Lemma valid_times_sorted times :
  Forall (fun s => validTime s = true) times -> NoDup times ->
  StronglySorted Z.lt (map timeMs (sortBy compareStrings times)) /\
  Forall (fun o => 0 <= o < msPerDay) (map timeMs (sortBy compareStrings times)).
Proof.
  intros Hvalid Hnd.
  assert (Hsv : Forall (fun s => validTime s = true) (sortBy compareStrings times))
    by by rewrite sortBy_perm.
  split.
  - apply StronglySorted_fmap with (R1 := fun a b => timeMs a < timeMs b);
      [done|].
    apply sorted_strict with (P := fun s => validTime s = true).
    + intros a b. apply timeMs_inj.
    + done.
    + by rewrite sortBy_perm.
    + apply sortBy_sorted with (P := fun s => validTime s = true); [|done].
      intros a b. apply compareStrings_time.
  - apply Forall_fmap. eapply Forall_impl; [exact Hsv|].
    intros s Hs. by apply timeMs_range.
Qed.

Lemma weeklyInstants_elem_of now days times t :
  Forall (fun s => validTime s = true) times ->
  t ∈ weeklyInstants now days times <->
  exists d time,
    0 <= d < 14 /\ WeekDay (now + d * msPerDay) ∈ days /\ time ∈ times /\
    t = (Day now + d) * msPerDay + timeMs time.
Proof.
  intros Hvalid. unfold weeklyInstants.
  rewrite list_elem_of_In, in_concat. split.
  - intros (l & Hl & Ht).
    apply in_map_iff in Hl as (d & <- & Hd).
    case_bool_decide as Hday; [|done].
    apply in_map_iff in Ht as (o & <- & Ho).
    apply in_map_iff in Ho as (s & <- & Hs).
    apply list_elem_of_In, dayOffsets_elem_of in Hd.
    apply list_elem_of_In, sortBy_elem_of in Hs.
    exists d, s. split; [lia|]. done.
  - intros (d & s & Hd & Hday & Hs & ->).
    exists (map (fun o => (Day now + d) * msPerDay + o)
                (map timeMs (sortBy compareStrings times))).
    split.
    + apply in_map_iff. exists d. split.
      * by rewrite bool_decide_true.
      * apply list_elem_of_In, dayOffsets_elem_of. lia.
    + apply in_map_iff. exists (timeMs s). split; [done|].
      apply in_map_iff. exists s. split; [done|].
      by apply list_elem_of_In, sortBy_elem_of.
Qed.

Lemma WeekDay_of_day day o :
  0 <= o < msPerDay -> WeekDay (day * msPerDay + o) = (day + 4) mod 7.
Proof.
  intros Ho. unfold WeekDay, Day. f_equal. f_equal.
  unfold msPerDay in *. Z.to_euclidean_division_equations. lia.
Qed.

(** Within a week from tomorrow every weekday comes up. *)
Lemma weekday_within_a_week now w :
  0 <= w < 7 -> exists d, 1 <= d <= 7 /\ WeekDay (now + d * msPerDay) = w.
Proof.
  intros Hw. exists ((w - WeekDay now - 1) mod 7 + 1).
  split; [Z.to_euclidean_division_equations; lia|].
  unfold WeekDay. rewrite Day_addDays.
  Z.to_euclidean_division_equations. lia.
Qed.

(** X4.  For a weekly schedule with distinct valid times, the instants
    returned are at most [count], strictly after [now], strictly increasing,
    and each falls on a selected weekday at a configured time; when [count]
    is positive and a weekday between 0 and 6 is selected, the 14-day horizon
    always holds a run. *)
Theorem weekly_next_runs (config : ScheduleConfig) (now : Z) (count fuel : nat)
    (days : list Z) (times : list string) :
  repeatMode config = weekly ->
  weeklyDays config = Some days -> days <> [] ->
  weeklyTimes config = Some times -> times <> [] ->
  NoDup times -> Forall (fun s => validTime s = true) times ->
  exists runs,
    calculateNextRuns now count fuel config = Some runs /\
    (length runs <= count)%nat /\
    StronglySorted Z.lt runs /\
    (forall t, t ∈ runs ->
       now < t /\ WeekDay t ∈ days /\
       exists time, time ∈ times /\
         timeHM time = Some (HourFromTime t, MinFromTime t)) /\
    ((0 < count)%nat -> (exists w, w ∈ days /\ 0 <= w < 7) -> runs <> []).
Proof.
  intros Hmode Hdays Hdne Htimes Htne Hnd Hvalid.
  set (later := List.filter (fun t => now <? t) (weeklyInstants now days times)).
  assert (Hruns : calculateNextRuns now count fuel config = Some (take count later)).
  { unfold calculateNextRuns. rewrite Hmode, Hdays, Htimes.
    destruct days as [|d0 ds]; [done|]. destruct times as [|t0 ts]; [done|].
    destruct (dailyTimes config) as [[|? ?]|]; simpl;
      by rewrite weeklyRuns_collect, take_take, Nat.min_id,
        weeklyCandidates_valid, upcoming_valid. }
  destruct (valid_times_sorted times Hvalid Hnd) as [Hsorted Hrange].
  exists (take count later). split_and!; [done|..].
  - rewrite length_take. lia.
  - apply StronglySorted_take, filter_after_sorted.
    unfold weeklyInstants.
    by apply (chosen_days_sorted (Day now)
                (fun d => bool_decide (WeekDay (now + d * msPerDay) ∈ days))).
  - intros t Ht. apply elem_of_take in Ht as (i & Hi & _).
    apply list_elem_of_lookup_2, filter_after_elem_of in Hi as [Hin Hlater].
    apply weeklyInstants_elem_of in Hin as (d & s & Hd & Hday & Hs & ->);
      [|done].
    split; [done|].
    rewrite Forall_forall in Hvalid. specialize (Hvalid s Hs).
    pose proof (timeMs_range s Hvalid) as Hms.
    split.
    + rewrite WeekDay_of_day by done.
      unfold WeekDay in Hday. by rewrite Day_addDays in Hday.
    + exists s. split; [done|].
      unfold validTime, timeMs in *.
      destruct (timeHM s) as [[h m]|] eqn:E; [|done].
      apply timeHM_inv in E as (? & ? & ? & ? & _ & _ & _ & _ & _ & _ & _ & Hh & Hm).
      destruct (clock_fields (Day now + d) h m) as (_ & HH & HM & _); [done..|].
      cbv zeta in HH, HM.
      replace ((Day now + d) * msPerDay + (h * msPerHour + m * msPerMinute))
        with ((Day now + d) * msPerDay + h * msPerHour + m * msPerMinute) by lia.
      by rewrite HH, HM.
  - intros Hcount (w & Hw & Hrange7).
    destruct (weekday_within_a_week now w Hrange7) as (d & Hd & Hwd).
    destruct times as [|t0 ts]; [done|].
    assert (Hv0 : validTime t0 = true) by by apply Forall_cons in Hvalid as [? _].
    assert (Hin : (Day now + d) * msPerDay + timeMs t0 ∈ later).
    { apply filter_after_elem_of. split.
      - apply weeklyInstants_elem_of; [done|].
        exists d, t0. split; [lia|]. rewrite Hwd. split; [done|].
        split; [by left|done].
      - pose proof (timeMs_range _ Hv0). pose proof (Day_bounds now).
        unfold msPerDay in *. nia. }
    destruct later as [|f0 fs]; [by apply elem_of_nil in Hin|].
    destruct count; [lia|]. done.
Qed.

Lemma weekly_next_runs_witness :
  exists runs,
    calculateNextRuns mondayTen 4 0 weekdayMornings = Some runs /\
    (length runs <= 4)%nat /\
    StronglySorted Z.lt runs /\
    (forall t, t ∈ runs ->
       mondayTen < t /\ WeekDay t ∈ [1; 3] /\
       exists time, time ∈ ["18:00"; "08:00"]%string /\
         timeHM time = Some (HourFromTime t, MinFromTime t)) /\
    runs <> [].
Proof.
  destruct (weekly_next_runs weekdayMornings mondayTen 4 0 [1; 3]
              ["18:00"; "08:00"]%string)
    as (runs & Hruns & Hlen & Hsorted & Hall & Hsome);
    [reflexivity | reflexivity | discriminate | reflexivity | discriminate
    | | repeat constructor |].
  - apply NoDup_cons. split; [|apply NoDup_singleton].
    intros Hin. apply list_elem_of_singleton in Hin. discriminate.
  - exists runs. split_and!; try done.
    apply Hsome; [lia|]. exists 1. split; [by left|lia].
Defined.

(** ** Every schedule, valid or not *)

Lemma pushIfAfter_later now count d r :
  Forall (fun t => now < t) r ->
  match pushIfAfter now count d r with
  | Continue r' | Break r' => Forall (fun t => now < t) r'
  end.
Proof.
  intros Hr. unfold pushIfAfter. destruct d as [t|]; [|done].
  destruct (Z.ltb_spec now t); [|done].
  assert (Forall (fun t => now < t) (r ++ [t])).
  { apply Forall_app. split; [done|]. by constructor. }
  by destruct (count <=? length (r ++ [t]))%nat.
Qed.

Lemma forStep_keeps {S} (P : S -> Prop) (body : jsnum -> S -> Step S)
    fuel h upto step s s' :
  (forall h s, P s -> match body h s with Continue r | Break r => P r end) ->
  P s -> forStep fuel h upto step body s = Some s' -> P s'.
Proof.
  intros Hbody. revert h s. induction fuel as [|fuel IH]; intros h s Hs; simpl;
    [done|].
  destruct (le h upto); [|by intros [= <-]].
  specialize (Hbody h s Hs). destruct (body h s) as [r|r].
  - by apply IH.
  - by intros [= <-].
Qed.

Lemma intervalDays_later now count fuel n from startH startM endH step r r' :
  Forall (fun t => now < t) r ->
  intervalDays now count fuel n from startH startM endH step r = Some r' ->
  Forall (fun t => now < t) r'.
Proof.
  revert from r. induction n as [|n IH]; intros from r Hr; simpl.
  - by intros [= <-].
  - destruct (roomLeft count r); [|by intros [= <-]].
    destruct (forStep fuel startH endH step _ r) as [r1|] eqn:Hstep; [|done].
    apply IH.
    eapply (forStep_keeps (Forall (fun t => now < t))); [|exact Hr|exact Hstep].
    intros h s Hs. by apply pushIfAfter_later.
Qed.

(** X5.  Whatever the schedule holds (malformed times, any step, any
    repeat mode), a result of [calculateNextRuns] has at most [count]
    instants and all of them are strictly after [now]. *)
Theorem next_runs_bounded (config : ScheduleConfig) (now : Z)
    (count fuel : nat) (runs : list Z) :
  calculateNextRuns now count fuel config = Some runs ->
  (length runs <= count)%nat /\ Forall (fun t => now < t) runs.
Proof.
  unfold calculateNextRuns. intros Hruns.
  assert (Hinner : exists inner,
            runs = take count inner /\ Forall (fun t => now < t) inner).
  { destruct (repeatMode config).
    - destruct (dailyTimes config) as [[|t ts]|]; simpl in Hruns;
        injection Hruns as <-; try (by exists []).
      exists (dailyRuns now count (t :: ts)). split; [done|].
      rewrite dailyRuns_collect. apply take_upcoming_bounds.
    - destruct (dailyTimes config) as [[|? ?]|];
        destruct (weeklyDays config) as [[|d ds]|];
        destruct (weeklyTimes config) as [[|t ts]|]; simpl in Hruns;
        injection Hruns as <-; try (by exists []);
        (exists (weeklyRuns now count (d :: ds) (t :: ts)); split; [done|];
         rewrite weeklyRuns_collect; apply take_upcoming_bounds).
    - assert (Hint : take count <$> intervalRuns now count fuel config = Some runs)
        by by destruct (dailyTimes config) as [[|? ?]|].
      destruct (intervalRuns now count fuel config) as [inner|] eqn:Hi;
        [|done].
      injection Hint as <-. exists inner. split; [done|].
      unfold intervalRuns in Hi. by eapply intervalDays_later in Hi. }
  destruct Hinner as (inner & -> & Hlater). split.
  - rewrite length_take. lia.
  - apply Forall_forall. intros t Ht.
    apply elem_of_take in Ht as (i & Hi & _).
    apply list_elem_of_lookup_2 in Hi.
    rewrite Forall_forall in Hlater. by apply Hlater.
Qed.

Lemma next_runs_bounded_witness :
  (length [(4 * msPerDay + 18 * msPerHour)%Z; (6 * msPerDay + 8 * msPerHour)%Z]
   <= 2)%nat /\
  Forall (fun t => mondayTen < t)
    [4 * msPerDay + 18 * msPerHour; 6 * msPerDay + 8 * msPerHour].
Proof.
  apply (next_runs_bounded weekdayMornings mondayTen 2 0). reflexivity.
Defined.

(** The loop over the hours returns when the step is positive. *)
Lemma forStep_ext {S} (body1 body2 : jsnum -> S -> Step S) fuel h upto step s :
  (forall h s, body1 h s = body2 h s) ->
  forStep fuel h upto step body1 s = forStep fuel h upto step body2 s.
Proof.
  intros Hext. revert h s. induction fuel as [|fuel IH]; intros h s; simpl;
    [done|].
  destruct (le h upto); [|done]. rewrite Hext.
  destruct (body2 h s); [apply IH|done].
Qed.

Lemma forStep_backwards now count fuel day sm eh step h :
  step < 0 -> h <= eh ->
  day * msPerDay + h * msPerHour + sm * msPerMinute <= now ->
  forStep fuel (Some h) (Some eh) step
    (fun h => pushIfAfter now count (setHours (Some (day * msPerDay)) h (Some sm)))
    [] = None.
Proof.
  intros Hstep. revert h. induction fuel as [|fuel IH]; intros h Hh Hpast;
    cbn [forStep]; [done|].
  unfold le at 1. destruct (Z.leb_spec h eh); [|lia].
  rewrite pushIfAfter_skip.
  - cbn [add]. apply IH; [lia|]. unfold msPerHour in *. nia.
  - unfold setHours, future.
    replace (Day (day * msPerDay)) with day
      by (unfold Day, msPerDay; by rewrite Z.div_mul).
    by destruct (Z.ltb_spec now (day * msPerDay + h * msPerHour + sm * msPerMinute));
      [lia|].
Qed.

(** X7.  Without normalisation a negative step makes the interval
    computation run for ever: once the start time of today has passed, no
    amount of fuel lets [calculateNextRuns] return. *)
Theorem negative_step_never_returns (config : ScheduleConfig) (now : Z)
    (count fuel : nat) (startH startM endH endM step : Z) :
  repeatMode config = interval ->
  timeHM (stringOr (intervalStartTime config) "07:00") = Some (startH, startM) ->
  timeHM (stringOr (intervalEndTime config) "22:00") = Some (endH, endM) ->
  startH <= endH ->
  intervalHours config = Some step -> step < 0 ->
  Day now * msPerDay + startH * msPerHour + startM * msPerMinute <= now ->
  (0 < count)%nat ->
  calculateNextRuns now count fuel config = None.
Proof.
  intros Hmode Hstart Hend Hle Hhours Hneg Hpast Hcount.
  unfold calculateNextRuns. rewrite Hmode.
  assert (Hint : intervalRuns now count fuel config = None);
    [|rewrite Hint; by destruct (dailyTimes config) as [[|? ?]|]].
  unfold intervalRuns. cbv zeta.
  rewrite (split_valid_time _ _ _ Hstart).
  change (numAt [Some startH; Some startM] 0) with (Some startH).
  change (numAt [Some startH; Some startM] 1) with (Some startM).
  assert (HendH :
    match intervalEndTime config with
    | Some (String a r) =>
        parseInt (default EmptyString (split ":" (String a r) !! 0%nat))
    | _ => Some 22
    end = Some endH).
  { destruct (intervalEndTime config) as [[|a r]|]; simpl in Hend.
    - by injection Hend as <- <-.
    - by apply (parseInt_valid_hour _ _ endM).
    - by injection Hend as <- <-. }
  rewrite HendH, Hhours.
  change (orDefault (Some step) 4) with (if step =? 0 then 4 else step).
  destruct (Z.eqb_spec step 0); [lia|].
  cbn [intervalDays]. unfold roomLeft at 1. cbn [length].
  destruct (Nat.ltb_spec 0 count); [|lia].
  assert (Hsame : forall h, setHours (addDays (Some now) 0) h (Some startM)
                            = setHours (Some (Day now * msPerDay)) h (Some startM)).
  { intros [h|]; [|done]. unfold setHours, addDays. cbn [fmap option_fmap option_map].
    rewrite Day_addDays. do 3 f_equal.
    unfold Day, msPerDay. rewrite Z.div_mul by done. lia. }
  rewrite (forStep_ext _
             (fun h => pushIfAfter now count
                         (setHours (Some (Day now * msPerDay)) h (Some startM))))
    by (intros h s; by rewrite Hsame).
  by rewrite (forStep_backwards now count fuel (Day now) startM endH step startH).
Qed.

Lemma negative_step_never_returns_witness :
  calculateNextRuns mondayTen 1 1000 backwardsInterval = None.
Proof.
  apply (negative_step_never_returns backwardsInterval mondayTen 1 1000
           7 0 22 0 (-3));
    [reflexivity | reflexivity | reflexivity | lia | reflexivity | lia
    | vm_compute; discriminate | lia].
Defined.

(** ** Times typed into the form *)

Lemma formatTime_valid h m :
  0 <= h <= 23 -> 0 <= m <= 59 -> timeHM (formatTime h m) = Some (h, m).
Proof.
  intros Hh Hm.
  assert (Hcheck : formatTimeReadsBack = true) by (vm_compute; reflexivity).
  unfold formatTimeReadsBack in Hcheck.
  rewrite forallb_forall in Hcheck.
  specialize (Hcheck (Z.to_nat h)). rewrite forallb_forall in Hcheck.
  specialize (Hcheck ltac:(apply in_seq; lia) (Z.to_nat m) ltac:(apply in_seq; lia)).
  rewrite !Z2Nat.id in Hcheck by lia.
  destruct (timeHM (formatTime h m)) as [[h' m']|]; [|done].
  apply andb_prop in Hcheck as [Hh' Hm'].
  apply Z.eqb_eq in Hh', Hm'. by subst.
Qed.

Lemma normalizeTimeInput_formats value out :
  normalizeTimeInput value = Some out ->
  exists h m, 0 <= h <= 23 /\ 0 <= m <= 59 /\ out = formatTime h m.
Proof.
  unfold normalizeTimeInput. cbv zeta.
  destruct (isEmpty (trim value)); [done|].
  destruct (matchTime (trim value)) as [[hourText minuteText]|]; [|done].
  destruct (parseInt hourText) as [h|]; [|done].
  destruct (parseInt minuteText) as [m|]; [|done].
  destruct (Z.ltb_spec h 0), (Z.ltb_spec 23 h), (Z.ltb_spec m 0),
    (Z.ltb_spec 59 m); simpl; try done.
  intros [= <-]. exists h, m. unfold formatTime. repeat split; lia.
Qed.

Lemma validTime_noWhite s : validTime s = true -> noWhite s = true.
Proof.
  unfold validTime. destruct (timeHM s) as [[h m]|] eqn:E; [|done]. intros _.
  apply timeHM_inv in E as (a & b & c & d & -> & Ha & Hb & Hc & Hd & _).
  unfold noWhite. simpl.
  by rewrite (digit_not_white a), (digit_not_white b), (digit_not_white c),
    (digit_not_white d).
Qed.

Lemma normalizeTimeInput_valid s :
  validTime s = true -> normalizeTimeInput s = Some s.
Proof.
  intros Hvalid. pose proof Hvalid as Hv. unfold validTime in Hv.
  destruct (timeHM s) as [[h m]|] eqn:E; [|done]. clear Hv.
  pose proof E as Einv.
  apply timeHM_inv in Einv
    as (a & b & c & d & -> & Ha & Hb & Hc & Hd & Hh & Hm & Hhr & Hmr).
  unfold normalizeTimeInput. cbv zeta.
  rewrite trim_noWhite by by apply validTime_noWhite.
  assert (Hmatch :
    matchTime (String a (String b (String ":" (String c (String d EmptyString)))))
    = Some (String a (String b EmptyString), String c (String d EmptyString))).
  { clear -Ha Hb Hc Hd. digit_split Hb; cbn [matchTime]; by rewrite Ha, Hc, Hd. }
  rewrite Hmatch. cbn [isEmpty].
  rewrite !parseInt_two_digits by done. rewrite <- Hh, <- Hm.
  destruct (Z.ltb_spec h 0), (Z.ltb_spec 23 h), (Z.ltb_spec m 0),
    (Z.ltb_spec 59 m); try lia.
  cbn [orb]. f_equal. fold (formatTime h m).
  apply timeMs_inj; [|done|].
  - unfold validTime. by rewrite formatTime_valid.
  - unfold timeMs. by rewrite formatTime_valid, E.
Qed.

(** X8.  A time that [normalizeTimeInput] accepts comes out as a valid
    zero-padded HH:MM time and is left as it is by a second pass; a valid
    zero-padded time is accepted unchanged. *)
Theorem normalize_time_input (value out s : string) :
  (normalizeTimeInput value = Some out ->
   validTime out = true /\ normalizeTimeInput out = Some out) /\
  (validTime s = true -> normalizeTimeInput s = Some s).
Proof.
  split; [|apply normalizeTimeInput_valid].
  intros Hout.
  apply normalizeTimeInput_formats in Hout as (h & m & Hh & Hm & ->).
  assert (Hvalid : validTime (formatTime h m) = true)
    by (unfold validTime; by rewrite formatTime_valid).
  split; [done|]. by apply normalizeTimeInput_valid.
Qed.

Example normalizeTimeInput_examples :
  normalizeTimeInput " 7:05 " = Some "07:05"%string /\
  normalizeTimeInput "24:00" = None /\ normalizeTimeInput "7:5" = None /\
  normalizeTimeInput "12:60" = None /\ normalizeTimeInput "noon" = None.
Proof. repeat split. Qed.

Lemma normalize_time_input_witness :
  (validTime "07:05" = true /\ normalizeTimeInput "07:05" = Some "07:05"%string) /\
  normalizeTimeInput "23:59" = Some "23:59"%string.
Proof.
  split.
  - apply (normalize_time_input " 7:05 " "07:05" "23:59"). reflexivity.
  - apply (normalize_time_input " 7:05 " "07:05" "23:59"). reflexivity.
Defined.

(** ** Lists of times and days in the form *)

Lemma filter_ne_elem_of (l : list string) value x :
  x ∈ List.filter (fun item => negb (String.eqb item value)) l
  <-> x ∈ l /\ x <> value.
Proof.
  rewrite !list_elem_of_In, filter_In, negb_true_iff, String.eqb_neq,
    <- list_elem_of_In.
  done.
Qed.

Lemma filter_NoDup {A} (f : A -> bool) (l : list A) :
  NoDup l -> NoDup (List.filter f l).
Proof.
  induction 1 as [|x l Hx Hnd IH]; simpl; [constructor|].
  destruct (f x); [|done]. constructor; [|done].
  rewrite list_elem_of_In, filter_In, <- list_elem_of_In. tauto.
Qed.

Lemma toggleListValue_elem_of (l : list string) value allowEmpty x :
  x <> value -> (x ∈ toggleListValue l value allowEmpty <-> x ∈ l).
Proof.
  intros Hne. unfold toggleListValue. case_bool_decide.
  - cbv zeta. destruct (_ && _); [done|].
    rewrite filter_ne_elem_of. tauto.
  - rewrite elem_of_app, list_elem_of_singleton. tauto.
Qed.

Lemma toggleListValue_keeps_some (l : list string) value :
  toggleListValue l value false <> [].
Proof.
  unfold toggleListValue. destruct (bool_decide (value ∈ l)) eqn:Hin.
  - apply bool_decide_eq_true in Hin. cbv zeta.
    destruct (bool_decide (_ = [])) eqn:Hnext; simpl.
    + intros ->. by apply elem_of_nil in Hin.
    + by apply bool_decide_eq_false in Hnext.
  - by destruct l.
Qed.

Lemma toggleListValue_NoDup (l : list string) value allowEmpty :
  NoDup l -> NoDup (toggleListValue l value allowEmpty).
Proof.
  intros Hnd. unfold toggleListValue. case_bool_decide as Hin.
  - cbv zeta. destruct (_ && _); [done|]. by apply filter_NoDup.
  - apply NoDup_app. split_and!; [done| |apply NoDup_singleton].
    intros x Hx Hx'. apply list_elem_of_singleton in Hx'. by subst.
Qed.

Lemma toggleListValue_within (l : list string) value allowEmpty x :
  x ∈ toggleListValue l value allowEmpty -> x ∈ l \/ x = value.
Proof.
  unfold toggleListValue. case_bool_decide.
  - cbv zeta. destruct (_ && _); [by left|].
    rewrite filter_ne_elem_of. tauto.
  - rewrite elem_of_app, list_elem_of_singleton. tauto.
Qed.

(** X9.  Selecting a value that is not in a list and then deselecting it
    gives the list back; a list that may not become empty never does, so the
    last value of such a list cannot be deselected; and no other value is
    ever affected. *)
Theorem toggle_list_value (l : list string) (value x : string)
    (allowEmpty : bool) :
  (value ∉ l -> (l <> [] \/ allowEmpty = true) ->
   toggleListValue (toggleListValue l value allowEmpty) value allowEmpty = l) /\
  toggleListValue l value false <> [] /\
  toggleListValue [value] value false = [value] /\
  (x <> value -> (x ∈ toggleListValue l value allowEmpty <-> x ∈ l)).
Proof.
  split_and!.
  - intros Hnotin Hsome.
    assert (Hfilter : List.filter (fun item => negb (String.eqb item value))
                        (l ++ [value]) = l).
    { rewrite List.filter_app. simpl. rewrite String.eqb_refl. simpl.
      rewrite app_nil_r. clear Hsome.
      induction l as [|y l IH]; simpl; [done|].
      apply not_elem_of_cons in Hnotin as [Hy Hl].
      destruct (String.eqb_spec y value); [congruence|]. simpl.
      by rewrite IH. }
    unfold toggleListValue at 2. rewrite bool_decide_false by done.
    unfold toggleListValue.
    rewrite bool_decide_true by (apply elem_of_app; right; by left).
    cbv zeta. rewrite Hfilter.
    destruct Hsome as [Hne| ->].
    + rewrite (bool_decide_false (l = [])) by done. done.
    + by rewrite andb_false_r.
  - apply toggleListValue_keeps_some.
  - unfold toggleListValue. rewrite bool_decide_true by by left.
    simpl. by rewrite String.eqb_refl.
  - apply toggleListValue_elem_of.
Qed.

Lemma toggle_list_value_witness :
  toggleListValue (toggleListValue ["a"; "b"]%string "c" false) "c" false
    = ["a"; "b"]%string /\
  ("a"%string ∈ toggleListValue ["a"; "b"]%string "c" true
   <-> "a"%string ∈ ["a"; "b"]%string).
Proof.
  split.
  - apply (toggle_list_value ["a"; "b"]%string "c" "a" false).
    + apply (bool_decide_unpack _). vm_compute. reflexivity.
    + left. discriminate.
  - apply (toggle_list_value ["a"; "b"]%string "c" "a" true). discriminate.
Defined.

Lemma strict_times_NoDup l :
  StronglySorted (fun a b => timeMs a < timeMs b) l -> NoDup l.
Proof.
  induction 1 as [|x l Hs IH Hall]; constructor; [|done].
  intros Hin. rewrite Forall_forall in Hall. specialize (Hall x Hin). lia.
Qed.

Lemma goodTimes_sorted l :
  l <> [] -> Forall (fun s => validTime s = true) l -> NoDup l ->
  goodTimes (sortBy compareStrings l).
Proof.
  intros Hne Hvalid Hnd. split_and!.
  - intros Hnil. apply Hne. apply Permutation_nil_r.
    rewrite <- Hnil. by rewrite sortBy_perm.
  - by rewrite sortBy_perm.
  - apply sorted_strict with (P := fun s => validTime s = true).
    + intros a b. apply timeMs_inj.
    + by rewrite sortBy_perm.
    + by rewrite sortBy_perm.
    + apply sortBy_sorted with (P := fun s => validTime s = true); [|done].
      intros a b. apply compareStrings_time.
Qed.

Lemma uniqueFrom_spec seen xs :
  NoDup (uniqueFrom seen xs) /\
  forall x, x ∈ uniqueFrom seen xs <-> x ∈ xs /\ x ∉ seen.
Proof.
  revert seen. induction xs as [|y xs IH]; intros seen; simpl.
  - split; [constructor|]. intros x. rewrite elem_of_nil. tauto.
  - case_bool_decide as Hy.
    + destruct (IH seen) as [Hnd Hin]. split; [done|].
      intros x. rewrite Hin, elem_of_cons. split; [tauto|].
      intros [[->|Hx] Hs]; tauto.
    + destruct (IH (y :: seen)) as [Hnd Hin]. split.
      * constructor; [|done]. rewrite Hin, elem_of_cons. tauto.
      * intros x. rewrite elem_of_cons, Hin, !elem_of_cons.
        destruct (decide (x = y)) as [->|Hne]; tauto.
Qed.

(** X10.  A list of times of the form that is not empty, valid and strictly
    ascending stays so when a valid time is toggled and when any text is
    added as a custom time; adding keeps every time already there and adds
    the normalised one, toggling leaves every other time as it was. *)
Theorem form_times_stay_good (prev : list string) (time value x : string) :
  goodTimes prev ->
  (validTime time = true -> goodTimes (toggleTime time prev)) /\
  (x <> time -> (x ∈ toggleTime time prev <-> x ∈ prev)) /\
  goodTimes (addTime value prev) /\
  (x ∈ addTime value prev <-> x ∈ prev \/ normalizeTimeInput value = Some x).
Proof.
  intros (Hne & Hvalid & Hsorted).
  pose proof (strict_times_NoDup prev Hsorted) as Hnd.
  split_and!.
  - intros Htime. unfold toggleTime. apply goodTimes_sorted.
    + apply toggleListValue_keeps_some.
    + apply Forall_forall. intros y Hy.
      apply toggleListValue_within in Hy as [Hy| ->]; [|done].
      rewrite Forall_forall in Hvalid. by apply Hvalid.
    + by apply toggleListValue_NoDup.
  - intros Hx. unfold toggleTime.
    rewrite sortBy_elem_of. by apply toggleListValue_elem_of.
  - unfold addTime.
    destruct (normalizeTimeInput value) as [normalized|] eqn:Hnorm; [|done].
    destruct (uniqueFrom_spec [] (prev ++ [normalized])) as [Hund Huin].
    apply goodTimes_sorted.
    + intros Hnil.
      assert (Hin : normalized ∈ arrayFromSet (prev ++ [normalized])).
      { apply Huin. split; [|apply not_elem_of_nil].
        apply elem_of_app. right. by left. }
      rewrite Hnil in Hin. by apply elem_of_nil in Hin.
    + apply Forall_forall. intros y Hy. apply Huin in Hy as [Hy _].
      apply elem_of_app in Hy as [Hy|Hy].
      * rewrite Forall_forall in Hvalid. by apply Hvalid.
      * apply list_elem_of_singleton in Hy. subst y.
        by apply normalizeTimeInput_formats in Hnorm
          as (h & m & Hh & Hm & ->); unfold validTime;
          rewrite formatTime_valid.
    + done.
  - unfold addTime.
    destruct (normalizeTimeInput value) as [normalized|] eqn:Hnorm.
    + destruct (uniqueFrom_spec [] (prev ++ [normalized])) as [_ Huin].
      rewrite sortBy_elem_of. unfold arrayFromSet. rewrite Huin.
      rewrite elem_of_app, list_elem_of_singleton.
      split.
      * intros [[?| ->] _]; [by left|by right].
      * intros [?|[= ->]]; (split; [tauto|apply not_elem_of_nil]).
    + split; [by left|]. by intros [?|?].
Qed.

Lemma base_times_valid : Forall (fun s => validTime s = true) BASE_TIME_OPTIONS.
Proof. repeat constructor. Qed.

Lemma form_times_stay_good_witness :
  goodTimes (toggleTime "06:00" ["08:00"; "20:30"]%string) /\
  goodTimes (addTime " 7:05" ["08:00"; "20:30"]%string) /\
  ("07:05"%string ∈ addTime " 7:05" ["08:00"; "20:30"]%string).
Proof.
  assert (Hgood : goodTimes ["08:00"; "20:30"]%string).
  { split_and!; [discriminate|repeat constructor|repeat constructor]. }
  destruct (form_times_stay_good ["08:00"; "20:30"]%string "06:00" " 7:05"
              "07:05" Hgood) as (Htoggle & _ & Hadd & Hmember).
  split; [apply Htoggle; reflexivity|]. split; [exact Hadd|].
  apply Hmember. right. reflexivity.
Defined.

Lemma toggleDaySelection_keeps days day :
  days <> [] -> NoDup days ->
  toggleDaySelection day days <> [] /\ NoDup (toggleDaySelection day days).
Proof.
  intros Hne Hnd. unfold toggleDaySelection.
  destruct (bool_decide (day ∈ days)) eqn:Hin.
  - destruct (Nat.leb_spec (length days) 1) as [Hone|Hmore]; [done|].
    split; [|by apply filter_NoDup].
    destruct days as [|a [|b rest]]; simpl in Hmore; [lia..|].
    apply NoDup_cons in Hnd as [Hab _].
    assert (Hother : exists y, y ∈ a :: b :: rest /\ y <> day).
    { destruct (decide (a = day)) as [->|Ha].
      - exists b. split; [set_solver|]. intros ->. apply Hab. by left.
      - exists a. split; [by left|done]. }
    destruct Hother as (y & Hy & Hyd).
    intros Hnil.
    assert (Hyin : y ∈ List.filter (fun item => negb (item =? day)) (a :: b :: rest)).
    { rewrite list_elem_of_In, filter_In, <- list_elem_of_In.
      split; [done|]. apply negb_true_iff. by apply Z.eqb_neq. }
    rewrite Hnil in Hyin. by apply elem_of_nil in Hyin.
  - apply bool_decide_eq_false in Hin. split; [by destruct days|].
    apply NoDup_app. split_and!; [done| |apply NoDup_singleton].
    intros x Hx Hx'. apply list_elem_of_singleton in Hx'. by subst.
Qed.

(** X11.  Whatever sequence of day toggles and presets is applied to the
    weekdays of the form, starting from a list of distinct days that is not
    empty, the list stays non-empty and without duplicates. *)
Theorem form_days_stay_good (days : list Z) (ops : list DayOp) :
  days <> [] -> NoDup days ->
  foldl dayStep days ops <> [] /\ NoDup (foldl dayStep days ops).
Proof.
  revert days. induction ops as [|op ops IH]; intros days Hne Hnd; simpl;
    [done|].
  destruct op as [day|preset]; simpl.
  - destruct (toggleDaySelection_keeps days day Hne Hnd) as [Hne' Hnd'].
    by apply IH.
  - apply IH.
    + by destruct preset.
    + destruct preset; simpl; apply NoDup_ListNoDup;
        repeat constructor; simpl; lia.
Qed.

Lemma form_days_stay_good_witness :
  foldl dayStep [1; 2; 3; 4; 5]
    [DayToggle 1; DayToggle 0; DayPresetOp weekend; DayToggle 0; DayToggle 6] <> [] /\
  NoDup (foldl dayStep [1; 2; 3; 4; 5]
    [DayToggle 1; DayToggle 0; DayPresetOp weekend; DayToggle 0; DayToggle 6]).
Proof.
  apply form_days_stay_good; [discriminate|].
  apply NoDup_ListNoDup. repeat constructor; simpl; lia.
Defined.

(** ** The task registry *)

Lemma normalizeSchedule_complete s : completeSchedule (normalizeSchedule s).
Proof.
  unfold completeSchedule, normalizeSchedule. cbn.
  split_and!; eexists; try reflexivity; (split; [reflexivity|]).
  - by destruct (dailyTimes s) as [[|]|].
  - by destruct (weeklyDays s) as [[|]|].
  - by destruct (weeklyTimes s) as [[|]|].
  - destruct (intervalHours s) as [n|]; [|done].
    destruct (Z.eqb_spec n 0), (Z.ltb_spec 0 n); simpl; lia.
  - by destruct (intervalStartTime s) as [[|]|].
  - by destruct (intervalEndTime s) as [[|]|].
  - by destruct (fallbackTimes s) as [[|]|].
Qed.

Lemma handleSaveTask_result f now freshId tasks saved next :
  handleSaveTask f now freshId tasks = Some (saved, next) ->
  schedule saved = formSchedule f /\
  task_id saved = default freshId (editingTaskId f ≫= nonEmptyString) /\
  task_name saved = trim (formName f) /\
  enabled saved = formEnabled f /\
  createdAt saved =
    match editingTaskId f ≫= nonEmptyString with
    | Some id =>
        match findTask id tasks with
        | Some task => if createdAt task =? 0 then now else createdAt task
        | None => now
        end
    | None => now
    end /\
  lastRunAt saved =
    match editingTaskId f ≫= nonEmptyString with
    | Some id => findTask id tasks ≫= lastRunAt
    | None => None
    end /\
  next =
    if existsb (fun task => String.eqb (task_id task) (task_id saved)) tasks
    then map (fun task =>
                if String.eqb (task_id task) (task_id saved) then saved else task)
             tasks
    else saved :: tasks.
Proof.
  unfold handleSaveTask. cbv zeta.
  destruct (isEmpty _); [done|].
  destruct (bool_decide _); [done|].
  destruct (bool_decide _); [done|].
  destruct (_ && _); [done|].
  intros [= <- <-]. by cbn.
Qed.

Lemma repairTask_complete accountEmails modelIds changed task :
  completeSchedule (schedule (repairTask accountEmails modelIds changed task).1).
Proof.
  unfold repairTask. cbv zeta.
  pose proof (normalizeSchedule_complete
                (spread DEFAULT_SCHEDULE (schedule task))) as Hs0.
  set (s0 := normalizeSchedule _) in *. clearbody s0.
  destruct (bool_decide (accountEmails = [])).
  - destruct (bool_decide (modelIds = [])); [done|].
    by destruct (String.eqb _ _).
  - destruct (String.eqb _ _).
    + destruct (bool_decide (modelIds = [])); [done|].
      by destruct (String.eqb _ _).
    + destruct (bool_decide (modelIds = [])); [done|].
      by destruct (String.eqb _ _).
Qed.

Lemma repairAll_complete accountEmails modelIds changed tasks :
  Forall (fun task => completeSchedule (schedule task))
    (repairAll accountEmails modelIds changed tasks).1.
Proof.
  revert changed. induction tasks as [|task tasks IH]; intros changed; simpl;
    [constructor|].
  pose proof (repairTask_complete accountEmails modelIds changed task) as Htask.
  destruct (repairTask accountEmails modelIds changed task) as [task' changed'].
  specialize (IH changed').
  destruct (repairAll accountEmails modelIds changed' tasks) as [rest changed''].
  by constructor.
Qed.

Lemma registryStep_complete tasks op :
  Forall (fun task => completeSchedule (schedule task)) tasks ->
  Forall (fun task => completeSchedule (schedule task)) (registryStep tasks op).
Proof.
  intros Hall. destruct op as [f now freshId|taskId confirmed|taskId|taskId ranAt|
                               accountEmails modelIds]; simpl.
  - destruct (handleSaveTask f now freshId tasks) as [[saved next]|] eqn:Hsave;
      [|done].
    apply handleSaveTask_result in Hsave as (Hsched & _ & _ & _ & _ & _ & ->).
    assert (Hsaved : completeSchedule (schedule saved))
      by (rewrite Hsched; apply normalizeSchedule_complete).
    destruct (existsb _ _); [|by constructor].
    apply Forall_map. eapply Forall_impl; [exact Hall|].
    intros task Htask. simpl. by destruct (String.eqb _ _).
  - unfold handleDeleteTask. destruct (findTask _ _); [|done].
    destruct confirmed; [|done].
    apply Forall_forall. intros task Hin.
    apply list_elem_of_In, filter_In in Hin as [Hin _].
    rewrite Forall_forall in Hall. by apply Hall, list_elem_of_In.
  - unfold handleToggleTask. apply Forall_map.
    eapply Forall_impl; [exact Hall|].
    intros task Htask. simpl. by destruct (String.eqb _ _).
  - unfold handleTaskResult. apply Forall_map.
    eapply Forall_impl; [exact Hall|].
    intros task Htask. simpl. by destruct (String.eqb _ _).
  - unfold repairSelections.
    destruct (bool_decide (tasks = [])); [done|].
    destruct (_ && _); [done|].
    pose proof (repairAll_complete accountEmails modelIds false tasks) as Hrep.
    destruct (repairAll accountEmails modelIds false tasks) as [nextTasks changed].
    by destruct changed.
Qed.

Lemma loadTasks_complete parseJson defaultTaskName freshId now localStorage :
  Forall (fun task => completeSchedule (schedule task))
    (loadTasks parseJson defaultTaskName freshId now localStorage).1.
Proof.
  unfold loadTasks.
  destruct (readStorageWithLegacy _ _ _) as [rawTasks stored].
  destruct rawTasks as [[|a r]|]; simpl;
    try (constructor; [apply normalizeSchedule_complete|constructor]).
  destruct (parseJson _) as [parsed|]; [|constructor].
  apply Forall_map, Forall_forall. intros task _.
  apply normalizeSchedule_complete.
Qed.

Lemma registry_complete tasks ops :
  Forall (fun task => completeSchedule (schedule task)) tasks ->
  Forall (fun task => completeSchedule (schedule task))
    (foldl registryStep tasks ops).
Proof.
  revert tasks. induction ops as [|op ops IH]; intros tasks Hall; simpl; [done|].
  by apply IH, registryStep_complete.
Qed.

(** X12.  Whatever the storage holds and whatever is done to the task set
    afterwards (saving a form, deleting, toggling, recording a run, the
    selection repair), every task the page holds has a complete schedule:
    non-empty lists of times and days, non-empty interval bounds and a
    positive interval step. *)
Theorem registry_schedules_complete
    (parseJson : string -> option (list WakeupTask))
    (defaultTaskName freshId : string) (now : Z)
    (localStorage : gmap string string) (ops : list RegistryOp) :
  Forall (fun task => completeSchedule (schedule task))
    (foldl registryStep
       (loadTasks parseJson defaultTaskName freshId now localStorage).1 ops).
Proof. apply registry_complete, loadTasks_complete. Qed.

Lemma taskIds_map_same (g : WakeupTask -> WakeupTask) tasks :
  (forall task, task_id (g task) = task_id task) ->
  taskIds (map g tasks) = taskIds tasks.
Proof.
  intros Hg. unfold taskIds. rewrite map_map. apply map_ext, Hg.
Qed.

Lemma existsb_task_id id tasks :
  existsb (fun task => String.eqb (task_id task) id) tasks = true
  <-> id ∈ taskIds tasks.
Proof.
  rewrite existsb_exists. unfold taskIds.
  rewrite list_elem_of_In, in_map_iff.
  split; intros (task & H1 & H2); exists task.
  - by apply String.eqb_eq in H2.
  - split; [done|]. by apply String.eqb_eq.
Qed.

Lemma repairTask_id accountEmails modelIds changed task :
  task_id (repairTask accountEmails modelIds changed task).1 = task_id task.
Proof.
  unfold repairTask. cbv zeta. by repeat case_match.
Qed.

Lemma repairAll_ids accountEmails modelIds changed tasks :
  taskIds (repairAll accountEmails modelIds changed tasks).1 = taskIds tasks.
Proof.
  revert changed. induction tasks as [|task tasks IH]; intros changed; simpl;
    [done|].
  pose proof (repairTask_id accountEmails modelIds changed task) as Hid.
  destruct (repairTask accountEmails modelIds changed task) as [task' changed'].
  specialize (IH changed').
  destruct (repairAll accountEmails modelIds changed' tasks) as [rest changed''].
  simpl in *. by rewrite Hid, IH.
Qed.

Lemma repairSelections_ids tasks accountEmails modelIds :
  taskIds (repairSelections tasks accountEmails modelIds) = taskIds tasks.
Proof.
  unfold repairSelections.
  destruct (bool_decide (tasks = [])); [done|].
  destruct (_ && _); [done|].
  pose proof (repairAll_ids accountEmails modelIds false tasks) as Hids.
  destruct (repairAll accountEmails modelIds false tasks) as [nextTasks changed].
  by destruct changed.
Qed.

Lemma handleToggleTask_ids taskId tasks :
  taskIds (handleToggleTask taskId tasks) = taskIds tasks.
Proof.
  apply taskIds_map_same. intros task. by destruct (String.eqb _ _).
Qed.

Lemma handleTaskResult_ids taskId ranAt tasks :
  taskIds (handleTaskResult taskId ranAt tasks) = taskIds tasks.
Proof.
  apply taskIds_map_same. intros task. by destruct (String.eqb _ _).
Qed.

Lemma filter_ids_NoDup (p : WakeupTask -> bool) tasks :
  NoDup (taskIds tasks) -> NoDup (taskIds (List.filter p tasks)).
Proof.
  unfold taskIds. induction tasks as [|task tasks IH]; simpl; [done|].
  intros Hnd. apply NoDup_cons in Hnd as [Hnotin Hnd]. destruct (p task); simpl; [|by apply IH].
  constructor; [|by apply IH].
  intros Hin. apply Hnotin.
  apply list_elem_of_In, in_map_iff in Hin as (other & Hid & Hin).
  apply filter_In in Hin as [Hin _].
  apply list_elem_of_In, in_map_iff. by exists other.
Qed.

Lemma registryStep_ids tasks op :
  NoDup (taskIds tasks) -> NoDup (taskIds (registryStep tasks op)).
Proof.
  intros Hnd. destruct op as [f now freshId|taskId confirmed|taskId|taskId ranAt|
                              accountEmails modelIds]; simpl.
  - destruct (handleSaveTask f now freshId tasks) as [[saved next]|] eqn:Hsave;
      [|done].
    apply handleSaveTask_result in Hsave as (_ & _ & _ & _ & _ & _ & ->).
    destruct (existsb _ _) eqn:Hex.
    + rewrite taskIds_map_same; [done|].
      intros task. destruct (String.eqb_spec (task_id task) (task_id saved)); done.
    + unfold taskIds. simpl. constructor; [|done].
      intros Hin. apply existsb_task_id in Hin. congruence.
  - unfold handleDeleteTask. destruct (findTask _ _); [|done].
    destruct confirmed; [|done]. by apply filter_ids_NoDup.
  - by rewrite handleToggleTask_ids.
  - by rewrite handleTaskResult_ids.
  - by rewrite repairSelections_ids.
Qed.

(** X14.  Task identifiers that are distinct stay distinct whatever is done
    to the task set: a save replaces the task with the same identifier or
    adds one with an identifier not yet there, a delete only removes, and
    toggling, recording a run and the selection repair keep the identifiers
    and their order. *)
Theorem registry_ids_distinct (tasks : list WakeupTask) (ops : list RegistryOp)
    (taskId : string) (ranAt : Z) (accountEmails modelIds : list string) :
  NoDup (taskIds tasks) ->
  NoDup (taskIds (foldl registryStep tasks ops)) /\
  taskIds (handleToggleTask taskId tasks) = taskIds tasks /\
  taskIds (handleTaskResult taskId ranAt tasks) = taskIds tasks /\
  taskIds (repairSelections tasks accountEmails modelIds) = taskIds tasks.
Proof.
  intros Hnd. split_and!.
  - revert tasks Hnd. induction ops as [|op ops IH]; intros tasks Hnd; simpl;
      [done|].
    by apply IH, registryStep_ids.
  - apply handleToggleTask_ids.
  - apply handleTaskResult_ids.
  - apply repairSelections_ids.
Qed.

Lemma registry_ids_distinct_witness :
  NoDup (taskIds (foldl registryStep twoTasks
                    [OpSave sampleForm 11 "task-2"; OpToggle "task-0";
                     OpDelete "task-0" true; OpResult "task-1" 12])) /\
  taskIds (handleToggleTask "task-1" twoTasks) = taskIds twoTasks /\
  taskIds (handleTaskResult "task-1" 12 twoTasks) = taskIds twoTasks /\
  taskIds (repairSelections twoTasks knownAccounts knownModels) = taskIds twoTasks.
Proof.
  apply registry_ids_distinct.
  apply (bool_decide_unpack _). vm_compute. reflexivity.
Defined.

Lemma findTask_replace id saved other tasks :
  task_id saved = id -> other <> id ->
  findTask other
    (map (fun task => if String.eqb (task_id task) id then saved else task) tasks)
  = findTask other tasks.
Proof.
  intros Hid Hother. unfold findTask.
  induction tasks as [|task tasks IH]; simpl; [done|].
  destruct (String.eqb_spec (task_id task) id) as [Heq|Hne].
  - rewrite Hid, Heq. destruct (String.eqb_spec id other); [congruence|done].
  - destruct (String.eqb _ other); [done|apply IH].
Qed.

Lemma findTask_replaced id saved old tasks :
  task_id saved = id -> findTask id tasks = Some old ->
  findTask id
    (map (fun task => if String.eqb (task_id task) id then saved else task) tasks)
  = Some saved.
Proof.
  intros Hid. unfold findTask.
  induction tasks as [|task tasks IH]; simpl; [done|].
  destruct (String.eqb_spec (task_id task) id) as [Heq|Hne].
  - intros _. by rewrite Hid, String.eqb_refl.
  - destruct (String.eqb_spec (task_id task) id); [done|apply IH].
Qed.

Lemma findTask_some_id id task tasks :
  findTask id tasks = Some task -> task_id task = id /\ id ∈ taskIds tasks.
Proof.
  unfold findTask. intros Hfind. destruct (find_some _ _ Hfind) as [Hin Heq].
  apply String.eqb_eq in Heq. split; [done|].
  unfold taskIds. apply list_elem_of_In, in_map_iff. by exists task.
Qed.

(** X15.  Saving the form of a task that is being edited replaces that task
    where it stands: the saved task keeps the identifier, the last run and a
    non-zero creation time of the old one, the identifiers of the task set
    and their order are the same, and every other task is as before. *)
Theorem save_updates_in_place (f : TaskForm) (now : Z) (freshId id other : string)
    (tasks next : list WakeupTask) (saved old : WakeupTask) :
  handleSaveTask f now freshId tasks = Some (saved, next) ->
  editingTaskId f = Some id -> id <> EmptyString ->
  findTask id tasks = Some old ->
  task_id saved = id /\
  lastRunAt saved = lastRunAt old /\
  createdAt saved = (if createdAt old =? 0 then now else createdAt old) /\
  taskIds next = taskIds tasks /\
  findTask id next = Some saved /\
  (other <> id -> findTask other next = findTask other tasks).
Proof.
  intros Hsave Hedit Hid Hold.
  apply handleSaveTask_result in Hsave
    as (_ & Hsid & _ & _ & Hcreated & Hran & ->).
  assert (Hediting : editingTaskId f ≫= nonEmptyString = Some id).
  { rewrite Hedit. simpl. unfold nonEmptyString. by destruct id. }
  rewrite Hediting in Hsid, Hcreated, Hran. simpl in Hsid.
  rewrite Hold in Hcreated, Hran. simpl in Hran.
  destruct (findTask_some_id _ _ _ Hold) as [_ Hin].
  rewrite Hsid.
  rewrite (proj2 (existsb_task_id id tasks) Hin).
  split_and!; try done.
  - apply taskIds_map_same. intros task.
    destruct (String.eqb_spec (task_id task) id); congruence.
  - by eapply findTask_replaced.
  - intros Hother. by apply findTask_replace.
Qed.

Lemma save_updates_in_place_witness :
  exists saved next,
    handleSaveTask sampleForm 11 "task-2" twoTasks = Some (saved, next) /\
    task_id saved = "task-1"%string /\
    lastRunAt saved = Some 9 /\
    createdAt saved = 7 /\
    taskIds next = ["task-0"; "task-1"]%string /\
    findTask "task-1" next = Some saved /\
    findTask "task-0" next = Some (namedTask "task-0" 5 None).
Proof.
  destruct (handleSaveTask sampleForm 11 "task-2" twoTasks)
    as [[saved next]|] eqn:Hsave; [|discriminate].
  exists saved, next. split; [reflexivity|].
  destruct (save_updates_in_place sampleForm 11 "task-2" "task-1" "task-0"
              twoTasks next saved (namedTask "task-1" 7 (Some 9)) Hsave)
    as (H1 & H2 & H3 & H4 & H5 & H6);
    [reflexivity|discriminate|reflexivity|].
  split_and!; [exact H1|exact H2|exact H3|exact H4|exact H5|].
  rewrite H6; [reflexivity|discriminate].
Defined.

(** X16.  Saving the form of a new task, with a generated identifier that no
    task has, puts the new task in front of the others, which are untouched;
    it is created now and has never run. *)
Theorem save_prepends_new (f : TaskForm) (now : Z) (freshId : string)
    (tasks next : list WakeupTask) (saved : WakeupTask) :
  handleSaveTask f now freshId tasks = Some (saved, next) ->
  editingTaskId f = None -> freshId ∉ taskIds tasks ->
  next = saved :: tasks /\
  task_id saved = freshId /\ createdAt saved = now /\ lastRunAt saved = None /\
  schedule saved = formSchedule f.
Proof.
  intros Hsave Hedit Hfresh.
  apply handleSaveTask_result in Hsave
    as (Hsched & Hsid & _ & _ & Hcreated & Hran & ->).
  rewrite Hedit in Hsid, Hcreated, Hran. simpl in Hsid, Hcreated, Hran.
  rewrite Hsid.
  destruct (existsb _ tasks) eqn:Hex.
  - apply existsb_task_id in Hex. done.
  - done.
Qed.

Lemma save_prepends_new_witness :
  exists saved,
    handleSaveTask crontabForm 11 "task-2" twoTasks
      = Some (saved, saved :: twoTasks) /\
    task_id saved = "task-2"%string /\ createdAt saved = 11 /\
    lastRunAt saved = None.
Proof.
  destruct (handleSaveTask crontabForm 11 "task-2" twoTasks)
    as [[saved next]|] eqn:Hsave; [|discriminate].
  destruct (save_prepends_new crontabForm 11 "task-2" twoTasks next saved Hsave)
    as (H1 & H2 & H3 & H4 & _);
    [reflexivity|apply (bool_decide_unpack _); vm_compute; reflexivity|].
  exists saved. subst next. split_and!; [reflexivity|exact H2|exact H3|exact H4].
Defined.

(** X17.  Toggling a task twice gives the task set back. *)
Theorem toggle_task_twice (taskId : string) (tasks : list WakeupTask) :
  handleToggleTask taskId (handleToggleTask taskId tasks) = tasks.
Proof.
  unfold handleToggleTask. rewrite map_map.
  rewrite <- (map_id tasks) at 2. apply map_ext. intros task.
  destruct (String.eqb (task_id task) taskId) eqn:Heq; simpl; rewrite Heq.
  - destruct task as [? ? [] ? ? ?]; reflexivity.
  - reflexivity.
Qed.

Lemma findTask_filter id other tasks :
  other <> id ->
  findTask other
    (List.filter (fun item => negb (String.eqb (task_id item) id)) tasks)
  = findTask other tasks.
Proof.
  intros Hother. unfold findTask.
  induction tasks as [|task tasks IH]; simpl; [done|].
  destruct (String.eqb_spec (task_id task) id) as [Heq|Hne]; simpl.
  - destruct (String.eqb_spec (task_id task) other); [congruence|done].
  - by rewrite IH.
Qed.

(** X18.  A confirmed delete removes every task with the identifier and
    leaves every other task to be found as before; a delete that is not
    confirmed changes nothing. *)
Theorem delete_task (taskId other : string) (tasks : list WakeupTask) :
  other <> taskId ->
  (taskId ∉ taskIds (handleDeleteTask taskId true tasks)) /\
  findTask other (handleDeleteTask taskId true tasks) = findTask other tasks /\
  handleDeleteTask taskId false tasks = tasks.
Proof.
  intros Hother. unfold handleDeleteTask.
  destruct (findTask taskId tasks) as [task|] eqn:Hfind.
  - split_and!; [|by apply findTask_filter|done].
    unfold taskIds. rewrite list_elem_of_In, in_map_iff.
    intros (item & Hid & Hin). apply filter_In in Hin as [_ Hkeep].
    apply negb_true_iff, String.eqb_neq in Hkeep. done.
  - split_and!; [|done..].
    intros Hin. apply existsb_task_id in Hin.
    unfold findTask in Hfind.
    apply existsb_exists in Hin as (item & Hin & Heq).
    by apply (find_none _ _ Hfind) in Hin; congruence.
Qed.

Lemma delete_task_witness :
  ("task-0"%string ∉ taskIds (handleDeleteTask "task-0" true twoTasks)) /\
  findTask "task-1" (handleDeleteTask "task-0" true twoTasks)
    = findTask "task-1" twoTasks /\
  handleDeleteTask "task-0" false twoTasks = twoTasks.
Proof. apply delete_task. discriminate. Defined.

(** ** What the page keeps in the storage *)

Lemma complete_normalizeSchedule s : completeSchedule s -> normalizeSchedule s = s.
Proof.
  intros ((dt & Hdt & Hdt') & (wd & Hwd & Hwd') & (wt & Hwt & Hwt') &
          (hours & Hh & Hh') & (st & Hst & Hst') & (en & Hen & Hen') &
          (tokens & Htok) & (ft & Hft & Hft')).
  destruct s. cbn in *. subst. unfold normalizeSchedule. cbn.
  destruct dt, wd, wt, st, en, ft; try done.
  destruct (Z.eqb_spec hours 0), (Z.ltb_spec 0 hours); try lia. done.
Qed.

Lemma complete_normalizeTask task :
  completeSchedule (schedule task) -> normalizeTask task = task.
Proof.
  intros Hcomplete. unfold normalizeTask.
  assert (Hspread : spread DEFAULT_SCHEDULE (schedule task) = schedule task).
  { destruct Hcomplete
      as ((dt & Hdt & _) & (wd & Hwd & _) & (wt & Hwt & _) &
          (hours & Hh & _) & (st & Hst & _) & (en & Hen & _) &
          (tokens & Htok) & (ft & Hft & _)).
    destruct (schedule task). cbn in *. subst. unfold spread, present. cbn.
    f_equal; by repeat case_match. }
  rewrite Hspread, complete_normalizeSchedule by done.
  by destruct task.
Qed.

(** X19.  Tasks with complete schedules that are written to the storage are
    read back as they were, provided the JSON text parses back to them; the
    read leaves the storage as the write made it, without the legacy key. *)
Theorem tasks_persist_round_trip
    (parseJson : string -> option (list WakeupTask))
    (stringifyTasks : list WakeupTask -> string)
    (defaultTaskName freshId : string) (now : Z)
    (tasks : list WakeupTask) (localStorage : gmap string string) :
  parseJson (stringifyTasks tasks) = Some tasks ->
  stringifyTasks tasks <> EmptyString ->
  Forall (fun task => completeSchedule (schedule task)) tasks ->
  let stored := persistTasks stringifyTasks tasks localStorage in
  (loadTasks parseJson defaultTaskName freshId now stored = (tasks, stored) /\
   stored !! LEGACY_WAKEUP_TASKS_KEY = None).
Proof.
  intros Hparse Htext Hcomplete stored.
  assert (Hkey : stored !! WAKEUP_TASKS_KEY = Some (stringifyTasks tasks)).
  { unfold stored, persistTasks, writeStorageAndCleanupLegacy.
    rewrite bool_decide_true by done.
    rewrite lookup_delete_ne by done. by rewrite lookup_insert_eq. }
  split.
  - unfold loadTasks, readStorageWithLegacy. rewrite Hkey.
    destruct (stringifyTasks tasks) as [|a r] eqn:Htasks; [done|].
    unfold parseTasks. rewrite Hparse. f_equal.
    rewrite <- (map_id tasks) at 2. apply map_ext_Forall.
    eapply Forall_impl; [exact Hcomplete|].
    intros task. apply complete_normalizeTask.
  - unfold stored, persistTasks, writeStorageAndCleanupLegacy.
    rewrite bool_decide_true by done. apply lookup_delete_eq.
Qed.

Lemma tasks_persist_round_trip_witness :
  let stored := persistTasks (fun _ => "[task]"%string) [firstTask] legacyOnly in
  (loadTasks (fun _ => Some [firstTask]) "Wake" "id" 0 stored
     = ([firstTask], stored) /\
   stored !! LEGACY_WAKEUP_TASKS_KEY = None).
Proof.
  apply (tasks_persist_round_trip (fun _ => Some [firstTask])
           (fun _ => "[task]"%string) "Wake" "id" 0 [firstTask] legacyOnly).
  - reflexivity.
  - discriminate.
  - constructor; [|constructor]. apply normalizeSchedule_complete.
Defined.

(** X20.  The switch of the feature is read back from the storage as it was
    written, the read leaves the storage as it is, and without any stored
    value the feature is off. *)
Theorem wakeup_enabled_round_trip (b : bool) (localStorage : gmap string string) :
  loadWakeupEnabled (persistWakeupEnabled b localStorage)
    = (b, persistWakeupEnabled b localStorage) /\
  (loadWakeupEnabled ∅).1 = false.
Proof.
  split; [|reflexivity].
  unfold loadWakeupEnabled, readStorageWithLegacy.
  assert (Hkey : persistWakeupEnabled b localStorage !! WAKEUP_ENABLED_KEY
                 = Some (boolToString b)).
  { unfold persistWakeupEnabled, writeStorageAndCleanupLegacy.
    rewrite bool_decide_true by done.
    rewrite lookup_delete_ne by done. by rewrite lookup_insert_eq. }
  rewrite Hkey. by destruct b.
Qed.

(** ** The history log, continued *)

Lemma insertBy_front {A} (cmp : A -> A -> Z) x l :
  Forall (fun y => cmp x y <= 0) l -> insertBy cmp x l = x :: l.
Proof.
  destruct l as [|y l]; simpl; [done|].
  intros [Hy _]%Forall_cons. by destruct (Z.leb_spec (cmp x y) 0); [|lia].
Qed.

Lemma sortBy_sorted_same {A} (cmp : A -> A -> Z) l :
  StronglySorted (fun a b => cmp a b <= 0) l -> sortBy cmp l = l.
Proof.
  induction 1 as [|x l Hs IH Hall]; simpl; [done|].
  rewrite IH. by apply insertBy_front.
Qed.

Lemma StronglySorted_app_intro {A} (R : relation A) l1 l2 :
  StronglySorted R l1 -> StronglySorted R l2 ->
  (forall x y, x ∈ l1 -> y ∈ l2 -> R x y) ->
  StronglySorted R (l1 ++ l2).
Proof.
  induction 1 as [|x l1 Hs IH Hall]; intros Hl2 Hcross; simpl; [done|].
  constructor.
  - apply IH; [done|]. intros a b Ha. apply Hcross. by right.
  - apply Forall_app. split; [done|].
    apply Forall_forall. intros y Hy. apply Hcross; [by left|done].
Qed.

(** X21.  Appending to the history loses nothing while the log has room,
    and a batch that is in newest-first order and at least as new as every
    record held goes in front of the log in its own order, the oldest
    records falling off the end. *)
Theorem append_history_in_front (records prev : list WakeupHistoryRecord) :
  ((length records + length prev <= MAX_HISTORY_ITEMS)%nat ->
   appendHistoryRecords records prev ≡ₚ records ++ prev) /\
  (newestFirstOrder records -> newestFirstOrder prev ->
   (forall r p, r ∈ records -> p ∈ prev -> timestamp p <= timestamp r) ->
   (length prev <= MAX_HISTORY_ITEMS)%nat ->
   appendHistoryRecords records prev
   = take MAX_HISTORY_ITEMS (records ++ prev)).
Proof.
  split.
  - intros Hroom. destruct records as [|r records]; [done|].
    unfold appendHistoryRecords.
    rewrite take_ge by (rewrite sortBy_length, length_app; done).
    apply sortBy_perm.
  - intros Hrecords Hprev Hnewer Hcap.
    destruct records as [|r records].
    + simpl. by rewrite take_ge.
    + unfold appendHistoryRecords. f_equal.
      apply sortBy_sorted_same.
      apply StronglySorted_weaken
        with (R := fun a b => timestamp b <= timestamp a).
      * intros a b. unfold newestFirst. lia.
      * apply StronglySorted_app_intro; [done..|].
        intros x y Hx Hy. by apply Hnewer.
Qed.

Lemma append_history_in_front_witness :
  appendHistoryRecords [historyEntry "c" 30; historyEntry "d" 30]
    [historyEntry "b" 20; historyEntry "a" 10]
  ≡ₚ [historyEntry "c" 30; historyEntry "d" 30] ++ [historyEntry "b" 20; historyEntry "a" 10] /\
  appendHistoryRecords [historyEntry "c" 30; historyEntry "d" 30]
    [historyEntry "b" 20; historyEntry "a" 10]
  = take MAX_HISTORY_ITEMS
      ([historyEntry "c" 30; historyEntry "d" 30] ++ [historyEntry "b" 20; historyEntry "a" 10]).
Proof.
  destruct (append_history_in_front [historyEntry "c" 30; historyEntry "d" 30]
              [historyEntry "b" 20; historyEntry "a" 10]) as [Hroom Hfront].
  split.
  - apply Hroom. vm_compute. lia.
  - apply Hfront.
    + unfold newestFirstOrder.
      repeat first [apply SSorted_nil | apply SSorted_cons
                   | apply Forall_nil_2 | apply Forall_cons_2];
        vm_compute; discriminate.
    + unfold newestFirstOrder.
      repeat first [apply SSorted_nil | apply SSorted_cons
                   | apply Forall_nil_2 | apply Forall_cons_2];
        vm_compute; discriminate.
    + intros r p Hr Hp.
      apply list_elem_of_In in Hr, Hp. simpl in Hr, Hp.
      destruct Hr as [<-|[<-|[]]], Hp as [<-|[<-|[]]]; vm_compute;
        discriminate.
    + vm_compute. lia.
Defined.

(** ** The fan-out executor, in general *)

Lemma accountByEmail_lookup accs key account :
  accountByEmail accs !! key = Some account ->
  account ∈ accs /\ toLowerCase (account_email account) = key.
Proof.
  unfold accountByEmail.
  assert (Hgen : forall (m : gmap string CodexAccount),
    (forall k a, m !! k = Some a ->
       a ∈ accs /\ toLowerCase (account_email a) = k) ->
    forall done_ rest, accs = done_ ++ rest ->
    foldl (fun m account => <[toLowerCase (account_email account) := account]> m)
      m rest !! key = Some account ->
    account ∈ accs /\ toLowerCase (account_email account) = key).
  { intros m Hm done_ rest. revert m Hm done_.
    induction rest as [|a rest IH]; intros m Hm done_ Haccs; simpl.
    - apply Hm.
    - apply (IH _) with (done_ := done_ ++ [a]).
      + intros k b. destruct (decide (toLowerCase (account_email a) = k)) as [<-|Hne].
        * rewrite lookup_insert_eq. intros [= <-]. split; [|done].
          rewrite Haccs. apply elem_of_app. right. by left.
        * rewrite lookup_insert_ne by done. apply Hm.
      + by rewrite <- app_assoc. }
  apply (Hgen ∅) with (done_ := []); [|done].
  intros k a. by rewrite lookup_empty.
Qed.

Lemma accountByEmail_known accs account :
  account ∈ accs ->
  is_Some (accountByEmail accs !! toLowerCase (account_email account)).
Proof.
  unfold accountByEmail.
  assert (Hgen : forall rest (m : gmap string CodexAccount),
    is_Some (m !! toLowerCase (account_email account)) \/ account ∈ rest ->
    is_Some
      (foldl (fun m a => <[toLowerCase (account_email a) := a]> m) m rest
       !! toLowerCase (account_email account))).
  { induction rest as [|a rest IH]; intros m [Hm|Hin]; simpl.
    - done.
    - by apply elem_of_nil in Hin.
    - apply IH. left.
      destruct (decide (toLowerCase (account_email a)
                        = toLowerCase (account_email account))) as [->|Hne].
      + by rewrite lookup_insert_eq.
      + by rewrite lookup_insert_ne.
    - apply elem_of_cons in Hin as [->|Hin].
      + apply IH. left. by rewrite lookup_insert_eq.
      + apply IH. by right. }
  intros Hin. apply Hgen. by right.
Qed.

(** X22.  [resolveAccounts] answers only known accounts, each for a selected
    email that equals the account's own up to letter case, and at most one
    per selected email; a selected email that equals, up to letter case, the
    email of a known account is always resolved. *)
Theorem resolve_accounts (accs : list CodexAccount) (emails : list string)
    (account : CodexAccount) (email : string) :
  (account ∈ resolveAccounts accs emails ->
   account ∈ accs /\
   exists selected, selected ∈ emails /\
     toLowerCase selected = toLowerCase (account_email account)) /\
  (length (resolveAccounts accs emails) <= length emails)%nat /\
  (email ∈ emails -> account ∈ accs ->
   toLowerCase email = toLowerCase (account_email account) ->
   exists found, found ∈ resolveAccounts accs emails /\
     toLowerCase (account_email found) = toLowerCase email).
Proof.
  unfold resolveAccounts. split_and!.
  - intros Hin. apply list_elem_of_omap in Hin as (selected & Hsel & Hlook).
    apply accountByEmail_lookup in Hlook as [Hacc Hkey].
    split; [done|]. by exists selected.
  - induction emails as [|e emails IH]; [done|].
    cbn in *. destruct (accountByEmail accs !! toLowerCase e); cbn in *; lia.
  - intros Hemail Hacc Hsame.
    destruct (accountByEmail_known accs account Hacc) as [found Hfound].
    rewrite <- Hsame in Hfound.
    exists found. split.
    + apply list_elem_of_omap. by exists email.
    + by apply accountByEmail_lookup in Hfound as [_ ?].
Qed.

Lemma resolve_accounts_witness :
  (accountA ∈ accounts testState /\
   exists selected, selected ∈ testSelectedAccounts testState /\
     toLowerCase selected = toLowerCase (account_email accountA)) /\
  exists found,
    found ∈ resolveAccounts (accounts testState) (testSelectedAccounts testState) /\
    toLowerCase (account_email found) = toLowerCase "A@example.com".
Proof.
  destruct (resolve_accounts (accounts testState) (testSelectedAccounts testState)
              accountA "A@example.com") as (Hknown & _ & Hfound).
  split.
  - apply Hknown. apply list_elem_of_In. vm_compute. left. reflexivity.
  - apply Hfound.
    + apply list_elem_of_In. vm_compute. left. reflexivity.
    + apply list_elem_of_In. vm_compute. left. reflexivity.
    + reflexivity.
Defined.

Lemma imap_map_indep {A B C} (g : nat -> A -> B) (f : B -> C) (h : A -> C) l :
  (forall i a, f (g i a) = h a) -> map f (imap g l) = map h l.
Proof.
  revert g. induction l as [|a l IH]; intros g Hg; simpl; [done|].
  rewrite Hg. f_equal. apply IH. intros i b. apply Hg.
Qed.

Lemma imap_Forall_indep {A B} (g : nat -> A -> B) (P : B -> Prop) l :
  (forall i a, P (g i a)) -> Forall P (imap g l).
Proof.
  revert g. induction l as [|a l IH]; intros g Hg; simpl; constructor.
  - apply Hg.
  - apply IH. intros i b. apply Hg.
Qed.

Lemma filter_map_length {A B} (f : B -> bool) (g : A -> B) l :
  length (List.filter f (map g l)) = length (List.filter (fun x => f (g x)) l).
Proof.
  induction l as [|a l IH]; simpl; [done|].
  destruct (f (g a)); simpl; by rewrite IH.
Qed.

Lemma filter_negb_length {A} (p : A -> bool) l :
  (length (List.filter p l) + length (List.filter (fun x => negb (p x)) l)
   = length l)%nat.
Proof.
  induction l as [|a l IH]; simpl; [done|].
  destruct (p a); simpl; lia.
Qed.

Section FanOutCells.

Variable codexTriggerWakeup :
  nat -> string -> string -> option string -> Z -> Settled.
Variable clock : nat -> Z.

Lemma dispatchModels_cells n account models trimmedPrompt tokens :
  map actionCell
    (dispatchModels codexTriggerWakeup clock n account models trimmedPrompt tokens)
  = map (fun model => (account_email account, model)) models.
Proof.
  revert n. induction models as [|model models IH]; intros n; simpl; [done|].
  by rewrite IH.
Qed.

Lemma dispatchAccounts_cells n selected models trimmedPrompt tokens :
  map actionCell
    (dispatchAccounts codexTriggerWakeup clock n selected models trimmedPrompt
       tokens)
  = map accountCell (list_prod selected models).
Proof.
  revert n. induction selected as [|account selected IH]; intros n; simpl;
    [done|].
  rewrite !map_app, dispatchModels_cells, IH, map_map. done.
Qed.

End FanOutCells.

(** X23.  A test run is refused exactly when a run is under way, no model
    is selected or no selected account is known.  Otherwise it dispatches one
    call per selected account and model, account by account, and records one
    history item per call, for the same account and model and in the same
    order; the failed calls and the successful items add up to the number of
    calls; the items share one manual timestamp and the prompt of the run;
    and the log stays capped and newest first. *)
Theorem immediate_test_run
    (codexTriggerWakeup : nat -> string -> string -> option string -> Z -> Settled)
    (clock : nat -> Z) (randomUUID : nat -> string)
    (formatWakeupMessage : string -> CodexWakeupInvokeResult -> Z -> string)
    (runTestLabel : string) (st : TestState) :
  let selected := resolveAccounts (accounts st) (testSelectedAccounts st) in
  let outcome :=
    runImmediateTest codexTriggerWakeup clock randomUUID formatWakeupMessage
      runTestLabel st in
  (outcome = None <->
   testing st = true \/ testSelectedModels st = [] \/ selected = []) /\
  forall run, outcome = Some run ->
    map actionCell (actions run)
      = map accountCell (list_prod selected (testSelectedModels st)) /\
    map recordCell (historyItems run) = map actionCell (actions run) /\
    (failed run + length (List.filter success (historyItems run))
     = length (actions run))%nat /\
    Forall (fun item =>
              timestamp item = clock (length (actions run)) /\
              triggerType item = trigger_manual /\
              triggerSource item = source_manual /\
              prompt item = Some (default DEFAULT_PROMPT (trimmedPromptOf st)))
           (historyItems run) /\
    (historyInvariant (historyRecords st) ->
     historyInvariant (nextHistoryRecords run)).
Proof.
  intros selected outcome. subst outcome. unfold runImmediateTest.
  fold selected. cbv zeta.
  destruct (testing st); [split; [tauto|done]|].
  destruct (bool_decide (testSelectedModels st = [])) eqn:Hmodels.
  { apply bool_decide_eq_true in Hmodels. split; [tauto|done]. }
  apply bool_decide_eq_false in Hmodels.
  destruct (bool_decide (selected = [])) eqn:Hselected.
  { apply bool_decide_eq_true in Hselected. split; [tauto|done]. }
  apply bool_decide_eq_false in Hselected.
  split; [split; [done|by intros [?|[?|?]]]|].
  intros run [= <-]. cbn [actions historyItems failed nextHistoryRecords].
  set (acts := dispatchAccounts _ _ _ _ _ _ _).
  split_and!.
  - apply dispatchAccounts_cells.
  - by apply imap_map_indep.
  - rewrite filter_map_length.
    rewrite <- (filter_map_length (fun b : bool => b) success).
    rewrite historyItems_success.
    rewrite (filter_map_length (fun b : bool => b)).
    apply filter_negb_length.
  - by apply imap_Forall_indep.
  - apply appendHistoryRecords_invariant.
Qed.

Lemma immediate_test_run_witness :
  exists run,
    runImmediateTest failsFirst (fun n => 1000 + Z.of_nat n)
      (fun n => "id"%string) (fun model result ms => reply result) "Test run"
      testState = Some run /\
    map recordCell (historyItems run)
      = [("A@example.com", "codex-hourly"); ("b@example.com", "codex-hourly")]%string /\
    (failed run + length (List.filter success (historyItems run)) = 2)%nat /\
    historyInvariant (nextHistoryRecords run).
Proof.
  destruct (immediate_test_run failsFirst (fun n => 1000 + Z.of_nat n)
              (fun n => "id"%string) (fun model result ms => reply result)
              "Test run" testState) as [_ Hrun].
  eexists. split; [reflexivity|].
  edestruct Hrun as (Hcells & Hitems & Hcount & _ & Hlog); [reflexivity|].
  split; [exact Hitems|]. split; [exact Hcount|].
  apply Hlog. split; [vm_compute; lia|constructor].
Defined.

(** ** The instance store *)

Section InstanceCache.

Context {InstanceProfile InstanceDefaults : Type}.
Variable parseArray : string -> option (list InstanceProfile).
Variable stringify : list InstanceProfile -> string.
Variable cacheKey : string.
Variable legacyCacheKeys : list string.
Variable errorText : Thrown -> string.

Lemma migrateLegacy_again legacyKeys (store : gmap string string) :
  parseCachedInstances parseArray (store !! cacheKey) = None ->
  let result := migrateLegacy parseArray cacheKey legacyKeys store in
  loadCachedInstances parseArray cacheKey legacyCacheKeys result.2 = result \/
  result = ([], store).
Proof.
  intros Hcur. cbv zeta.
  induction legacyKeys as [|legacyKey legacyKeys IH]; simpl; [by right|].
  destruct (parseCachedInstances parseArray (store !! legacyKey))
    as [legacyParsed|] eqn:Hlegacy; [|done].
  left. unfold parseCachedInstances in Hlegacy.
  destruct (store !! legacyKey) as [[|a r]|] eqn:Hraw; try done.
  injection Hlegacy as <-.
  assert (Hne : legacyKey <> cacheKey).
  { intros ->. rewrite Hraw in Hcur. done. }
  unfold loadCachedInstances. cbn [snd fst default].
  by rewrite lookup_delete_ne, lookup_insert_eq.
Qed.

Lemma loadCachedInstances_again (store : gmap string string) :
  let result := loadCachedInstances parseArray cacheKey legacyCacheKeys store in
  loadCachedInstances parseArray cacheKey legacyCacheKeys result.2 = result.
Proof.
  cbv zeta. unfold loadCachedInstances at 2 3.
  destruct (parseCachedInstances parseArray (store !! cacheKey))
    as [current|] eqn:Hcur.
  - unfold loadCachedInstances. cbn [snd]. by rewrite Hcur.
  - destruct (migrateLegacy_again legacyCacheKeys store Hcur) as [Hagain|Hnone];
      [done|].
    rewrite Hnone. cbn [snd]. unfold loadCachedInstances. by rewrite Hcur, Hnone.
Qed.

Lemma persisted_read_back instances (store : gmap string string) :
  parseArray (stringify instances) = Some instances ->
  stringify instances <> EmptyString ->
  let stored :=
    persistInstancesCache stringify cacheKey legacyCacheKeys instances store in
  loadCachedInstances parseArray cacheKey legacyCacheKeys stored
  = (instances, stored).
Proof.
  intros Hparse Htext stored.
  destruct (persist_cleans stringify cacheKey legacyCacheKeys instances store)
    as [Hkey _].
  fold stored in Hkey.
  unfold loadCachedInstances. rewrite Hkey.
  destruct (stringify instances) as [|a r] eqn:Hs; [done|].
  simpl. by rewrite Hparse.
Qed.

End InstanceCache.

(** X24.  Reading the instance cache a second time gives the same instances
    and leaves the storage as the first read left it, whatever the storage
    holds and however many legacy keys there are; and instances that are
    written to the cache are read back as they were, provided their JSON
    text parses back to them. *)
Theorem instance_cache_round_trip {InstanceProfile : Type}
    (parseArray : string -> option (list InstanceProfile))
    (stringify : list InstanceProfile -> string)
    (cacheKey : string) (legacyCacheKeys : list string)
    (instances : list InstanceProfile) (localStorage : gmap string string) :
  (let first := loadCachedInstances parseArray cacheKey legacyCacheKeys
                  localStorage in
   loadCachedInstances parseArray cacheKey legacyCacheKeys first.2 = first) /\
  (parseArray (stringify instances) = Some instances ->
   stringify instances <> EmptyString ->
   let stored :=
     persistInstancesCache stringify cacheKey legacyCacheKeys instances
       localStorage in
   loadCachedInstances parseArray cacheKey legacyCacheKeys stored
   = (instances, stored)).
Proof.
  split.
  - apply loadCachedInstances_again.
  - apply persisted_read_back.
Qed.

Lemma instance_cache_round_trip_witness :
  let stored :=
    persistInstancesCache charsText "cockpit.codex.instances.cache"
      ["agtools.codex.instances.cache"%string] ["a"; "b"]%char legacyOnly in
  loadCachedInstances parseChars "cockpit.codex.instances.cache"
    ["agtools.codex.instances.cache"%string] stored
  = (["a"; "b"]%char, stored).
Proof.
  apply (instance_cache_round_trip parseChars charsText
           "cockpit.codex.instances.cache"
           ["agtools.codex.instances.cache"%string] ["a"; "b"]%char legacyOnly).
  - reflexivity.
  - discriminate.
Defined.

Lemma parseChars_charsText l : parseChars (charsText l) = Some l.
Proof.
  unfold parseChars, charsText. by rewrite list_ascii_of_string_of_list_ascii.
Qed.

Section InstanceStoreCoherence.

Context {InstanceProfile InstanceDefaults : Type}.
Variable parseArray : string -> option (list InstanceProfile).
Variable stringify : list InstanceProfile -> string.
Variable cacheKey : string.
Variable legacyCacheKeys : list string.
Variable errorText : Thrown -> string.

Hypothesis parse_stringify : forall l, parseArray (stringify l) = Some l.
Hypothesis stringify_text : forall l, stringify l <> EmptyString.

Lemma storeStep_coherent
    (s : @InstanceStoreState InstanceProfile InstanceDefaults * gmap string string)
    action :
  writesThrough action = true ->
  loadCachedInstances parseArray cacheKey legacyCacheKeys s.2
    = (instances s.1, s.2) ->
  let s' := storeStep stringify cacheKey legacyCacheKeys errorText s action in
  loadCachedInstances parseArray cacheKey legacyCacheKeys s'.2
    = (instances s'.1, s'.2).
Proof using parse_stringify stringify_text.
  destruct s as [st store]. cbn [fst snd]. intros Hwrites Hcoherent.
  destruct action as [[found|e] []|[found|e] []|[d|e]|[[]|e] [found|e'] []];
    try discriminate Hwrites;
    cbn -[persistInstancesCache loadCachedInstances];
    try done; by apply persisted_read_back.
Qed.

End InstanceStoreCoherence.

(** X25.  The cache and the store agree as long as the storage takes the
    writes: from the creation of the store on, and after any sequence of its
    actions, whatever way the service calls end, a read of the cache gives
    the instances the store holds and changes nothing, provided the JSON
    text of a list of instances parses back to it.  A successful listing
    that is written restores the agreement from any state.  When the storage
    throws at the write, the store holds the instances of the listing and the
    storage is left as it was. *)
Theorem instance_store_cache_coherent {InstanceProfile InstanceDefaults : Type}
    (parseArray : string -> option (list InstanceProfile))
    (stringify : list InstanceProfile -> string)
    (cacheKey : string) (legacyCacheKeys : list string)
    (errorText : Thrown -> string) (localStorage : gmap string string)
    (actions : list (@StoreAction InstanceProfile InstanceDefaults))
    (found : list InstanceProfile)
    (st : @InstanceStoreState InstanceProfile InstanceDefaults) :
  (forall l, parseArray (stringify l) = Some l) ->
  (forall l, stringify l <> EmptyString) ->
  (Forall (fun action => writesThrough action = true) actions ->
   let final :=
     foldl (storeStep stringify cacheKey legacyCacheKeys errorText)
       (initialStore parseArray cacheKey legacyCacheKeys false localStorage)
       actions in
   loadCachedInstances parseArray cacheKey legacyCacheKeys final.2
   = (instances final.1, final.2)) /\
  (let after :=
     fetchInstances stringify cacheKey legacyCacheKeys errorText
       (resolved found) false st localStorage in
   loadCachedInstances parseArray cacheKey legacyCacheKeys after.2
   = (instances after.1, after.2)) /\
  (let after :=
     fetchInstances stringify cacheKey legacyCacheKeys errorText
       (resolved found) true st localStorage in
   instances after.1 = found /\ after.2 = localStorage).
Proof.
  intros Hparse Htext. split_and!.
  - intros Hwrites. cbv zeta.
    assert (Hinit :
      let s0 := @initialStore InstanceProfile InstanceDefaults parseArray
                  cacheKey legacyCacheKeys false localStorage in
      loadCachedInstances parseArray cacheKey legacyCacheKeys s0.2
      = (instances s0.1, s0.2)).
    { cbv zeta. unfold initialStore, tryLoadCachedInstances.
      pose proof (loadCachedInstances_again parseArray cacheKey legacyCacheKeys
                    localStorage) as Hagain.
      cbv zeta in Hagain.
      by destruct (loadCachedInstances parseArray cacheKey legacyCacheKeys
                     localStorage) as [cached stored]. }
    cbv zeta in Hinit. revert Hinit.
    generalize (@initialStore InstanceProfile InstanceDefaults parseArray
                  cacheKey legacyCacheKeys false localStorage).
    induction Hwrites as [|action actions Hwrite _ IH]; intros s Hs; simpl;
      [done|].
    apply IH. by apply storeStep_coherent.
  - cbn -[persistInstancesCache loadCachedInstances].
    by apply persisted_read_back.
  - done.
Qed.

Lemma instance_store_cache_coherent_witness :
  let final :=
    foldl (storeStep charsText "cockpit.codex.instances.cache"
             ["agtools.codex.instances.cache"%string] formatErrorMessage)
      (@initialStore ascii unit parseChars "cockpit.codex.instances.cache"
         ["agtools.codex.instances.cache"%string] false legacyOnly)
      [ActFetch (resolved ["a"; "b"]%char) false;
       ActMutate (resolved tt) (threw (ErrorObject "offline")) false;
       ActRefresh (resolved ["c"]%char) false;
       ActFetchDefaults (threw (ThrownString "no defaults"))] in
  loadCachedInstances parseChars "cockpit.codex.instances.cache"
    ["agtools.codex.instances.cache"%string] final.2
  = (instances final.1, final.2).
Proof.
  apply (instance_store_cache_coherent parseChars charsText
           "cockpit.codex.instances.cache"
           ["agtools.codex.instances.cache"%string] formatErrorMessage
           legacyOnly _ []
           {| instances := []; defaults := None; loading := false;
              error := None |}).
  - apply parseChars_charsText.
  - discriminate.
  - repeat constructor.
Defined.

(** A write that the storage refuses leaves the cache behind the store: the
    store holds the listing, a read of the cache still gives what it held. *)
Example refused_write_leaves_cache_behind :
  let before : gmap string string :=
    {[ "cockpit.codex.instances.cache"%string := charsText ["a"]%char ]} in
  let after :=
    fetchInstances charsText "cockpit.codex.instances.cache"
      ["agtools.codex.instances.cache"%string] formatErrorMessage
      (resolved ["b"]%char) true
      {| instances := ["a"]%char; defaults := @None unit; loading := false;
         error := None |} before in
  instances after.1 = ["b"]%char /\
  (loadCachedInstances parseChars "cockpit.codex.instances.cache"
     ["agtools.codex.instances.cache"%string] after.2).1 = ["a"]%char.
Proof. split; reflexivity. Qed.

(** ** The label of the next run *)

Lemma Day_le a b : a <= b -> Day a <= Day b.
Proof. intros Hab. unfold Day, msPerDay. by apply Z.div_le_mono. Qed.

Lemma Day_of_day k o : 0 <= o < msPerDay -> Day (k * msPerDay + o) = k.
Proof.
  intros Ho. unfold Day, msPerDay in *.
  rewrite Z.add_comm, Z.div_add by lia. rewrite Z.div_small by lia. lia.
Qed.

(** X26.  The next run of a task on a daily schedule of valid, distinct
    times is at most a day away, and its label says today or tomorrow:
    today exactly when the run falls on the calendar day of now. *)
Theorem daily_next_run_label (task : WakeupTask) (now : Z) (fuel : nat)
    (times : list string) :
  getTriggerMode task = scheduled ->
  repeatMode (schedule task) = daily ->
  dailyTimes (schedule task) = Some times ->
  times <> [] -> NoDup times ->
  Forall (fun s => validTime s = true) times ->
  exists first label,
    getNextRunLabel now fuel task = Some (NextRunAt first label) /\
    now < first <= now + msPerDay /\
    (label = LabelToday \/ label = LabelTomorrow) /\
    (label = LabelToday <-> Day first = Day now).
Proof.
  intros Hmode Hrepeat Htimes Hne Hnd Hvalid.
  set (future := List.filter (fun t => now <? t) (dailyInstants now times)).
  assert (Hruns : calculateNextRuns now 1 fuel (schedule task)
                  = Some (take 1 future)).
  { unfold calculateNextRuns. rewrite Hrepeat, Htimes.
    destruct times as [|t0 ts]; [done|]. simpl.
    rewrite dailyRuns_collect, take_take, Nat.min_id.
    by rewrite dailyCandidates_valid, upcoming_valid. }
  assert (Hsorted : StronglySorted Z.lt future)
    by by apply filter_after_sorted, dailyInstants_sorted.
  destruct times as [|time0 ts]; [done|].
  assert (Htime0 : time0 ∈ time0 :: ts) by by left.
  assert (Hv0 : validTime time0 = true)
    by (rewrite Forall_forall in Hvalid; by apply Hvalid).
  pose proof (timeMs_range time0 Hv0) as Hrange.
  pose proof (Day_bounds now) as Hday.
  assert (Hcand : forall d, 0 <= d < 7 ->
            now < (Day now + d) * msPerDay + timeMs time0 ->
            (Day now + d) * msPerDay + timeMs time0 ∈ future).
  { intros d Hd Hlater. unfold future.
    apply (proj2 (filter_after_elem_of now _ _)). split; [|exact Hlater].
    apply (proj2 (dailyInstants_elem_of now (time0 :: ts) _ Hvalid)).
    exists d, time0. split_and!; [lia..|done|]. by apply dateAt_valid. }
  assert (Hnear : exists t, t ∈ future /\ t <= now + msPerDay).
  { destruct (Z.lt_ge_cases now ((Day now + 0) * msPerDay + timeMs time0))
      as [Htoday|Hpast].
    - eexists. split; [apply (Hcand 0); [lia|done]|]. lia.
    - eexists. split; [apply (Hcand 1); [lia|]|]; lia. }
  destruct Hnear as (near & Hnear & Hbound).
  destruct future as [|first rest] eqn:Hfuture;
    [by apply elem_of_nil in Hnear|].
  assert (Hfirst : now < first).
  { assert (Hin : first ∈ future) by (rewrite Hfuture; by left).
    by apply filter_after_elem_of in Hin as [_ ?]. }
  assert (Hleast : first <= near)
    by (eapply sorted_head_least; [exact Hsorted|done|done]).
  exists first, (formatRunTime first now). split_and!.
  - unfold getNextRunLabel. rewrite Hmode, Hruns. done.
  - done.
  - lia.
  - pose proof (Day_le now first ltac:(lia)) as Hlow.
    pose proof (Day_le first (now + 1 * msPerDay) ltac:(lia)) as Hhigh.
    rewrite Day_addDays in Hhigh.
    unfold formatRunTime.
    destruct (Z.eqb_spec (Day first) (Day now)); [by left|].
    destruct (Z.eqb_spec (Day first) (Day now + 1)); [by right|lia].
  - unfold formatRunTime.
    destruct (Z.eqb_spec (Day first) (Day now)); [done|].
    destruct (Z.eqb_spec (Day first) (Day now + 1)); split; done.
Qed.

Lemma daily_next_run_label_witness :
  exists first label,
    getNextRunLabel daySix 8 (defaultTask everyMorningAndEvening)
      = Some (NextRunAt first label) /\
    daySix < first <= daySix + msPerDay /\
    (label = LabelToday \/ label = LabelTomorrow) /\
    (label = LabelToday <-> Day first = Day daySix).
Proof.
  apply (daily_next_run_label (defaultTask everyMorningAndEvening) daySix 8
           ["20:30"; "08:00"]%string).
  - reflexivity.
  - reflexivity.
  - reflexivity.
  - discriminate.
  - apply (bool_decide_unpack _). vm_compute. reflexivity.
  - repeat constructor.
Defined.

(** ** Selections of the test dialog *)

Lemma existsb_eqb_elem_of (id : string) (l : list string) :
  existsb (String.eqb id) l = true <-> id ∈ l.
Proof.
  rewrite existsb_exists, list_elem_of_In. split.
  - intros (x & Hin & Heq). apply String.eqb_eq in Heq. by subst.
  - intros Hin. exists id. split; [done|]. apply String.eqb_refl.
Qed.

Lemma filter_all_true {A} (p : A -> bool) l :
  (forall x, x ∈ l -> p x = true) -> List.filter p l = l.
Proof.
  induction l as [|a l IH]; intros Hall; simpl; [done|].
  rewrite Hall by by left. f_equal. apply IH. intros x Hx. apply Hall. by right.
Qed.

Lemma repairTestModels_within modelIds prev x :
  x ∈ repairTestModels modelIds prev -> x ∈ modelIds.
Proof.
  unfold repairTestModels. destruct modelIds as [|first ids]; [done|].
  destruct (List.filter _ prev) as [|y next] eqn:Hfilter.
  - intros ->%list_elem_of_singleton. by left.
  - rewrite <- Hfilter. rewrite list_elem_of_In, filter_In.
    intros [_ Hx]. by apply existsb_eqb_elem_of in Hx.
Qed.

Lemma repairTestModels_kept modelIds prev :
  prev <> [] -> (forall x, x ∈ prev -> x ∈ modelIds) ->
  repairTestModels modelIds prev = prev.
Proof.
  intros Hne Hsub. unfold repairTestModels.
  destruct modelIds as [|first ids].
  - destruct prev as [|x prev]; [done|].
    by specialize (Hsub x ltac:(by left)); apply elem_of_nil in Hsub.
  - rewrite filter_all_true.
    + by destruct prev.
    + intros x Hx. by apply existsb_eqb_elem_of, Hsub.
Qed.

Lemma repairTestModels_some modelIds prev :
  modelIds <> [] -> repairTestModels modelIds prev <> [].
Proof.
  unfold repairTestModels. destruct modelIds as [|first ids]; [done|].
  intros _. by destruct (List.filter _ prev).
Qed.

Lemma repairTestAccounts_within currentEmail accountEmails prev x :
  (forall email, currentEmail = Some email -> email ∈ accountEmails) ->
  x ∈ repairTestAccounts currentEmail accountEmails prev -> x ∈ accountEmails.
Proof.
  intros Hcurrent. unfold repairTestAccounts.
  destruct accountEmails as [|first emails]; [done|].
  destruct (List.filter _ prev) as [|y next] eqn:Hfilter.
  - intros ->%list_elem_of_singleton.
    unfold activeAccountEmail.
    destruct currentEmail as [[|a r]|].
    + destruct first; simpl; by left.
    + simpl. by apply Hcurrent.
    + destruct first; simpl; by left.
  - rewrite <- Hfilter. rewrite list_elem_of_In, filter_In.
    intros [_ Hx]. by apply bool_decide_eq_true in Hx.
Qed.

Lemma repairTestAccounts_kept currentEmail accountEmails prev :
  prev <> [] -> (forall x, x ∈ prev -> x ∈ accountEmails) ->
  repairTestAccounts currentEmail accountEmails prev = prev.
Proof.
  intros Hne Hsub. unfold repairTestAccounts.
  destruct accountEmails as [|first emails].
  - destruct prev as [|x prev]; [done|].
    by specialize (Hsub x ltac:(by left)); apply elem_of_nil in Hsub.
  - rewrite filter_all_true.
    + by destruct prev.
    + intros x Hx. by apply bool_decide_eq_true, Hsub.
Qed.

Lemma repairTestAccounts_some currentEmail accountEmails prev :
  accountEmails <> [] -> repairTestAccounts currentEmail accountEmails prev <> [].
Proof.
  unfold repairTestAccounts. destruct accountEmails as [|first emails]; [done|].
  intros _. by destruct (List.filter _ prev).
Qed.

(** X27.  The effects that repair the selections of the test dialog leave a
    selection that is not empty and lies within what is offered, and a
    second pass changes nothing; a selection that was already so is kept as
    it is.  For the accounts this needs the current account, if there is one,
    to be among the known accounts. *)
Theorem test_selection_repair (modelIds accountEmails prevModels prevAccounts
    : list string) (currentEmail : option string) :
  modelIds <> [] -> accountEmails <> [] ->
  (forall email, currentEmail = Some email -> email ∈ accountEmails) ->
  let models := repairTestModels modelIds prevModels in
  let emails := repairTestAccounts currentEmail accountEmails prevAccounts in
  (models <> [] /\ (forall x, x ∈ models -> x ∈ modelIds) /\
   repairTestModels modelIds models = models /\
   (prevModels <> [] -> (forall x, x ∈ prevModels -> x ∈ modelIds) ->
    models = prevModels)) /\
  (emails <> [] /\ (forall x, x ∈ emails -> x ∈ accountEmails) /\
   repairTestAccounts currentEmail accountEmails emails = emails /\
   (prevAccounts <> [] -> (forall x, x ∈ prevAccounts -> x ∈ accountEmails) ->
    emails = prevAccounts)).
Proof.
  intros Hmodels Haccounts Hcurrent models emails. split; split_and!.
  - by apply repairTestModels_some.
  - apply repairTestModels_within.
  - apply repairTestModels_kept.
    + by apply repairTestModels_some.
    + apply repairTestModels_within.
  - apply repairTestModels_kept.
  - by apply repairTestAccounts_some.
  - intros x. by apply repairTestAccounts_within.
  - apply repairTestAccounts_kept.
    + by apply repairTestAccounts_some.
    + intros x. by apply repairTestAccounts_within.
  - apply repairTestAccounts_kept.
Qed.

Lemma test_selection_repair_witness :
  repairTestModels knownModels ["gone"; "codex-weekly"]%string
    = ["codex-weekly"]%string /\
  repairTestAccounts (Some "b@example.com"%string) knownAccounts ["gone"%string]
    = ["b@example.com"]%string /\
  repairTestAccounts (Some "b@example.com"%string) knownAccounts
    ["b@example.com"]%string = ["b@example.com"]%string.
Proof.
  destruct (test_selection_repair knownModels knownAccounts
              ["gone"; "codex-weekly"]%string ["gone"%string]
              (Some "b@example.com"%string))
    as [(_ & _ & Hmodels & _) (_ & _ & Haccounts & _)].
  - discriminate.
  - discriminate.
  - intros email [= <-]. apply (bool_decide_unpack _). vm_compute. reflexivity.
  - split; [reflexivity|]. split; [reflexivity|exact Haccounts].
Defined.

(** A current account that is not among the known ones is selected all the
    same. *)
Example repairTestAccounts_unknown_current :
  repairTestAccounts (Some "x@example.com"%string) knownAccounts []
  = ["x@example.com"%string].
Proof. reflexivity. Qed.

(** ** Output tokens *)

Lemma normalizeMaxOutputTokens_nonneg value fallback :
  0 <= normalizeMaxOutputTokens value fallback.
Proof.
  unfold normalizeMaxOutputTokens.
  destruct value as [v|], fallback as [f|];
    repeat match goal with
           | |- context [?a <? ?b] => destruct (Z.ltb_spec a b)
           | |- context [?a <=? ?b] => destruct (Z.leb_spec a b)
           end; lia.
Qed.

(** X28.  The number of output tokens is never negative: neither the one a
    test run sends to the service, whatever the stored tasks hold, nor the
    one saved with a task. *)
Theorem output_tokens_never_negative (value fallback : option Z)
    (st : TestState) (f : TaskForm) :
  0 <= normalizeMaxOutputTokens value fallback /\
  0 <= resolvedMaxTokensOf st /\
  exists tokens, maxOutputTokens (formSchedule f) = Some tokens /\ 0 <= tokens.
Proof.
  split_and!.
  - apply normalizeMaxOutputTokens_nonneg.
  - apply normalizeMaxOutputTokens_nonneg.
  - eexists. split; [reflexivity|]. cbn.
    apply normalizeMaxOutputTokens_nonneg.
Qed.

(** ** Loading the tasks *)

(** X29.  What [loadTasks] gives for each state of the storage: with nothing
    stored, one default task, enabled, created now, on the default schedule;
    with a stored text that does not parse, no task at all and not the
    default one; with only the legacy key populated, the tasks of the legacy
    text, each normalised, and the text moved to the current key. *)
Theorem load_tasks_cases (parseJson : string -> option (list WakeupTask))
    (defaultTaskName freshId : string) (now : Z)
    (localStorage : gmap string string) (a : ascii) (r : string)
    (parsed : list WakeupTask) :
  (localStorage !! WAKEUP_TASKS_KEY = None ->
   localStorage !! LEGACY_WAKEUP_TASKS_KEY = None ->
   loadTasks parseJson defaultTaskName freshId now localStorage
   = ([{| task_id := freshId; task_name := defaultTaskName; enabled := true;
          createdAt := now; lastRunAt := None;
          schedule := normalizeSchedule DEFAULT_SCHEDULE |}], localStorage)) /\
  (localStorage !! WAKEUP_TASKS_KEY = Some (String a r) ->
   parseJson (String a r) = None ->
   loadTasks parseJson defaultTaskName freshId now localStorage
   = ([], localStorage)) /\
  (localStorage !! WAKEUP_TASKS_KEY = None ->
   localStorage !! LEGACY_WAKEUP_TASKS_KEY = Some (String a r) ->
   parseJson (String a r) = Some parsed ->
   exists stored : gmap string string,
     loadTasks parseJson defaultTaskName freshId now localStorage
     = (map normalizeTask parsed, stored) /\
     stored !! WAKEUP_TASKS_KEY = Some (String a r) /\
     stored !! LEGACY_WAKEUP_TASKS_KEY = None).
Proof.
  unfold loadTasks, readStorageWithLegacy, parseTasks. split_and!.
  - by intros -> ->.
  - intros -> Hparse. by rewrite Hparse.
  - intros -> -> Hparse. rewrite Hparse. eexists. split; [done|]. split.
    + by rewrite lookup_delete_ne, lookup_insert_eq.
    + by rewrite lookup_delete_eq.
Qed.

Lemma load_tasks_cases_witness :
  loadTasks (fun _ => None) "Wake" "id" 3 ∅
  = ([{| task_id := "id"; task_name := "Wake"; enabled := true;
         createdAt := 3; lastRunAt := None;
         schedule := normalizeSchedule DEFAULT_SCHEDULE |}], ∅) /\
  loadTasks (fun _ => None) "Wake" "id" 3 bothKeys = ([], bothKeys) /\
  exists stored : gmap string string,
    loadTasks (fun _ => Some [staleTask]) "Wake" "id" 3 legacyOnly
    = ([normalizeTask staleTask], stored) /\
    stored !! WAKEUP_TASKS_KEY = Some "[1]"%string /\
    stored !! LEGACY_WAKEUP_TASKS_KEY = None.
Proof.
  split; [|split].
  - apply (load_tasks_cases (fun _ => None) "Wake" "id" 3 ∅ "x" EmptyString []);
      reflexivity.
  - apply (load_tasks_cases (fun _ => None) "Wake" "id" 3 bothKeys
             "[" "2]" []); reflexivity.
  - apply (load_tasks_cases (fun _ => Some [staleTask]) "Wake" "id" 3 legacyOnly
             "[" "1]" [staleTask]); reflexivity.
Defined.
